(** * Statistical comparison engine of the publishing-v2 assessment scripts

    A shallow embedding of the numerical core of

    - [scripts/202509_update/calculate_basic_pub_stats.py]
      ([calculate_descriptive_stats], [compare_groups],
      [calculate_mean_difference_effects]) and
    - [scripts/202509_update/feedback_form_basic_stats.py]
      ([analyze_version_differences_v2]).

    Python floats and numpy's float64 are IEEE binary64 numbers; they are
    embedded as Rocq's primitive floats, which are the same format with the
    same rounding.  Python integers are [Z].  The scripts lean on pandas,
    numpy, scipy and statsmodels: the reductions whose value matters
    ([len], [mean], [var]) are written out as pandas computes them, with
    numpy's pairwise summation, functions whose value is only handed on
    are parameters of the function that calls them, and those that
    validate their input are parameters that may raise.  The corrector of
    the second script is statsmodels' [multipletests]; its two methods are
    modelled from section 4.5 of the specification, over exact
    rationals. *)

From Stdlib Require Import ZArith List Bool Lia Floats Uint63 String.
From Stdlib Require Import QArith Qminmax Lqa Permutation Sorted Orders Mergesort.
Import ListNotations.

Set Warnings "-inexact-float".

(** ** Python values and faults *)

Module Py.

Inductive exn : Set :=
| ZeroDivisionError
| ValueError
| IndexError.

(** The outcome of a call: a value, or an exception that leaves the caller
    (nothing in the scripts catches one). *)
Inductive result (A : Type) : Type :=
| Ok (a : A)
| Raise (e : exn).

Arguments Ok {A} a.
Arguments Raise {A} e.

Definition bind {A B : Type} (r : result A) (k : A -> result B) : result B :=
  match r with
  | Ok a => k a
  | Raise e => Raise e
  end.

Definition raises {A : Type} (r : result A) : Prop :=
  exists e, r = Raise e.

(** An [int] met by a float in arithmetic is converted to the nearest
    binary64, ties to even, whatever its size. *)
Definition float_of_int (z : Z) : float :=
  SF2Prim (binary_normalize prec emax z 0 false).

Definition SF_of_int (z : Z) : spec_float :=
  match z with
  | Z0 => S754_zero false
  | Zpos p => S754_finite false p 0
  | Zneg p => S754_finite true p 0
  end.

(** The quotient of two Python ints: the binary64 nearest to the exact
    quotient. *)
Definition int_quotient (a b : Z) : float :=
  SF2Prim (SFdiv prec emax (SF_of_int a) (SF_of_int b)).

(** [a / b] on two Python ints: true division, [ZeroDivisionError] when
    [b] is zero. *)
Definition int_truediv (a b : Z) : result float :=
  if (b =? 0)%Z then Raise ZeroDivisionError
  else Ok (int_quotient a b).

(** [x ** 2] on a float64. *)
Definition pow2 (x : float) : float := (x * x)%float.

(** *** Scalars

    A reduction of pandas returns numpy's [float64], except on an empty
    series, where it returns [np.nan], which is the built-in [float] nan.
    The two kinds hold the same numbers and differ in one respect:
    dividing the built-in nan by the int 0 raises [ZeroDivisionError],
    while a [float64] divided by zero is NaN or an infinity.  In
    arithmetic with an int or another built-in float the built-in nan
    stays what it is; with a [float64] on either side the result is a
    [float64]. *)
Inductive scalar : Set :=
| py_nan
| float64 (x : float).

Definition value (s : scalar) : float :=
  match s with
  | py_nan => nan
  | float64 x => x
  end.

Definition binop (op : float -> float -> float) (a b : scalar) : scalar :=
  match a, b with
  | py_nan, py_nan => py_nan
  | _, _ => float64 (op (value a) (value b))
  end.

(** [a + b], [a - b] and [a / b] on two scalars; the built-in nan is
    not zero, so the division does not raise. *)
Definition sadd (a b : scalar) : scalar := binop PrimFloat.add a b.
Definition ssub (a b : scalar) : scalar := binop PrimFloat.sub a b.
Definition sdiv (a b : scalar) : scalar := binop PrimFloat.div a b.

(** [n * a] for an int [n]. *)
Definition int_mul (n : Z) (a : scalar) : scalar :=
  match a with
  | py_nan => py_nan
  | float64 x => float64 (float_of_int n * x)%float
  end.

(** [a / n] for an int [n]. *)
Definition truediv_int (a : scalar) (n : Z) : result scalar :=
  match a with
  | py_nan => if (n =? 0)%Z then Raise ZeroDivisionError else Ok py_nan
  | float64 x => Ok (float64 (x / float_of_int n)%float)
  end.

(** [a ** 2] *)
Definition square (a : scalar) : scalar :=
  match a with
  | py_nan => py_nan
  | float64 x => float64 (pow2 x)
  end.

(** [np.sqrt(a)], always a [float64]. *)
Definition np_sqrt (a : scalar) : float := PrimFloat.sqrt (value a).

(** [r[key]] on the dictionary a call returned, when it returned. *)
Definition field {A B : Type} (key : A -> B) (r : result A) : result B :=
  bind r (fun d => Ok (key d)).

End Py.

Notation "x <- r ;; k" := (Py.bind r (fun x => k))
  (at level 61, r at next level, right associativity).

(** ** The pandas operations the scripts use *)

Module Pandas.

Import Py.

(** An entry of a column as [pd.to_numeric] meets it: a number (or text
    that reads as that number), text that does not read as a number, or a
    missing entry. *)
Inductive cell : Set :=
| Num (x : float)
| Text
| Missing.

(** [pd.to_numeric(series, errors="coerce")]: what is not a number becomes
    NaN. *)
Definition to_numeric (series : list cell) : list float :=
  map (fun c => match c with Num x => x | Text => nan | Missing => nan end)
      series.

(** [series.dropna()] *)
Definition dropna (series : list float) : list float :=
  filter (fun x => negb (is_nan x)) series.

(** [len(series)] *)
Definition len {A : Type} (series : list A) : Z :=
  Z.of_nat (List.length series).

(** *** Summation

    [series.mean()] and [series.var()] sum with numpy's [add.reduce]
    (pandas' own routines of [nanops]), which on an array of float64
    adds [DOUBLE_pairwise_sum] of the array to the initial 0.0: fewer
    than 8 numbers are added one after the other; up to [PW_BLOCKSIZE]
    numbers are added in eight lanes, the lanes are added pairwise and
    the numbers left over one after the other; a longer array is cut in
    two near the middle, at a multiple of 8.  The series are of float64,
    as [pd.to_numeric] gives a column with a missing, fractional or
    unreadable entry; a column held as int64 is summed the same way up
    to 8192 values, numpy's buffer for the conversion. *)
Definition PW_BLOCKSIZE : nat := 128.

(** [r[k] += a[i + k]] for the eight lanes. *)
Fixpoint add_lanes (r a : list float) : list float :=
  match r, a with
  | x :: r', y :: a' => (x + y)%float :: add_lanes r' a'
  | _, _ => r
  end.

(** The loop [for (i = 8; i < n - (n % 8); i += 8)]: the lanes after it
    and the numbers it has not read. *)
Fixpoint unrolled (times : nat) (r a : list float)
  : list float * list float :=
  match times with
  | O => (r, a)
  | S times' => unrolled times' (add_lanes r (firstn 8 a)) (skipn 8 a)
  end.

Definition block_sum (a : list float) : float :=
  let n := List.length a in
  let '(r, rest) := unrolled (n / 8 - 1) (firstn 8 a) (skipn 8 a) in
  let lane k := nth k r 0%float in
  let res :=
    (((lane 0%nat + lane 1%nat) + (lane 2%nat + lane 3%nat))
     + ((lane 4%nat + lane 5%nat) + (lane 6%nat + lane 7%nat)))%float in
  fold_left PrimFloat.add rest res.

(** The recursion on the halves, [depth] calls deep at most; the halves
    are shorter than the array, so a depth of its length is never used
    up ([pairwise_sum_depth] below). *)
Fixpoint pairwise_sum_from (depth : nat) (a : list float) : float :=
  let n := List.length a in
  if (n <? 8)%nat then fold_left PrimFloat.add a (-0)%float
  else if (n <=? PW_BLOCKSIZE)%nat then block_sum a
  else
    match depth with
    | O => nan
    | S depth' =>
        let n2 := (n / 2 - (n / 2) mod 8)%nat in
        (pairwise_sum_from depth' (firstn n2 a)
         + pairwise_sum_from depth' (skipn n2 a))%float
    end.

Definition pairwise_sum (a : list float) : float :=
  pairwise_sum_from (List.length a) a.

(** [series.sum()]: 0.0 for an empty series. *)
Definition Series_sum (series : list float) : float :=
  (0 + pairwise_sum series)%float.

(** [series.mean()]: the sum over the count; the built-in nan for an
    empty series. *)
Definition Series_mean (series : list float) : scalar :=
  if (len series =? 0)%Z then py_nan
  else float64 (Series_sum series / float_of_int (len series))%float.

(** [series.var(ddof=ddof)]: pandas' two-pass variance.  With no more
    than [ddof] values both the count and the divisor are NaN, hence so is
    the result; it is the built-in nan for an empty series. *)
Definition Series_var (ddof : Z) (series : list float) : scalar :=
  let count := len series in
  if (count =? 0)%Z then py_nan
  else
    let '(cnt, d) :=
      if (count <=? ddof)%Z then (nan, nan)
      else (float_of_int count, float_of_int (count - ddof)) in
    let avg := (Series_sum series / cnt)%float in
    let sqr := map (fun x => pow2 (avg - x)%float) series in
    float64 (Series_sum sqr / d)%float.

(** [series.std(ddof=ddof)] *)
Definition Series_std (ddof : Z) (series : list float) : scalar :=
  match Series_var ddof series with
  | py_nan => py_nan
  | float64 v => float64 (PrimFloat.sqrt v)
  end.

End Pandas.

(** ** scripts/202509_update/calculate_basic_pub_stats.py *)

Module PubStats.

Import Py Pandas.

(** The dictionary [calculate_descriptive_stats] returns. *)
Record DescriptiveStats : Set := {
  ds_n : Z;
  ds_mean : float;
  ds_std : float;
  ds_sem : float;
  ds_ci_95 : float * float;
  ds_median : float;
  ds_q1 : float;
  ds_q3 : float
}.

(** The dictionary [compare_groups] returns. *)
Record Comparison : Set := {
  welch_t_p_value : float;
  mwu_p_value : float
}.

(** The dictionary [calculate_mean_difference_effects] returns. *)
Record MeanDifferenceEffects : Set := {
  hedges_g : float;
  glass_delta : float;
  mean_diff_ci_95 : float * float
}.

Inductive alternative : Set := TwoSided | Less | Greater.
Inductive mwu_method : Set := Auto | Exact | Asymptotic.

(** The scipy functions of the module.  Distribution functions are
    numerical primitives on floats; the two hypothesis tests validate
    their samples and may raise. *)
Record Scipy : Type := {
  (** [stats.sem(series, ddof=ddof)] *)
  stats_sem : list float -> Z -> float;
  (** [stats.t.interval(confidence, df=df, loc=loc, scale=scale)] *)
  t_interval : float -> float -> float -> float -> float * float;
  (** [stats.t.ppf(q, df=df)] *)
  t_ppf : float -> float -> float;
  (** [stats.ttest_ind(a, b, equal_var=equal_var).pvalue] *)
  ttest_ind : list float -> list float -> bool -> result float;
  (** [stats.mannwhitneyu(x, y, alternative=..., method=...).pvalue] *)
  mannwhitneyu :
    list float -> list float -> alternative -> mwu_method -> result float
}.

(** [series.median()] and [series.quantile(q)] are handed on as they come. *)
Record Quantiles : Type := {
  Series_median : list float -> float;
  Series_quantile : list float -> float -> float
}.

Section WithLibraries.

Variable stats : Scipy.
Variable pd : Quantiles.

Definition calculate_descriptive_stats (data_series : list cell)
  : DescriptiveStats :=
  let series := dropna (to_numeric data_series) in
  let n := len series in
  if (n <? 2)%Z then
    {| ds_n := n; ds_mean := nan; ds_std := nan; ds_sem := nan;
       ds_ci_95 := (nan, nan); ds_median := nan; ds_q1 := nan;
       ds_q3 := nan |}
  else
    let mean := value (Series_mean series) in
    let std := value (Series_std 1 series) in
    let sem := stats_sem stats series 1 in
    let ci_95 :=
      t_interval stats 0.95%float (float_of_int (n - 1)) mean sem in
    {| ds_n := n; ds_mean := mean; ds_std := std; ds_sem := sem;
       ds_ci_95 := ci_95; ds_median := Series_median pd series;
       ds_q1 := Series_quantile pd series 0.25%float;
       ds_q3 := Series_quantile pd series 0.75%float |}.

Definition compare_groups (series1 series2 : list cell) : result Comparison :=
  let s1 := dropna (to_numeric series1) in
  let s2 := dropna (to_numeric series2) in
  ttest_p <- ttest_ind stats s1 s2 false ;;
  mwu_p <- mannwhitneyu stats s1 s2 TwoSided Asymptotic ;;
  Ok {| welch_t_p_value := ttest_p; mwu_p_value := mwu_p |}.

Definition calculate_mean_difference_effects (series1 series2 : list cell)
  : result MeanDifferenceEffects :=
  let s1 := dropna (to_numeric series1) in
  let s2 := dropna (to_numeric series2) in
  let n1 := len s1 in
  let n2 := len s2 in
  let m1 := Series_mean s1 in
  let m2 := Series_mean s2 in
  let v1 := Series_var 1 s1 in
  let v2 := Series_var 1 s2 in
  (* Hedges' g *)
  pooled_var <-
    truediv_int (sadd (int_mul (n1 - 1) v1) (int_mul (n2 - 1) v2))
      (n1 + n2 - 2) ;;
  let pooled_std := np_sqrt pooled_var in
  let d := (value (ssub m1 m2) / pooled_std)%float in
  q <- int_truediv 3 (4 * (n1 + n2) - 9) ;;
  let j := (1 - q)%float in
  let hedges_g := (d * j)%float in
  (* Glass's delta *)
  let sd1 := np_sqrt v1 in
  let glass_delta := (value (ssub m1 m2) / sd1)%float in
  (* 95% CI for the difference in means *)
  a1 <- truediv_int v1 n1 ;;
  a2 <- truediv_int v2 n2 ;;
  let se_diff := np_sqrt (sadd a1 a2) in
  b1 <- truediv_int v1 n1 ;;
  b2 <- truediv_int v2 n2 ;;
  c1 <- truediv_int (square v1) (n1 ^ 2 * (n1 - 1)) ;;
  c2 <- truediv_int (square v2) (n2 ^ 2 * (n2 - 1)) ;;
  let df_welch := sdiv (square (sadd b1 b2)) (sadd c1 c2) in
  let t_crit := t_ppf stats 0.975%float (value df_welch) in
  let mean_diff := value (ssub m1 m2) in
  let ci_diff :=
    ((mean_diff - t_crit * se_diff)%float,
     (mean_diff + t_crit * se_diff)%float) in
  Ok {| hedges_g := hedges_g; glass_delta := glass_delta;
        mean_diff_ci_95 := ci_diff |}.

End WithLibraries.

End PubStats.

(** ** scripts/202509_update/feedback_form_basic_stats.py *)

Module FeedbackStats.

Import Py.

(** *** [pd.crosstab] *)

(** A column of text as [pd.read_csv] yields it: each entry a string, or
    missing.  This is the model of the version ([v1.0], [v2.0]) and of
    answers given as words and phrases.  A column whose every entry reads
    as a number comes as numbers, and its labels in the order of their
    values, not of their text: that such a column is not one of this
    model bounds every statement on [crosstab] below. *)
Definition column : Set := list (option string).

(** A data frame, as far as the script looks at it: its columns by name. *)
Definition DataFrame : Set := string -> column.

(** A table of counts with its row and column labels. *)
Record table : Set := {
  tbl_index : list string;
  tbl_columns : list string;
  tbl_counts : list (list Z)
}.

(** The records a cross-tabulation counts: those with both entries. *)
Fixpoint valid_pairs (index columns : column) : list (string * string) :=
  match index, columns with
  | Some g :: index', Some a :: columns' =>
      (g, a) :: valid_pairs index' columns'
  | _ :: index', _ :: columns' => valid_pairs index' columns'
  | _, _ => []
  end.

Fixpoint insert_label (s : string) (l : list string) : list string :=
  match l with
  | [] => [s]
  | t :: l' => if String.leb s t then s :: l else t :: insert_label s l'
  end.

(** The labels of an axis: the strings met, each once, in the order of
    Python's strings. *)
Definition labels (l : list string) : list string :=
  fold_right insert_label [] (nodup string_dec l).

Definition pair_eqb (x y : string * string) : bool :=
  String.eqb (fst x) (fst y) && String.eqb (snd x) (snd y).

Definition count_pair (pairs : list (string * string)) (g a : string) : Z :=
  Z.of_nat (List.length (filter (pair_eqb (g, a)) pairs)).

(** [pd.crosstab(index, columns)]: one row per value of [index] and one
    column per value of [columns] among the records with both entries,
    holding the number of such records. *)
Definition crosstab (index columns : column) : table :=
  let pairs := valid_pairs index columns in
  let rows := labels (map fst pairs) in
  let cols := labels (map snd pairs) in
  {| tbl_index := rows;
     tbl_columns := cols;
     tbl_counts := map (fun g => map (count_pair pairs g) cols) rows |}.

Definition Zsum (l : list Z) : Z := fold_right Z.add 0%Z l.

(** [table.sum(axis=1)] and [table.sum(axis=0)] *)
Definition row_sums (t : table) : list Z := map Zsum (tbl_counts t).

Definition col_sums (t : table) : list Z :=
  map (fun j => Zsum (map (fun row => nth j row 0%Z) (tbl_counts t)))
      (seq 0 (List.length (tbl_columns t))).

(** A table is degenerate when a row or a column sums to zero. *)
Definition has_zero_marginal (t : table) : Prop :=
  In 0%Z (row_sums t) \/ In 0%Z (col_sums t).

(** *** The analysis *)

Definition FEEDBACK_FORM_QUESTIONS : list string :=
  [ "How straightforward was this pub?";
    "Could this pub be useful in your own work?";
    "Were you able to find all the information you'd need to assess or reuse this work?";
    "Does the evidence presented support the claims?" ]%string.

Definition VERSION_COLUMN : string := "Publishing version (from Pub)".

Inductive correction : Set := Bonferroni | FdrBh.

(** An entry of [analysis_results] after step 1. *)
Record QuestionResult : Set := {
  question : string;
  counts_table : table;
  p_raw : float
}.

(** An entry of [analysis_results] once step 2 has attached the adjusted
    values. *)
Record CorrectedResult : Set := {
  tested : QuestionResult;
  p_bonferroni : float;
  q_fdr : float
}.

(** The line step 3 prints last for a question. *)
Inductive verdict : Set :=
| SignificantBonferroni
| SignificantFDR
| NotSignificant.

Definition is_significant (v : verdict) : bool :=
  match v with NotSignificant => false | _ => true end.

(** [sequence[i]] *)
Definition getitem {A : Type} (l : list A) (i : nat) : result A :=
  match nth_error l i with
  | Some x => Ok x
  | None => Raise IndexError
  end.

Section WithLibraries.

(** [scipy.stats.chi2_contingency(table)], of which the script keeps the
    p-value. *)
Variable chi2_contingency : table -> result float.

(** [statsmodels.stats.multitest.multipletests(pvals, alpha, method)], of
    which the script keeps the adjusted p-values. *)
Variable multipletests :
  list float -> float -> correction -> result (list float).

(** Step 1 for one table. *)
Definition test_question (question : string) (counts_table : table)
  : result QuestionResult :=
  p_raw <- chi2_contingency counts_table ;;
  Ok {| question := question; counts_table := counts_table;
        p_raw := p_raw |}.

(** Step 1: the loop over the questions. *)
Fixpoint run_tests (df : DataFrame) (questions : list string)
  : result (list QuestionResult) :=
  match questions with
  | [] => Ok []
  | question :: rest =>
      let counts_table := crosstab (df VERSION_COLUMN) (df question) in
      res <- test_question question counts_table ;;
      results <- run_tests df rest ;;
      Ok (res :: results)
  end.

(** Step 2, the loop [for i, res in enumerate(analysis_results)]. *)
Fixpoint attach_from (i : nat) (analysis_results : list QuestionResult)
  (p_bonferroni q_fdr : list float) : result (list CorrectedResult) :=
  match analysis_results with
  | [] => Ok []
  | res :: rest =>
      b <- getitem p_bonferroni i ;;
      f <- getitem q_fdr i ;;
      results <- attach_from (S i) rest p_bonferroni q_fdr ;;
      Ok ({| tested := res; p_bonferroni := b; q_fdr := f |} :: results)
  end.

(** Step 3, the [if]/[elif]/[else] that closes the report of a question. *)
Definition verdict_of (res : CorrectedResult) : verdict :=
  if (p_bonferroni res <? 0.05)%float then SignificantBonferroni
  else if (q_fdr res <? 0.05)%float then SignificantFDR
  else NotSignificant.

(** Steps 2 (attaching) and 3 on the arrays of adjusted values. *)
Definition report (analysis_results : list QuestionResult)
  (p_bonferroni q_fdr : list float)
  : result (list (CorrectedResult * verdict)) :=
  results <- attach_from 0 analysis_results p_bonferroni q_fdr ;;
  Ok (map (fun res => (res, verdict_of res)) results).

Definition analyze_version_differences_v2 (df : DataFrame)
  : result (list (CorrectedResult * verdict)) :=
  analysis_results <- run_tests df FEEDBACK_FORM_QUESTIONS ;;
  let raw_p_values := map p_raw analysis_results in
  p_bonferroni <- multipletests raw_p_values 0.05%float Bonferroni ;;
  q_fdr <- multipletests raw_p_values 0.05%float FdrBh ;;
  report analysis_results p_bonferroni q_fdr.

End WithLibraries.

End FeedbackStats.

(** ** The multiplicity corrector

    Modelled from the spec: the corrector is [multipletests] of
    statsmodels, which is not among the repository's files.  The
    definitions of [Corrector] follow section 4.5 of the specification,
    with exact rationals for the p-values. *)

(** p-values paired with the position they came from, ordered by p-value. *)
Module TaggedOrder <: Orders.TotalLeBool.

Definition t : Type := (Q * nat)%type.

Definition leb (x y : t) : bool := Qle_bool (fst x) (fst y).

Lemma leb_total : forall x y, leb x y = true \/ leb y x = true.
Proof.
  intros [p i] [q j]; unfold leb; simpl.
  rewrite !Qle_bool_iff.
  destruct (Qlt_le_dec q p) as [H | H]; [right; apply Qlt_le_weak, H | left; exact H].
Qed.

End TaggedOrder.

Module TaggedSort := Mergesort.Sort TaggedOrder.

Module Corrector.

(** A p-value. *)
Definition is_p_value (p : Q) : Prop := (0 <= p /\ p <= 1)%Q.

(** The family size [k]. *)
Definition family_size (raw_p : list Q) : Q :=
  inject_Z (Z.of_nat (List.length raw_p)).

(** Modelled from the spec: [multipletests] of statsmodels, the corrector
    that [analyze_version_differences_v2] calls for both methods, is not
    among the repository's files.  What follows is section 4.5 of the
    specification over exact rationals: Bonferroni multiplies by the
    family size and caps at 1. *)
Definition bonferroni (raw_p : list Q) : list Q :=
  map (fun p => Qmin 1 (p * family_size raw_p)) raw_p.

(** The family with each p-value tagged by its position. *)
Definition tagged (raw_p : list Q) : list (Q * nat) :=
  combine raw_p (seq 0 (List.length raw_p)).

(** Modelled from the spec: the sort of the family (inside statsmodels'
    [multipletests], not among the repository's files) as the positions
    of the family in ascending order of p-value. *)
Definition argsort (raw_p : list Q) : list nat :=
  map snd (TaggedSort.sort (tagged raw_p)).

(** The p-values at the given positions. *)
Definition take (raw_p : list Q) (positions : list nat) : list Q :=
  map (fun i => nth i raw_p 0) positions.

(** The ratios [p(j) * k / j] of the sorted p-values, [j] counting from
    the rank of the head of the list. *)
Fixpoint step_up_ratios (k : Q) (j : nat) (sorted : list Q) : list Q :=
  match sorted with
  | [] => []
  | p :: rest => (p * k / inject_Z (Z.of_nat j)) :: step_up_ratios k (S j) rest
  end.

(** The running minimum read from the right end: what makes the ratios
    non-decreasing. *)
Fixpoint cummin_from_right (ratios : list Q) : list Q :=
  match ratios with
  | [] => []
  | r :: rest =>
      match cummin_from_right rest with
      | [] => [r]
      | (m :: _) as tl => Qmin r m :: tl
      end
  end.

Fixpoint set_nth (i : nat) (v : Q) (l : list Q) : list Q :=
  match l, i with
  | [], _ => []
  | _ :: l', O => v :: l'
  | x :: l', S i' => x :: set_nth i' v l'
  end.

(** [out[i] = v] *)
Definition write (out : list Q) (iv : nat * Q) : list Q :=
  set_nth (fst iv) (snd iv) out.

(** [out[positions] = values] on an array of the given size. *)
Definition scatter (positions : list nat) (values : list Q) (size : nat)
  : list Q :=
  fold_left write (combine positions values) (repeat 0 size).

(** The q-values in the order of the sorted family. *)
Definition q_sorted (raw_p : list Q) : list Q :=
  cummin_from_right
    (step_up_ratios (family_size raw_p) 1 (take raw_p (argsort raw_p))).

(** Modelled from the spec: the Benjamini-Hochberg branch of statsmodels'
    [multipletests], not among the repository's files.  Section 4.5 of
    the specification: sort ascending, step up, make monotone, map back
    to the original order. *)
Definition fdr_bh (raw_p : list Q) : list Q :=
  scatter (argsort raw_p) (q_sorted raw_p) (List.length raw_p).

Fixpoint Qmin_list (x : Q) (l : list Q) : Q :=
  match l with
  | [] => x
  | y :: l' => Qmin x (Qmin_list y l')
  end.

(** The ratio [p(j) * k / j] at rank [j] (from 1) of a sorted family. *)
Definition ratio_at (k : Q) (sorted : list Q) (j : nat) : Q :=
  nth (j - 1) sorted 0 * k / inject_Z (Z.of_nat j).

(** The step-up definition in the specification's words: at rank [i]
    (from 1) of the sorted family, the least of [p(j) * k / j] over the
    ranks [j >= i]. *)
Definition step_up_q (sorted : list Q) (i : nat) : Q :=
  let ratio := ratio_at (family_size sorted) sorted in
  Qmin_list (ratio i) (map ratio (seq (S i) (List.length sorted - i))).

(** The decision rule in the specification's words, for any kind of
    number: significant if the Bonferroni value is below alpha, else if
    the FDR value is, else not. *)
Definition decision_rule {A : Type} (ltb : A -> A -> bool) (alpha : A)
  (bonferroni_adjusted_p fdr_q : A) : FeedbackStats.verdict :=
  if ltb bonferroni_adjusted_p alpha then FeedbackStats.SignificantBonferroni
  else if ltb fdr_q alpha then FeedbackStats.SignificantFDR
  else FeedbackStats.NotSignificant.

Definition DEFAULT_ALPHA : float := 0.05%float.

Definition Qltb (x y : Q) : bool := negb (Qle_bool y x).

End Corrector.

(** * The specification's formulas *)

Module Spec.

Import Py Pandas.

Local Open Scope float_scope.

(** The valid observations of a sample: what is left of it after
    coercion to numbers. *)
Definition valid (series : list cell) : list float :=
  dropna (to_numeric series).

(** The result of [summarize] on fewer than two valid values: their
    count, and every statistic undefined. *)
Definition undefined_stats (n : Z) : PubStats.DescriptiveStats :=
  {| PubStats.ds_n := n; PubStats.ds_mean := nan; PubStats.ds_std := nan;
     PubStats.ds_sem := nan; PubStats.ds_ci_95 := (nan, nan);
     PubStats.ds_median := nan; PubStats.ds_q1 := nan;
     PubStats.ds_q3 := nan |}.

(** The sample mean. *)
Definition sample_mean (A : list float) : float :=
  Series_sum A / float_of_int (len A).

(** The Bessel-corrected variance: squared deviations from the mean over
    [n - 1]. *)
Definition bessel_variance (A : list float) : float :=
  let m := sample_mean A in
  Series_sum (map (fun x => pow2 (x - m)) A) / float_of_int (len A - 1).

(** Hedges' g as section 4.3 of the specification writes it, differences
    being (group A - group B). *)
Definition hedges_g_formula (A B : list float) : float :=
  let n1 := len A in
  let n2 := len B in
  let mean1 := sample_mean A in
  let mean2 := sample_mean B in
  let var1 := bessel_variance A in
  let var2 := bessel_variance B in
  let pooled_sd :=
    PrimFloat.sqrt
      ((float_of_int (n1 - 1) * var1 + float_of_int (n2 - 1) * var2)
       / float_of_int (n1 + n2 - 2)) in
  let d := (mean1 - mean2) / pooled_sd in
  let j := 1 - int_quotient 3 (4 * (n1 + n2) - 9) in
  d * j.

End Spec.

(** * Sign symmetry of binary64 numbers *)

Module FloatRel.

(** [SFnegates a b]: [b] is [a] with the sign flipped, or both are zeros
    (IEEE subtraction of equal numbers gives [+0] in both orders). *)
Definition SFnegates (a b : spec_float) : Prop :=
  b = SFopp a \/
  (exists s s', a = S754_zero s /\ b = S754_zero s').

Definition negates (a b : float) : Prop :=
  SFnegates (Prim2SF a) (Prim2SF b).

End FloatRel.

(** * Sample data *)

Module Examples.

Import FeedbackStats.

(** A two-by-two table of answers. *)
Definition answers_table : table :=
  {| tbl_index := ["v1.0"; "v2.0"]%string;
     tbl_columns := ["No"; "Yes"]%string;
     tbl_counts := [[3; 9]; [2; 14]]%Z |}.

(** Three tested questions. *)
Definition three_questions : list QuestionResult :=
  map (fun p => {| question := "Q"; counts_table := answers_table;
                   p_raw := p |})
      [0.01; 0.03; 0.5]%float.

(** A family of four p-values. *)
Definition four_p_values : list Q := [1 # 100; 20 # 100; 4 # 100; 50 # 100].

End Examples.

(** * The callers: reports *)

(** ** calculate_basic_pub_stats.py: [print_summary_stats] and
    [main_v2_analysis] *)

From Stdlib Require Import Ascii.
From Stdlib Require OrderedTypeEx.

Module PubReport.

Import Py Pandas PubStats.

(** A printed line of a summary, the numbers as they are before their
    formatting to one decimal. *)
Inductive line : Set :=
| TitleLine (title : string) (n : Z)
| MeanLine (mean std : float)
| MedianLine (median q1 q3 : float)
| CILine (ci_low ci_high : float).

Definition print_summary_stats (title : string) (stats_dict : DescriptiveStats)
  (show_ci : bool) : list line :=
  let n := ds_n stats_dict in
  TitleLine title n ::
  (if (n >? 1)%Z then
     let mean := ds_mean stats_dict in
     let std := ds_std stats_dict in
     let median := ds_median stats_dict in
     let q1 := ds_q1 stats_dict in
     let q3 := ds_q3 stats_dict in
     let '(ci_low, ci_high) := ds_ci_95 stats_dict in
     MeanLine mean std :: MedianLine median q1 q3 ::
     (if show_ci then [CILine ci_low ci_high] else [])
   else []).

(** A row of [basic_pub_stats.csv], as far as the script reads it. *)
Record pub : Set := {
  ArbitraryID : option string;
  Publishing_version : option string;
  Status : option string;
  Workdays_in_progress : cell;
  Flesch_reading_ease : option string
}.

(** A data frame: its rows, and whether it has the Flesch column. *)
Record frame : Set := {
  rows : list pub;
  has_flesch_col : bool
}.

(** A row of [df_current] after step 1: its two numeric columns. *)
Record clean_pub : Set := {
  pub_of : pub;
  workdays : float;
  flesch : float
}.

Definition PUBLISHED : string := "ðŸ”” Published ðŸ””".

(** [pd.to_numeric(x, errors="coerce")] on one entry. *)
Definition coerce (c : cell) : float :=
  match c with Num x => x | Text => nan | Missing => nan end.

(** [column == text]: false on a missing entry. *)
Definition eq_text (entry : option string) (text : string) : bool :=
  match entry with
  | Some t => String.eqb t text
  | None => false
  end.

(** [.astype(str)]: a missing entry reads "nan". *)
Definition astype_str (entry : option string) : string :=
  match entry with
  | Some t => t
  | None => "nan"
  end.

(** [.str.replace("%", "", regex=False)] *)
Fixpoint remove_percent (s : string) : string :=
  match s with
  | EmptyString => EmptyString
  | String c s' =>
      if Ascii.eqb c "%"%char then remove_percent s'
      else String c (remove_percent s')
  end.

(** [ids.isin(values)] on one entry. *)
Definition isin (id : option string) (values : list (option string)) : bool :=
  existsb (fun v =>
             match id, v with
             | Some a, Some b => String.eqb a b
             | None, None => true
             | _, _ => false
             end) values.

(** [series.between(0, 100)] on one entry. *)
Definition between_0_100 (x : float) : bool :=
  ((0 <=? x) && (x <=? 100))%float.

Definition is_version (v : string) (p : clean_pub) : bool :=
  eq_text (Publishing_version (pub_of p)) v.

Definition is_published (p : clean_pub) : bool :=
  eq_text (Status (pub_of p)) PUBLISHED.

(** What the Flesch section of the report shows. *)
Record FleschReport : Set := {
  stats_fre_v1 : DescriptiveStats;
  stats_fre_v2 : DescriptiveStats;
  comparisons_fre : Comparison;
  effects_fre : MeanDifferenceEffects
}.

(** What [main_v2_analysis] computes and prints, section by section. *)
Record Report : Set := {
  stats_v1 : DescriptiveStats;
  stats_v2 : DescriptiveStats;
  comparisons : Comparison;
  effects : MeanDifferenceEffects;
  stats_init_v2 : DescriptiveStats;
  stats_new_v2 : DescriptiveStats;
  comparisons_v2 : Comparison;
  effects_v2 : MeanDifferenceEffects;
  stats_prog : DescriptiveStats;
  flesch_report : option FleschReport
}.

Section WithLibraries.

Variable stats : Scipy.
Variable pd : Quantiles.

(** [pd.to_numeric] on text: the number it reads, NaN otherwise. *)
Variable read_number : string -> float.

(** Step 1: clean the data. *)
Definition clean_data (df_current : frame) : list clean_pub :=
  let coerced :=
    map (fun p => (p, coerce (Workdays_in_progress p))) (rows df_current) in
  let present := filter (fun pw => negb (is_nan (snd pw))) coerced in
  let positive := filter (fun pw => (0 <? snd pw)%float) present in
  map (fun pw =>
         {| pub_of := fst pw;
            workdays := snd pw;
            flesch :=
              if has_flesch_col df_current then
                read_number
                  (remove_percent (astype_str (Flesch_reading_ease (fst pw))))
              else nan |})
      positive.

(** Step 6, the sample of one version. *)
Definition flesch_sample (published : list clean_pub) : list cell :=
  let fre := dropna (to_numeric (map Num (map flesch published))) in
  map Num (filter between_0_100 fre).

Definition flesch_section (v1_published v2_published : list clean_pub)
  : result FleschReport :=
  let fre_v1 := flesch_sample v1_published in
  let fre_v2 := flesch_sample v2_published in
  let stats_fre_v1 := calculate_descriptive_stats stats pd fre_v1 in
  let stats_fre_v2 := calculate_descriptive_stats stats pd fre_v2 in
  comparisons_fre <- compare_groups stats fre_v1 fre_v2 ;;
  effects_fre <- calculate_mean_difference_effects stats fre_v1 fre_v2 ;;
  Ok {| stats_fre_v1 := stats_fre_v1; stats_fre_v2 := stats_fre_v2;
        comparisons_fre := comparisons_fre; effects_fre := effects_fre |}.

Definition main_v2_analysis (df_current df_original : frame)
  : result Report :=
  (* 1. Clean data *)
  let df_current' := clean_data df_current in
  (* 2. Stats for published pubs *)
  let v1_published :=
    filter (fun p => is_version "v1.0" p && is_published p) df_current' in
  let v2_published :=
    filter (fun p => is_version "v2.0" p && is_published p) df_current' in
  let workdays_v1 := map Num (map workdays v1_published) in
  let workdays_v2 := map Num (map workdays v2_published) in
  let stats_v1 := calculate_descriptive_stats stats pd workdays_v1 in
  let stats_v2 := calculate_descriptive_stats stats pd workdays_v2 in
  (* 3. Comparison: v1.0 vs v2.0 *)
  comparisons <- compare_groups stats workdays_v1 workdays_v2 ;;
  effects <- calculate_mean_difference_effects stats workdays_v1 workdays_v2 ;;
  (* 4. 'New' vs. initial v2.0 pubs *)
  let original_v2_ids :=
    map ArbitraryID
        (filter (fun p => eq_text (Publishing_version p) "v2.0")
                (rows df_original)) in
  let initial_v2_pubs :=
    filter (fun p => isin (ArbitraryID (pub_of p)) original_v2_ids)
           v2_published in
  let new_v2_pubs :=
    filter (fun p => negb (isin (ArbitraryID (pub_of p)) original_v2_ids))
           v2_published in
  let workdays_initial_v2 := map Num (map workdays initial_v2_pubs) in
  let workdays_new_v2 := map Num (map workdays new_v2_pubs) in
  let stats_init_v2 :=
    calculate_descriptive_stats stats pd workdays_initial_v2 in
  let stats_new_v2 := calculate_descriptive_stats stats pd workdays_new_v2 in
  comparisons_v2 <- compare_groups stats workdays_initial_v2 workdays_new_v2 ;;
  effects_v2 <-
    calculate_mean_difference_effects stats workdays_initial_v2
      workdays_new_v2 ;;
  (* 5. In-progress pubs *)
  let in_progress_pubs :=
    filter (fun p => negb (is_published p)) df_current' in
  let workdays_in_progress := map Num (map workdays in_progress_pubs) in
  let stats_prog := calculate_descriptive_stats stats pd workdays_in_progress in
  (* 6. Flesch Reading Ease *)
  flesch_report <-
    (if has_flesch_col df_current then
       section <- flesch_section v1_published v2_published ;;
       Ok (Some section)
     else Ok None) ;;
  Ok {| stats_v1 := stats_v1; stats_v2 := stats_v2;
        comparisons := comparisons; effects := effects;
        stats_init_v2 := stats_init_v2; stats_new_v2 := stats_new_v2;
        comparisons_v2 := comparisons_v2; effects_v2 := effects_v2;
        stats_prog := stats_prog; flesch_report := flesch_report |}.

End WithLibraries.

(** An entry that is text, missing or NaN. *)
Definition invalid (c : cell) : Prop := is_nan (coerce c) = true.

End PubReport.

(** Sample data for the report. *)

Module ReportExamples.

Import Py Pandas PubStats PubReport.

(** A scipy and a pandas whose every answer is NaN. *)
Definition nan_scipy : Scipy :=
  {| stats_sem := fun _ _ => nan;
     t_interval := fun _ _ _ _ => (nan, nan);
     t_ppf := fun _ _ => nan;
     ttest_ind := fun _ _ _ => Ok nan;
     mannwhitneyu := fun _ _ _ _ => Ok nan |}.

(** A scipy whose critical value of Student's t is 2 whatever the
    degrees of freedom. *)
Definition t2_scipy : Scipy :=
  {| stats_sem := fun _ _ => nan;
     t_interval := fun _ _ _ _ => (nan, nan);
     t_ppf := fun _ _ => 2%float;
     ttest_ind := fun _ _ _ => Ok nan;
     mannwhitneyu := fun _ _ _ _ => Ok nan |}.

Definition nan_quantiles : Quantiles :=
  {| Series_median := fun _ => nan; Series_quantile := fun _ _ => nan |}.

Definition row (id version status : string) (w : cell) : pub :=
  {| ArbitraryID := Some id; Publishing_version := Some version;
     Status := Some status; Workdays_in_progress := w;
     Flesch_reading_ease := None |}.

(** Five pubs: one v1.0, three v2.0 of which one without a duration, one
    still in progress. *)
Definition current_pubs : frame :=
  {| rows := [ row "a" "v1.0" PUBLISHED (Num 40);
               row "b" "v2.0" PUBLISHED (Num 12);
               row "c" "v2.0" PUBLISHED (Num 9);
               row "d" "v2.0" PUBLISHED Text;
               row "e" "v2.0" "Service(s) in progress" (Num 3) ];
     has_flesch_col := false |}.

Definition original_pubs : frame :=
  {| rows := [ row "a" "v1.0" PUBLISHED (Num 40);
               row "b" "v2.0" PUBLISHED (Num 12) ];
     has_flesch_col := false |}.

End ReportExamples.

(** ** comment_impacts.py: [group_other_impacts] and [set_impact_order] *)

Module CommentImpacts.

Import Py.

(** A row of [impact_counts]. *)
Record impact_row : Set := {
  Impact : string;
  Publishing_version : string;
  Count : Z;
  Percentage : float
}.

(** The row with another impact. *)
Definition with_impact (r : impact_row) (impact : string) : impact_row :=
  {| Impact := impact; Publishing_version := Publishing_version r;
     Count := Count r; Percentage := Percentage r |}.

(** [x in values] *)
Definition contains (values : list string) (x : string) : bool :=
  existsb (String.eqb x) values.

(** [impact_counts.groupby('Impact')['Count'].sum()] at one impact. *)
Definition total_count (impact_counts : list impact_row) (impact : string)
  : Z :=
  FeedbackStats.Zsum
    (map Count
         (filter (fun r => String.eqb (Impact r) impact) impact_counts)).

Definition group_other_impacts (impact_counts : list impact_row)
  (grouping_method : string) (threshold : option Z)
  (other_impacts : option (list string)) : result (list impact_row) :=
  if String.eqb grouping_method "threshold" then
    match threshold with
    | None => Raise ValueError
    | Some threshold =>
        let common_impacts :=
          filter (fun i => (threshold <=? total_count impact_counts i)%Z)
                 (FeedbackStats.labels (map Impact impact_counts)) in
        Ok (map (fun r =>
                   if contains common_impacts (Impact r) then r
                   else with_impact r "Other")
                impact_counts)
    end
  else if String.eqb grouping_method "manual" then
    match other_impacts with
    | None => Raise ValueError
    | Some other_impacts =>
        Ok (map (fun r =>
                   if contains other_impacts (Impact r)
                   then with_impact r "Other" else r)
                impact_counts)
    end
  else Raise ValueError.

(** [sort_values(by='Percentage', ascending=False)]: the largest
    percentage first, NaN last (rows of equal percentage are left in
    their order). *)
Fixpoint insert_desc (r : impact_row) (l : list impact_row)
  : list impact_row :=
  match l with
  | [] => [r]
  | y :: l' =>
      if ((Percentage y <=? Percentage r) || is_nan (Percentage y))%float
      then r :: l
      else y :: insert_desc r l'
  end.

Definition sort_values_desc (l : list impact_row) : list impact_row :=
  fold_right insert_desc [] l.

(** [l.remove(x)]: without the first [x]; [ValueError] when there is
    none. *)
Fixpoint remove_first (x : string) (l : list string) : list string :=
  match l with
  | [] => []
  | y :: l' => if String.eqb y x then l' else y :: remove_first x l'
  end.

Definition list_remove (l : list string) (x : string) : result (list string) :=
  if contains l x then Ok (remove_first x l) else Raise ValueError.

Fixpoint all_distinct (l : list string) : bool :=
  match l with
  | [] => true
  | x :: l' => negb (contains l' x) && all_distinct l'
  end.

(** [pd.Categorical(values, categories=categories, ordered=True)]: a
    value outside the categories becomes missing; the categories must be
    unique. *)
Definition Categorical (values categories : list string)
  : result (list (option string)) :=
  if all_distinct categories then
    Ok (map (fun v => if contains categories v then Some v else None) values)
  else Raise ValueError.

(** The frame [set_impact_order] returns: the order of the categories,
    and each row with its impact as a category. *)
Record ordered_counts : Set := {
  categories : list string;
  ordered_rows : list (option string * impact_row)
}.

Definition set_impact_order (impact_counts : list impact_row)
  (sort_version other_position : string) : result ordered_counts :=
  sort_by_version <-
    (if String.eqb sort_version "v1" then Ok "v1.0"%string
     else if String.eqb sort_version "v2" then Ok "v2.0"%string
     else Raise ValueError) ;;
  let ordered_percentages :=
    sort_values_desc
      (filter (fun r => String.eqb (Publishing_version r) sort_by_version)
              impact_counts) in
  let impact_order := map Impact ordered_percentages in
  impact_order <-
    (if String.eqb other_position "end" then
       if contains impact_order "Other" then
         removed <- list_remove impact_order "Other" ;;
         Ok (removed ++ ["Other"%string])
       else Ok impact_order
     else if negb (String.eqb other_position "natural") then Raise ValueError
     else Ok impact_order) ;;
  impacts <- Categorical (map Impact impact_counts) impact_order ;;
  Ok {| categories := impact_order;
        ordered_rows := combine impacts impact_counts |}.

(** Counts of three impacts in two versions. *)
Definition sample_counts : list impact_row :=
  [ {| Impact := "No real impact"; Publishing_version := "v1.0";
       Count := 30; Percentage := 60 |};
    {| Impact := "Other"; Publishing_version := "v1.0";
       Count := 15; Percentage := 30 |};
    {| Impact := "Typo/small error"; Publishing_version := "v1.0";
       Count := 5; Percentage := 10 |};
    {| Impact := "No real impact"; Publishing_version := "v2.0";
       Count := 8; Percentage := 80 |};
    {| Impact := "Influenced our thinking"; Publishing_version := "v2.0";
       Count := 2; Percentage := 20 |} ].

(** The terms the properties of the two functions are stated in. *)

(** The impacts frequent enough to keep their name. *)
Definition common (impact_counts : list impact_row) (threshold : Z)
  : list string :=
  filter (fun i => (threshold <=? total_count impact_counts i)%Z)
         (FeedbackStats.labels (map Impact impact_counts)).

Definition regroup (impact_counts : list impact_row) (threshold : Z)
  (r : impact_row) : impact_row :=
  if contains (common impact_counts threshold) (Impact r) then r
  else with_impact r "Other".

(** The order [sort_values] leaves two neighbouring rows in. *)
Definition before (a b : impact_row) : Prop :=
  ((Percentage b <=? Percentage a) || is_nan (Percentage b))%float = true.

(** The name of the version in the data. *)
Definition version_of (sort_version : string) : option string :=
  if String.eqb sort_version "v1" then Some "v1.0"%string
  else if String.eqb sort_version "v2" then Some "v2.0"%string
  else None.

(** The rows of one version. *)
Definition of_version (v : string) (impact_counts : list impact_row)
  : list impact_row :=
  filter (fun r => String.eqb (Publishing_version r) v) impact_counts.

(** Where "Other" goes among the names. *)
Definition place_other (other_position : string) (names : list string)
  : option (list string) :=
  if String.eqb other_position "end" then
    Some (if contains names "Other"
          then remove_first "Other" names ++ ["Other"%string] else names)
  else if String.eqb other_position "natural" then Some names
  else None.

Definition as_category (order : list string) (r : impact_row)
  : option string * impact_row :=
  (if contains order (Impact r) then Some (Impact r) else None, r).

End CommentImpacts.

(** * calculate_basic_pub_stats.py: the frequencies of the service requests *)

Module ServiceTypes.

(** An entry of the column [Pub team request types]: a string, another
    object, or missing. *)
Inductive request_cell : Set :=
| Str (services : string)
| NotStr
| NA.

(** [s.split(';')] *)
Fixpoint split_semicolon (s : string) : list string :=
  match s with
  | EmptyString => [EmptyString]
  | String c s' =>
      if Ascii.eqb c ";" then EmptyString :: split_semicolon s'
      else match split_semicolon s' with
           | [] => [String c EmptyString]
           | piece :: rest => String c piece :: rest
           end
  end.

(** The truth value of a string: it is not empty. *)
Definition truthy (s : string) : bool :=
  match s with
  | EmptyString => false
  | String _ _ => true
  end.

(** A [Counter]: the names it has seen, each with its count. *)
Definition Counter : Set := list (string * Z).

Fixpoint increment (s : string) (counter : Counter) : Counter :=
  match counter with
  | [] => [(s, 1%Z)]
  | (t, c) :: rest =>
      if String.eqb t s then (t, (c + 1)%Z) :: rest
      else (t, c) :: increment s rest
  end.

(** [counter.update(elems)] *)
Definition update (counter : Counter) (elems : list string) : Counter :=
  fold_left (fun counter s => increment s counter) elems counter.

(** The key [(-count, name)] of [sorted], and the order of the tuples. *)
Definition key (x : string * Z) : Z * string := ((- snd x)%Z, fst x).

Definition key_lt (x y : string * Z) : bool :=
  (fst (key x) <? fst (key y))%Z
  || ((fst (key x) =? fst (key y))%Z
      && String.ltb (snd (key x)) (snd (key y))).

(** [sorted(items, key=...)]: items of equal key stay in their order. *)
Fixpoint insert_sorted (x : string * Z) (l : list (string * Z))
  : list (string * Z) :=
  match l with
  | [] => [x]
  | y :: l' => if key_lt y x then y :: insert_sorted x l' else x :: l
  end.

Definition sorted (items : list (string * Z)) : list (string * Z) :=
  fold_right insert_sorted [] items.

Section WithStrip.

(** [str.strip] *)
Variable strip : string -> string.

(** [set(service.strip() for service in services.split(';'))] *)
Definition unique_services (services : string) : list string :=
  nodup string_dec (map strip (split_semicolon services)).

Definition service_counts (column : list request_cell) : Counter :=
  fold_left
    (fun counter services =>
       match services with
       | Str services =>
           if truthy (strip services)
           then update counter (unique_services services)
           else counter
       | NotStr => counter
       | NA => counter
       end)
    column [].

(** The lines [analyze_service_types] prints after the heading: a service
    and its count. *)
Definition analyze_service_types (column : list request_cell)
  : list (string * Z) :=
  sorted (service_counts column).

(** A pub mentions a service when its entry is a string that is not
    blank and one of its pieces, stripped, is the service. *)
Definition mentions (s : string) (c : request_cell) : bool :=
  match c with
  | Str services =>
      truthy (strip services)
      && existsb (String.eqb s) (map strip (split_semicolon services))
  | NotStr => false
  | NA => false
  end.

(** The number of pubs that mention a service. *)
Definition pubs_mentioning (s : string) (column : list request_cell) : Z :=
  Z.of_nat (List.length (filter (mentions s) column)).

Definition step (counter : Counter) (c : request_cell) : Counter :=
  match c with
  | Str services =>
      if truthy (strip services)
      then update counter (unique_services services)
      else counter
  | NotStr => counter
  | NA => counter
  end.

End WithStrip.

(** The count a counter has for a name, 0 when it has none. *)
Fixpoint get (counter : Counter) (s : string) : Z :=
  match counter with
  | [] => 0%Z
  | (t, c) :: rest => if String.eqb t s then c else get rest s
  end.

(** Every name once, every count positive. *)
Inductive well_formed : Counter -> Prop :=
| wf_nil : well_formed []
| wf_cons (s : string) (c : Z) (rest : Counter) :
    (0 < c)%Z -> get rest s = 0%Z -> well_formed rest ->
    well_formed ((s, c) :: rest).

(** A line comes before another: its count is larger, or the counts are
    equal and its name is the smaller. *)
Definition comes_before (x y : string * Z) : Prop :=
  (snd y < snd x)%Z \/
  (snd x = snd y /\ String.compare (fst x) (fst y) = Lt).

(** Not after: what [sorted] ensures of two neighbours. *)
Definition not_after (x y : string * Z) : Prop := key_lt y x = false.

(** A [strip] that removes the blanks at both ends. *)
Fixpoint lstrip (s : string) : string :=
  match s with
  | String " " s' => lstrip s'
  | _ => s
  end.

Fixpoint rstrip (s : string) : string :=
  match s with
  | EmptyString => EmptyString
  | String c s' =>
      match rstrip s' with
      | EmptyString => if Ascii.eqb c " " then EmptyString
                       else String c EmptyString
      | rest => String c rest
      end
  end.

Definition strip_blanks (s : string) : string := rstrip (lstrip s).

End ServiceTypes.

(** * calculate_basic_pub_stats.py: the counts of the pubs *)

Module Publications.

Import PubReport.

(** The columns of the frame the counts read. *)
Record pub_row : Set := {
  Status : option string;
  Publishing_version : option string
}.

Definition completed_statuses : list string :=
  [ "🔔 Published 🔔"; "Complete — internal" ]%string.

(** [df['Status'].isin(completed_statuses)] *)
Definition is_completed (r : pub_row) : bool :=
  match Status r with
  | Some s => existsb (String.eqb s) completed_statuses
  | None => false
  end.

(** [df['Status'] == '🔔 Published 🔔'] *)
Definition is_published (r : pub_row) : bool :=
  eq_text (Status r) "🔔 Published 🔔".

(** The five counts [analyze_publications] prints first. *)
Record counts : Set := {
  v1_completed : nat;
  v1_published : nat;
  v2_completed : nat;
  v2_published : nat;
  v2_in_progress : nat
}.

Definition publication_counts (df : list pub_row) : counts :=
  let v1_df := filter (fun r => eq_text (Publishing_version r) "v1.0") df in
  let v2_df := filter (fun r => eq_text (Publishing_version r) "v2.0") df in
  {| v1_completed := List.length (filter is_completed v1_df);
     v1_published := List.length (filter is_published v1_df);
     v2_completed := List.length (filter is_completed v2_df);
     v2_published := List.length (filter is_published v2_df);
     v2_in_progress :=
       List.length (filter (fun r => negb (is_completed r)) v2_df) |}.

End Publications.

(** * feedback_form_basic_stats.py: the terms of its properties *)

Module FeedbackTerms.

Import Py FeedbackStats.

(** The table tested for a question. *)
Definition table_of (df : DataFrame) (question : string) : table :=
  crosstab (df VERSION_COLUMN) (df question).

(** What step 1 keeps for a question whose test gave [p]. *)
Definition kept (df : DataFrame) (q : string) (p : float) : QuestionResult :=
  {| question := q; counts_table := table_of df q; p_raw := p |}.

End FeedbackTerms.

(** Sample data for the analysis of the feedback form. *)

Module FeedbackExamples.

Import Py FeedbackStats.

(** Eight responses, four per version; two answers are missing. *)
Definition responses : DataFrame :=
  fun name =>
    if String.eqb name VERSION_COLUMN then
      [Some "v1.0"; Some "v1.0"; Some "v1.0"; Some "v1.0";
       Some "v2.0"; Some "v2.0"; Some "v2.0"; Some "v2.0"]%string
    else if String.eqb name "How straightforward was this pub?" then
      [Some "Very"; Some "Very"; Some "Somewhat"; Some "Not at all";
       Some "Very"; Some "Somewhat"; Some "Somewhat"; None]%string
    else if String.eqb name "Could this pub be useful in your own work?" then
      [Some "No"; Some "No"; Some "Yes"; Some "No";
       Some "No"; Some "No"; Some "Yes"; Some "Yes"]%string
    else if String.eqb name
              "Were you able to find all the information you'd need to assess or reuse this work?"
    then
      [Some "No"; Some "Yes"; Some "Yes"; Some "No";
       None; Some "No"; Some "No"; Some "No"]%string
    else if String.eqb name "Does the evidence presented support the claims?"
    then
      [Some "Yes"; Some "Yes"; Some "Yes"; Some "Yes";
       Some "Yes"; Some "Yes"; Some "Yes"; Some "No"]%string
    else [].

(** A stand-in for [chi2_contingency]: like it, it raises [ValueError] on
    a table without counts; its value is a tenth of the share of the
    records in the first cell, so that tables that differ can get values
    that differ. *)
Definition share_of_first_cell (t : table) : result float :=
  match tbl_counts t with
  | (c :: _) :: _ =>
      Ok (float_of_int c
          / float_of_int (Zsum (map Zsum (tbl_counts t))) / 10)%float
  | _ => Raise ValueError
  end.

(** A stand-in for [multipletests]: every p-value times the size of the
    family for the first method, times half of it for the second, with
    1 as the largest value. *)
Definition scaled (pvals : list float) (alpha : float) (method : correction)
  : result (list float) :=
  let k := float_of_int (Z.of_nat (List.length pvals)) in
  let factor :=
    match method with
    | Bonferroni => k
    | FdrBh => (k / 2)%float
    end in
  Ok (map (fun p => if (1 <? p * factor)%float then 1%float
                    else (p * factor)%float) pvals).

End FeedbackExamples.

(** * pub_readability_stats.py: the text of a page *)

Module Readability.

Import Py.

(** A Python [str]: its code points. *)
Definition str : Set := list Z.

(** [codecs.BOM_UTF8], the three bytes EF BB BF, and what they decode
    to, the one character U+FEFF. *)
Definition BOM_UTF8 : list Z := [239; 187; 191]%Z.

Definition BOM_UTF8_decoded : str := [65279]%Z.

Fixpoint startswith (s prefix : str) : bool :=
  match prefix, s with
  | [], _ => true
  | _ :: _, [] => false
  | p :: prefix', c :: s' => (c =? p)%Z && startswith s' prefix'
  end.

(** [sep.join(parts)] *)
Fixpoint join (sep : str) (parts : list str) : str :=
  match parts with
  | [] => []
  | [part] => part
  | part :: rest => part ++ sep ++ join sep rest
  end.

(** A paragraph of justext. *)
Record paragraph : Set := {
  is_boilerplate : bool;
  text : str
}.

(** The text of an ASCII string. *)
Fixpoint of_string (s : string) : str :=
  match s with
  | EmptyString => []
  | String c s' => Z.of_N (N_of_ascii c) :: of_string s'
  end.

Section WithLibraries.

(** The steps on the parsed page (BeautifulSoup's parser, the removal of
    comments, tables, figures, blockquotes and headers, and [str(soup)]),
    and [justext.justext] with the English stoplist. *)
Variable prune : str -> result str.
Variable justext : str -> result (list paragraph).

Definition clean_text (html_content : str) : str :=
  let attempt :=
    let html_content :=
      if startswith html_content BOM_UTF8_decoded
      then skipn (List.length BOM_UTF8) html_content
      else html_content in
    modified_html <- prune html_content ;;
    paragraphs <- justext modified_html ;;
    let content :=
      map text (filter (fun p => negb (is_boilerplate p)) paragraphs) in
    Ok (join (of_string (String "010" (String "010" EmptyString))) content)
  in
  match attempt with
  | Ok text => text
  | Raise _ => []
  end.

End WithLibraries.

End Readability.

(** * Facts about binary64 arithmetic *)

Module FloatFacts.

Import FloatRel.

Local Open Scope float_scope.

Lemma Prim2SF_nan : Prim2SF nan = S754_nan.
Proof. reflexivity. Qed.

Lemma add_nan_l (x : float) : nan + x = nan.
Proof. apply Prim2SF_inj; rewrite FloatAxioms.add_spec; reflexivity. Qed.

Lemma add_nan_r (x : float) : x + nan = nan.
Proof.
  apply Prim2SF_inj; rewrite FloatAxioms.add_spec, Prim2SF_nan.
  destruct (Prim2SF x); reflexivity.
Qed.

Lemma sub_nan_l (x : float) : nan - x = nan.
Proof. apply Prim2SF_inj; rewrite FloatAxioms.sub_spec; reflexivity. Qed.

Lemma sub_nan_r (x : float) : x - nan = nan.
Proof.
  apply Prim2SF_inj; rewrite FloatAxioms.sub_spec, Prim2SF_nan.
  destruct (Prim2SF x); reflexivity.
Qed.

Lemma mul_nan_l (x : float) : nan * x = nan.
Proof. apply Prim2SF_inj; rewrite FloatAxioms.mul_spec; reflexivity. Qed.

Lemma mul_nan_r (x : float) : x * nan = nan.
Proof.
  apply Prim2SF_inj; rewrite FloatAxioms.mul_spec, Prim2SF_nan.
  destruct (Prim2SF x); reflexivity.
Qed.

Lemma div_nan_l (x : float) : nan / x = nan.
Proof. apply Prim2SF_inj; rewrite FloatAxioms.div_spec; reflexivity. Qed.

Lemma div_nan_r (x : float) : x / nan = nan.
Proof.
  apply Prim2SF_inj; rewrite FloatAxioms.div_spec, Prim2SF_nan.
  destruct (Prim2SF x); reflexivity.
Qed.

Lemma sqrt_nan : PrimFloat.sqrt nan = nan.
Proof. reflexivity. Qed.

Lemma opp_nan : - nan = nan.
Proof. reflexivity. Qed.

(** NaN is absorbing: rewriting with these facts pushes it outwards. *)
Create Rewrite HintDb nan_absorbs.
#[export] Hint Rewrite add_nan_l add_nan_r sub_nan_l sub_nan_r mul_nan_l
  mul_nan_r div_nan_l div_nan_r sqrt_nan opp_nan : nan_absorbs.

(** Addition commutes, bit for bit. *)
Lemma SFadd_comm (x y : spec_float) : SF64add x y = SF64add y x.
Proof.
  destruct x as [sx | sx | | sx mx ex], y as [sy | sy | | sy my ey];
    try reflexivity;
    try (destruct sx, sy; reflexivity).
  unfold SF64add, SFadd. rewrite (Z.min_comm ey ex).
  f_equal. apply Z.add_comm.
Qed.

Lemma add_comm (x y : float) : x + y = y + x.
Proof. apply Prim2SF_inj; rewrite !FloatAxioms.add_spec; apply SFadd_comm. Qed.


(** *** Sign symmetry *)

Lemma binary_round_aux_opp prec emax s m e l :
  binary_round_aux prec emax (negb s) m e l
  = SFopp (binary_round_aux prec emax s m e l).
Proof.
  unfold binary_round_aux.
  destruct (shr_fexp prec emax m e l) as [mrs' e'].
  destruct (shr_fexp prec emax _ e' loc_Exact) as [mrs'' e''].
  destruct (shr_m mrs''); try reflexivity.
  destruct (Z.leb e'' (Z.sub emax prec)); reflexivity.
Qed.

Lemma binary_round_opp prec emax s m e :
  binary_round prec emax (negb s) m e
  = SFopp (binary_round prec emax s m e).
Proof.
  unfold binary_round.
  destruct (shl_align m e _) as [mz ez].
  apply binary_round_aux_opp.
Qed.

Lemma binary_normalize_opp prec emax m e :
  SFnegates (binary_normalize prec emax m e false)
            (binary_normalize prec emax (- m) e false).
Proof.
  destruct m as [ | p | p]; simpl.
  - right; exists false, false; split; reflexivity.
  - left. apply (binary_round_opp prec emax false).
  - left. rewrite <- (binary_round_opp prec emax true). reflexivity.
Qed.

Lemma SFsub_swap (x y : spec_float) :
  SFnegates (SF64sub x y) (SF64sub y x).
Proof.
  destruct x as [sx | sx | | sx mx ex], y as [sy | sy | | sy my ey];
    try (left; reflexivity);
    try (destruct sx, sy; (left; reflexivity)
                          || (right; eexists; eexists; split; reflexivity)).
  unfold SF64sub, SFsub. rewrite (Z.min_comm ey ex).
  match goal with
  | |- SFnegates (binary_normalize _ _ (?a - ?b)%Z _ _) _ =>
      replace (b - a)%Z with (- (a - b))%Z by lia
  end.
  apply binary_normalize_opp.
Qed.

Lemma sub_swap (x y : float) : negates (x - y) (y - x).
Proof.
  unfold negates. rewrite !FloatAxioms.sub_spec. apply SFsub_swap.
Qed.

Lemma xorb_negb_l (a b : bool) : xorb (negb a) b = negb (xorb a b).
Proof. destruct a, b; reflexivity. Qed.

Lemma SFdiv_opp_l (a p : spec_float) :
  SF64div (SFopp a) p = SFopp (SF64div a p).
Proof.
  destruct a as [sa | sa | | sa ma ea], p as [sp | sp | | sp mp ep];
    try reflexivity;
    try (simpl; rewrite xorb_negb_l; reflexivity).
  unfold SF64div, SFdiv, SFopp.
  destruct (SFdiv_core_binary _ _ _ _ _ _) as [[mz ez] lz].
  rewrite xorb_negb_l. apply binary_round_aux_opp.
Qed.

Lemma SFdiv_negates (a b p : spec_float) :
  SFnegates a b -> SFnegates (SF64div a p) (SF64div b p).
Proof.
  intros [-> | (s & s' & -> & ->)].
  - left. apply SFdiv_opp_l.
  - destruct p as [sp | sp | | sp mp ep];
      (left; reflexivity) || (right; eexists; eexists; split; reflexivity).
Qed.

Lemma div_negates (a b p : float) : negates a b -> negates (a / p) (b / p).
Proof.
  unfold negates. rewrite !FloatAxioms.div_spec. apply SFdiv_negates.
Qed.

Lemma SFmul_opp_l (a j : spec_float) :
  SF64mul (SFopp a) j = SFopp (SF64mul a j).
Proof.
  destruct a as [sa | sa | | sa ma ea], j as [sj | sj | | sj mj ej];
    try reflexivity;
    try (simpl; rewrite xorb_negb_l; reflexivity).
  unfold SF64mul, SFmul, SFopp.
  rewrite xorb_negb_l. apply binary_round_aux_opp.
Qed.

Lemma SFmul_negates (a b j : spec_float) :
  SFnegates a b -> SFnegates (SF64mul a j) (SF64mul b j).
Proof.
  intros [-> | (s & s' & -> & ->)].
  - left. apply SFmul_opp_l.
  - destruct j as [sj | sj | | sj mj ej];
      (left; reflexivity) || (right; eexists; eexists; split; reflexivity).
Qed.

Lemma mul_negates (a b j : float) : negates a b -> negates (a * j) (b * j).
Proof.
  unfold negates. rewrite !FloatAxioms.mul_spec. apply SFmul_negates.
Qed.

(** A number and its negation have the same square. *)
Lemma SFmul_self_negates (a b : spec_float) :
  SFnegates a b -> SF64mul a a = SF64mul b b.
Proof.
  intros [-> | (s & s' & -> & ->)].
  - destruct a as [sa | sa | | sa ma ea]; try reflexivity;
      try (destruct sa; reflexivity).
  - destruct s, s'; reflexivity.
Qed.

Lemma mul_self_negates (a b : float) : negates a b -> a * a = b * b.
Proof.
  intro H. apply Prim2SF_inj. rewrite !FloatAxioms.mul_spec.
  apply SFmul_self_negates, H.
Qed.

Lemma SFcompare_refl (x : spec_float) :
  x <> S754_nan -> SFcompare x x = Some Eq.
Proof.
  destruct x as [s | s | | s m e]; intro H; try reflexivity.
  - destruct s; reflexivity.
  - congruence.
  - simpl. rewrite Z.compare_refl.
    assert (E : Pos.compare_cont Eq m m = Eq) by apply Pos.compare_refl.
    rewrite E. destruct s; reflexivity.
Qed.

Lemma SFopp_involutive (x : spec_float) : SFopp (SFopp x) = x.
Proof. destruct x as [s | s | | s m e]; simpl; rewrite ?negb_involutive; reflexivity. Qed.

Lemma SFabs_opp (x : spec_float) : SFabs (SFopp x) = SFabs x.
Proof. destruct x; reflexivity. Qed.

Lemma Prim2SF_nan_inv (x : float) : Prim2SF x = S754_nan -> x = nan.
Proof. intro H. apply Prim2SF_inj. rewrite H. reflexivity. Qed.

(** What [negates] means to Python's [==]: both NaN, or equal up to sign
    with equal magnitudes. *)
Lemma negates_eqb (a b : float) :
  negates a b ->
  (a = nan /\ b = nan) \/
  ((a =? - b) = true /\ (abs a =? abs b) = true).
Proof.
  unfold negates. intro H.
  rewrite !FloatAxioms.eqb_spec, !FloatAxioms.abs_spec, FloatAxioms.opp_spec.
  destruct H as [H | (s & s' & Ha & Hb)].
  - rewrite H, SFopp_involutive, SFabs_opp.
    destruct (Prim2SF a) as [sa | sa | | sa ma ea] eqn:Ea.
    + right. split; reflexivity.
    + right. unfold SFeqb. rewrite !SFcompare_refl by (simpl; congruence).
      split; reflexivity.
    + left. split; apply Prim2SF_nan_inv; [exact Ea | rewrite H; reflexivity].
    + right. unfold SFeqb. rewrite !SFcompare_refl by (simpl; congruence).
      split; reflexivity.
  - rewrite Ha, Hb. right. split; reflexivity.
Qed.

End FloatFacts.

(** * calculate_basic_pub_stats.py: the properties *)

Module PubStatsFacts.

Import Py Pandas PubStats Spec FloatRel FloatFacts.

Local Open Scope float_scope.

Lemma len_nonneg {A : Type} (l : list A) : (0 <= len l)%Z.
Proof. unfold len; lia. Qed.

Lemma len_nil_iff {A : Type} (l : list A) : len l = 0%Z <-> l = [].
Proof.
  unfold len; destruct l; simpl; split; intro H;
    reflexivity || discriminate || lia.
Qed.

(** ** Descriptive statistics *)

(** C3: with fewer than two valid values after coercion,
    [calculate_descriptive_stats] returns their count as [n] and NaN in
    every other field (mean, std, sem, both CI bounds, median, q1, q3);
    the result is a value, reached before any statistic is asked of a
    library. *)
Theorem descriptive_stats_small_sample
  (stats : Scipy) (pd : Quantiles) (data_series : list cell) :
  (len (valid data_series) < 2)%Z ->
  calculate_descriptive_stats stats pd data_series
  = undefined_stats (len (valid data_series)).
Proof.
  intro Hn. unfold calculate_descriptive_stats, valid in *.
  apply Z.ltb_lt in Hn. rewrite Hn. reflexivity.
Qed.

Lemma descriptive_stats_small_sample_witness :
  (len (valid [Text; Num 7; Missing; Num nan]) < 2)%Z /\
  forall stats pd,
    calculate_descriptive_stats stats pd [Text; Num 7; Missing; Num nan]
    = undefined_stats 1.
Proof.
  split.
  - reflexivity.
  - intros stats pd.
    apply (descriptive_stats_small_sample stats pd
             [Text; Num 7; Missing; Num nan]).
    reflexivity.
Defined.

(** ** The two tests *)

(** [compare_groups] hands the valid observations of each group to the
    two tests, Mann-Whitney being asked for the two-sided alternative by
    the asymptotic method; it returns when both tests do, with the
    p-values they gave, and adds no guard of its own. *)
Lemma compare_groups_returns (stats : Scipy) (series1 series2 : list cell)
  (t m : float) :
  ttest_ind stats (valid series1) (valid series2) false = Ok t ->
  mannwhitneyu stats (valid series1) (valid series2) TwoSided Asymptotic
  = Ok m ->
  compare_groups stats series1 series2
  = Ok {| welch_t_p_value := t; mwu_p_value := m |}.
Proof.
  intros Ht Hm. unfold compare_groups, valid in *.
  rewrite Ht; simpl. rewrite Hm; reflexivity.
Qed.

Lemma compare_groups_raises (stats : Scipy) (series1 series2 : list cell) :
  raises (compare_groups stats series1 series2) <->
  raises (ttest_ind stats (valid series1) (valid series2) false) \/
  raises (mannwhitneyu stats (valid series1) (valid series2)
            TwoSided Asymptotic).
Proof.
  unfold compare_groups, valid, raises.
  destruct (ttest_ind stats _ _ false) as [t | e]; simpl.
  - destruct (mannwhitneyu stats _ _ TwoSided Asymptotic) as [m | e]; simpl.
    + split; [intros (e & H); discriminate | ].
      intros [(e & H) | (e & H)]; discriminate.
    + split; [intros _; right; exists e; reflexivity | ].
      intros _. exists e; reflexivity.
  - split; [intros _; left; exists e; reflexivity | ].
    intros _. exists e; reflexivity.
Qed.

(** ** Summation *)

(** The depth given to the recursion of [pairwise_sum] is never used
    up: any depth of at least the length of the array gives the same
    sum. *)
Lemma pairwise_sum_depth (depth : nat) :
  forall (a : list float) (depth' : nat),
    (List.length a <= depth)%nat -> (List.length a <= depth')%nat ->
    pairwise_sum_from depth a = pairwise_sum_from depth' a.
Proof.
  induction depth as [ | depth IH]; intros a depth' H H'.
  - destruct a; [ | simpl in H; lia]. destruct depth'; reflexivity.
  - destruct depth' as [ | depth'].
    + destruct a; [reflexivity | simpl in H'; lia].
    + cbn [pairwise_sum_from].
      destruct (Nat.ltb_spec (List.length a) 8) as [ | H8]; [reflexivity | ].
      destruct (Nat.leb_spec (List.length a) PW_BLOCKSIZE) as [ | Hb];
        [reflexivity | ].
      unfold PW_BLOCKSIZE in Hb.
      set (n := List.length a) in *.
      assert (Hn2 : (0 < n / 2 - (n / 2) mod 8 < n)%nat).
      { pose proof (Nat.mod_upper_bound (n / 2) 8).
        pose proof (Nat.div_mod_eq n 2).
        pose proof (Nat.mod_upper_bound n 2). lia. }
      f_equal; apply IH;
        rewrite ?length_firstn, ?length_skipn; fold n; lia.
Qed.

(** ** Effect sizes *)

(** The division between Python integers of the function never divides
    by zero: [4 * (n1 + n2) - 9] is odd. *)
Lemma bias_correction_defined (n : Z) :
  int_truediv 3 (4 * n - 9) = Ok (int_quotient 3 (4 * n - 9)).
Proof.
  unfold int_truediv.
  destruct (Z.eqb_spec (4 * n - 9) 0) as [E | _]; [lia | reflexivity].
Qed.

(** The reductions of a series with at least one value are [float64]. *)
Lemma Series_mean_float64 (s : list float) :
  (1 <= len s)%Z -> exists m, Series_mean s = float64 m.
Proof.
  intro H. unfold Series_mean.
  destruct (Z.eqb_spec (len s) 0); [lia | ]. eexists. reflexivity.
Qed.

Lemma Series_var_float64 (s : list float) :
  (1 <= len s)%Z -> exists v, Series_var 1 s = float64 v.
Proof.
  intro H. unfold Series_var.
  destruct (Z.eqb_spec (len s) 0); [lia | ].
  destruct (len s <=? 1)%Z; eexists; reflexivity.
Qed.

(** Those of an empty series are the built-in nan. *)
Lemma Series_mean_empty (s : list float) :
  len s = 0%Z -> Series_mean s = py_nan.
Proof. intro H. unfold Series_mean. rewrite H. reflexivity. Qed.

Lemma Series_var_empty (s : list float) :
  len s = 0%Z -> Series_var 1 s = py_nan.
Proof. intro H. unfold Series_var. rewrite H. reflexivity. Qed.

Lemma Series_mean_sample_mean (A : list float) :
  (1 <= len A)%Z -> value (Series_mean A) = sample_mean A.
Proof.
  intro H. unfold Series_mean, sample_mean.
  destruct (Z.eqb_spec (len A) 0); [lia | reflexivity].
Qed.

Lemma Series_var_bessel (A : list float) :
  (2 <= len A)%Z -> value (Series_var 1 A) = bessel_variance A.
Proof.
  intro H. unfold Series_var, bessel_variance, sample_mean.
  destruct (Z.eqb_spec (len A) 0); [lia | ].
  destruct (Z.leb_spec (len A) 1) as [E | _]; [lia | ].
  cbn [value].
  f_equal. f_equal. apply map_ext. intro x. unfold pow2.
  apply mul_self_negates, sub_swap.
Qed.

Lemma Series_var_one (s : list float) :
  len s = 1%Z -> Series_var 1 s = float64 nan.
Proof.
  intro H. unfold Series_var.
  destruct (Z.eqb_spec (len s) 0); [lia | ].
  destruct (Z.leb_spec (len s) 1); [ | lia].
  f_equal. apply div_nan_r.
Qed.

(** What [calculate_mean_difference_effects] returns when each group has
    at least one valid value: no division raises, and the fields are the
    float64 expressions of the source on the means and variances. *)
Lemma effects_defined (stats : Scipy) (series1 series2 : list cell) :
  let s1 := valid series1 in
  let s2 := valid series2 in
  let n1 := len s1 in
  let n2 := len s2 in
  let m1 := value (Series_mean s1) in
  let m2 := value (Series_mean s2) in
  let v1 := value (Series_var 1 s1) in
  let v2 := value (Series_var 1 s2) in
  let pooled_std :=
    PrimFloat.sqrt
      ((float_of_int (n1 - 1) * v1 + float_of_int (n2 - 1) * v2)
       / float_of_int (n1 + n2 - 2)) in
  let j := 1 - int_quotient 3 (4 * (n1 + n2) - 9) in
  let se_diff :=
    PrimFloat.sqrt (v1 / float_of_int n1 + v2 / float_of_int n2) in
  let df_welch :=
    pow2 (v1 / float_of_int n1 + v2 / float_of_int n2)
    / (pow2 v1 / float_of_int (n1 ^ 2 * (n1 - 1))
       + pow2 v2 / float_of_int (n2 ^ 2 * (n2 - 1))) in
  let t_crit := t_ppf stats 0.975 df_welch in
  (1 <= n1)%Z -> (1 <= n2)%Z ->
  calculate_mean_difference_effects stats series1 series2
  = Ok {| hedges_g := (m1 - m2) / pooled_std * j;
          glass_delta := (m1 - m2) / PrimFloat.sqrt v1;
          mean_diff_ci_95 :=
            (m1 - m2 - t_crit * se_diff, m1 - m2 + t_crit * se_diff) |}.
Proof.
  cbv zeta. intros H1 H2.
  unfold calculate_mean_difference_effects, valid in *.
  destruct (Series_mean_float64 _ H1) as [m1 ->].
  destruct (Series_mean_float64 _ H2) as [m2 ->].
  destruct (Series_var_float64 _ H1) as [v1 ->].
  destruct (Series_var_float64 _ H2) as [v2 ->].
  rewrite bias_correction_defined. reflexivity.
Qed.

(** It raises [ZeroDivisionError] when a group has no valid value: the
    variance of that group is the built-in nan, and its division by the
    count 0 raises. *)
Lemma effects_empty_group (stats : Scipy) (series1 series2 : list cell) :
  (len (valid series1) = 0 \/ len (valid series2) = 0)%Z ->
  calculate_mean_difference_effects stats series1 series2
  = Raise ZeroDivisionError.
Proof.
  intro H. unfold calculate_mean_difference_effects, valid in *.
  rewrite bias_correction_defined.
  destruct (Z.eq_dec (len (dropna (to_numeric series1))) 0) as [E1 | N1].
  - rewrite (Series_var_empty _ E1), (Series_mean_empty _ E1), E1.
    destruct (Z.eq_dec (len (dropna (to_numeric series2))) 0) as [E2 | N2].
    + rewrite (Series_var_empty _ E2), E2. reflexivity.
    + assert (H2 : (1 <= len (dropna (to_numeric series2)))%Z)
        by (pose proof (len_nonneg (dropna (to_numeric series2))); lia).
      destruct (Series_var_float64 _ H2) as [v2 ->]. reflexivity.
  - destruct H as [H | E2]; [contradiction | ].
    assert (H1 : (1 <= len (dropna (to_numeric series1)))%Z)
      by (pose proof (len_nonneg (dropna (to_numeric series1))); lia).
    destruct (Series_var_float64 _ H1) as [v1 ->].
    rewrite (Series_var_empty _ E2), E2. reflexivity.
Qed.

(** C7: for samples with at least two valid values each, the Hedges' g
    that [calculate_mean_difference_effects] returns is the formula of
    the specification: pooled standard deviation from the
    Bessel-corrected variances, d = (mean1 - mean2) / pooled_sd,
    j = 1 - 3 / (4 (n1 + n2) - 9), g = d * j, with group A first. *)
Theorem hedges_g_is_formula
  (stats : Scipy) (series1 series2 : list cell) :
  (2 <= len (valid series1))%Z ->
  (2 <= len (valid series2))%Z ->
  field hedges_g (calculate_mean_difference_effects stats series1 series2)
  = Ok (hedges_g_formula (valid series1) (valid series2)).
Proof.
  intros H1 H2.
  rewrite effects_defined by lia. cbn [field bind hedges_g].
  unfold hedges_g_formula.
  rewrite !Series_mean_sample_mean by lia.
  rewrite !Series_var_bessel by lia.
  reflexivity.
Qed.

(** Eleven durations against nine, more than the eight numbers from
    which the sums are taken in lanes. *)
Lemma hedges_g_is_formula_witness :
  (2 <= len (valid [Num 12.5; Num 7.1; Num 30.2; Num 18; Num 9.9; Num 22.4;
                    Text; Num 15.3; Num 11.7; Num 27.6; Num 8.4;
                    Num 19.1]))%Z /\
  (2 <= len (valid [Num 6.2; Num 14.8; Num 9.3; Missing; Num 21.7; Num 5.5;
                    Num 12.1; Num 16.9; Num 7.7; Num 10.4]))%Z /\
  forall stats,
    field hedges_g
      (calculate_mean_difference_effects stats
         [Num 12.5; Num 7.1; Num 30.2; Num 18; Num 9.9; Num 22.4;
          Text; Num 15.3; Num 11.7; Num 27.6; Num 8.4; Num 19.1]
         [Num 6.2; Num 14.8; Num 9.3; Missing; Num 21.7; Num 5.5;
          Num 12.1; Num 16.9; Num 7.7; Num 10.4])
    = Ok 0.70050763650727033.
Proof.
  split; [ | split].
  - vm_compute; discriminate.
  - vm_compute; discriminate.
  - intro stats.
    rewrite (hedges_g_is_formula stats
               [Num 12.5; Num 7.1; Num 30.2; Num 18; Num 9.9; Num 22.4;
                Text; Num 15.3; Num 11.7; Num 27.6; Num 8.4; Num 19.1]
               [Num 6.2; Num 14.8; Num 9.3; Missing; Num 21.7; Num 5.5;
                Num 12.1; Num 16.9; Num 7.7; Num 10.4]).
    + vm_compute; reflexivity.
    + vm_compute; discriminate.
    + vm_compute; discriminate.
Defined.

(** The value of Hedges' g in terms of the two means, the pooled
    standard deviation and the correction factor. *)
Lemma hedges_g_unfold (stats : Scipy) (series1 series2 : list cell) :
  let s1 := valid series1 in
  let s2 := valid series2 in
  let pooled_std :=
    PrimFloat.sqrt
      ((float_of_int (len s1 - 1) * value (Series_var 1 s1)
        + float_of_int (len s2 - 1) * value (Series_var 1 s2))
       / float_of_int (len s1 + len s2 - 2)) in
  let j := 1 - int_quotient 3 (4 * (len s1 + len s2) - 9) in
  (1 <= len s1)%Z -> (1 <= len s2)%Z ->
  field hedges_g (calculate_mean_difference_effects stats series1 series2)
  = Ok ((value (Series_mean s1) - value (Series_mean s2)) / pooled_std * j).
Proof.
  cbv zeta. intros H1 H2. rewrite effects_defined by assumption.
  reflexivity.
Qed.

(** Swapping the groups negates Hedges' g, in the sense of [negates]. *)
Lemma hedges_g_swap_negates (stats : Scipy) (series1 series2 : list cell) :
  (1 <= len (valid series1))%Z -> (1 <= len (valid series2))%Z ->
  exists g12 g21,
    field hedges_g (calculate_mean_difference_effects stats series1 series2)
    = Ok g12 /\
    field hedges_g (calculate_mean_difference_effects stats series2 series1)
    = Ok g21 /\
    negates g12 g21.
Proof.
  intros H1 H2.
  do 2 eexists. split; [ | split].
  - apply hedges_g_unfold; assumption.
  - apply hedges_g_unfold; assumption.
  - cbv zeta.
    rewrite (add_comm (float_of_int (len (valid series2) - 1) * _)).
    rewrite (Z.add_comm (len (valid series2)) (len (valid series1))).
    apply mul_negates, div_negates, sub_swap.
Qed.

(** C8, as the code has it: for samples with at least two valid values
    each, swapping the two groups either leaves Hedges' g undefined (NaN)
    in both orders, or flips its sign and keeps its magnitude:
    g(A,B) == -g(B,A) and |g(A,B)| == |g(B,A)|. *)
Theorem hedges_g_swap
  (stats : Scipy) (series1 series2 : list cell) :
  (2 <= len (valid series1))%Z ->
  (2 <= len (valid series2))%Z ->
  exists g12 g21,
    field hedges_g (calculate_mean_difference_effects stats series1 series2)
    = Ok g12 /\
    field hedges_g (calculate_mean_difference_effects stats series2 series1)
    = Ok g21 /\
    ((g12 = nan /\ g21 = nan) \/
     ((g12 =? - g21) = true /\ (abs g12 =? abs g21) = true)).
Proof.
  intros H1 H2.
  destruct (hedges_g_swap_negates stats series1 series2)
    as (g12 & g21 & E12 & E21 & N); [lia | lia | ].
  exists g12, g21. split; [exact E12 | split; [exact E21 | ]].
  apply negates_eqb, N.
Qed.

Lemma hedges_g_swap_witness :
  (2 <= len (valid [Num 10; Num 12; Num 11; Num 13; Num 9]))%Z /\
  (2 <= len (valid [Num 20; Num 18; Missing; Num 19]))%Z /\
  forall stats,
  exists g12 g21,
    field hedges_g
      (calculate_mean_difference_effects stats
         [Num 10; Num 12; Num 11; Num 13; Num 9]
         [Num 20; Num 18; Missing; Num 19]) = Ok g12 /\
    field hedges_g
      (calculate_mean_difference_effects stats
         [Num 20; Num 18; Missing; Num 19]
         [Num 10; Num 12; Num 11; Num 13; Num 9]) = Ok g21 /\
    ((g12 = nan /\ g21 = nan) \/
     ((g12 =? - g21) = true /\ (abs g12 =? abs g21) = true)).
Proof.
  split; [ | split].
  - vm_compute; discriminate.
  - vm_compute; discriminate.
  - intro stats.
    apply (hedges_g_swap stats
             [Num 10; Num 12; Num 11; Num 13; Num 9]
             [Num 20; Num 18; Missing; Num 19]).
    + vm_compute; discriminate.
    + vm_compute; discriminate.
Defined.

(** C8 as stated fails on two constant samples with the same value: the
    pooled standard deviation and the difference of the means are both
    zero, Hedges' g is 0/0 = NaN in both orders, and NaN equals neither
    its negation nor itself. *)
Lemma hedges_g_swap_counterexample :
  (2 <= len (valid [Num 1; Num 1]))%Z /\
  (forall stats,
     field hedges_g
       (calculate_mean_difference_effects stats [Num 1; Num 1] [Num 1; Num 1])
     = Ok nan) /\
  (nan =? - nan) = false /\
  (abs nan =? abs nan) = false.
Proof.
  split; [vm_compute; discriminate | ].
  split; [ | split; reflexivity].
  intro stats. rewrite hedges_g_unfold by (vm_compute; discriminate).
  vm_compute. reflexivity.
Qed.

(** C9, as the code has it: when either group has fewer than two valid
    values, [calculate_mean_difference_effects] raises
    [ZeroDivisionError] if a group has no valid value at all; otherwise
    it raises nothing and returns NaN for Hedges' g and for both bounds
    of the confidence interval, and NaN for Glass's delta as well when
    group A has a single valid value. *)
Theorem effects_small_sample
  (stats : Scipy) (series1 series2 : list cell) :
  (len (valid series1) < 2 \/ len (valid series2) < 2)%Z ->
  ((len (valid series1) = 0 \/ len (valid series2) = 0)%Z ->
   calculate_mean_difference_effects stats series1 series2
   = Raise ZeroDivisionError) /\
  ((1 <= len (valid series1) /\ 1 <= len (valid series2))%Z ->
   exists r,
     calculate_mean_difference_effects stats series1 series2 = Ok r /\
     hedges_g r = nan /\
     mean_diff_ci_95 r = (nan, nan) /\
     ((len (valid series1) < 2)%Z -> glass_delta r = nan)).
Proof.
  intro H. split; [apply effects_empty_group | ].
  intros [H1 H2]. rewrite effects_defined by assumption.
  eexists. split; [reflexivity | ].
  cbn [hedges_g mean_diff_ci_95 glass_delta].
  assert (Hv : value (Series_var 1 (valid series1)) = nan \/
               value (Series_var 1 (valid series2)) = nan).
  { destruct H as [H | H]; [left | right];
      rewrite Series_var_one by lia; reflexivity. }
  split; [ | split].
  - destruct Hv as [-> | ->]; autorewrite with nan_absorbs; reflexivity.
  - destruct Hv as [-> | ->]; autorewrite with nan_absorbs; reflexivity.
  - intro H1'. rewrite (Series_var_one (valid series1)) by lia.
    cbn [value]. autorewrite with nan_absorbs. reflexivity.
Qed.

Lemma effects_small_sample_witness :
  (len (valid [Num 4; Text]) < 2 \/ len (valid [Num 1; Num 3]) < 2)%Z /\
  (len (valid [Text; Missing]) < 2 \/ len (valid [Num 1; Num 3]) < 2)%Z /\
  forall stats,
    calculate_mean_difference_effects stats [Text; Missing] [Num 1; Num 3]
    = Raise ZeroDivisionError /\
    exists r,
      calculate_mean_difference_effects stats [Num 4; Text] [Num 1; Num 3]
      = Ok r /\
      hedges_g r = nan /\
      mean_diff_ci_95 r = (nan, nan) /\
      ((len (valid [Num 4; Text]) < 2)%Z -> glass_delta r = nan).
Proof.
  split; [left; reflexivity | ].
  split; [left; reflexivity | ].
  intro stats. split.
  - apply (effects_small_sample stats [Text; Missing] [Num 1; Num 3]).
    + left. reflexivity.
    + left. reflexivity.
  - apply (effects_small_sample stats [Num 4; Text] [Num 1; Num 3]).
    + left. reflexivity.
    + split; vm_compute; discriminate.
Defined.

(** C9 as stated fails twice.  With no valid value in group B the
    function raises [ZeroDivisionError] instead of returning an undefined
    result; and with three values in group A and a single one in group B
    Glass's delta is (2 - 5) / 1 = -3, a defined number, although group B
    has fewer than two values. *)
Lemma effects_small_sample_counterexample :
  (len (valid [Text]) < 2)%Z /\
  (forall stats,
     calculate_mean_difference_effects stats [Num 1; Num 2; Num 3] [Text]
     = Raise ZeroDivisionError) /\
  (len (valid [Num 5]) < 2)%Z /\
  (forall stats,
     field glass_delta
       (calculate_mean_difference_effects stats
          [Num 1; Num 2; Num 3] [Num 5])
     = Ok (-3)) /\
  is_nan (-3) = false.
Proof.
  split; [reflexivity | ].
  split; [intro stats; apply effects_empty_group; right; reflexivity | ].
  split; [reflexivity | split; [ | reflexivity]].
  intro stats. rewrite effects_defined by (vm_compute; discriminate).
  vm_compute. reflexivity.
Qed.

End PubStatsFacts.

(** * feedback_form_basic_stats.py: the properties *)

Module FeedbackFacts.

Import Py FeedbackStats Examples.

(** ** Cross-tabulation *)

Lemma insert_label_In (s x : string) (l : list string) :
  In x (insert_label s l) <-> x = s \/ In x l.
Proof.
  induction l as [ | t l IH]; simpl.
  - intuition congruence.
  - destruct (String.leb s t); simpl; rewrite ?IH; intuition congruence.
Qed.

Lemma labels_In (x : string) (l : list string) :
  In x (labels l) <-> In x l.
Proof.
  unfold labels. rewrite <- (nodup_In string_dec l x).
  induction (nodup string_dec l) as [ | t l' IH]; simpl.
  - reflexivity.
  - rewrite insert_label_In, IH. intuition congruence.
Qed.

Lemma pair_eqb_refl (x : string * string) : pair_eqb x x = true.
Proof. unfold pair_eqb. rewrite !String.eqb_refl. reflexivity. Qed.

Lemma count_pair_nonneg pairs g a : (0 <= count_pair pairs g a)%Z.
Proof. unfold count_pair. lia. Qed.

Lemma count_pair_pos pairs g a :
  In (g, a) pairs -> (0 < count_pair pairs g a)%Z.
Proof.
  intro H. unfold count_pair.
  assert (Hin : In (g, a) (filter (pair_eqb (g, a)) pairs)).
  { apply filter_In. split; [exact H | apply pair_eqb_refl]. }
  destruct (filter (pair_eqb (g, a)) pairs); [contradiction | simpl; lia].
Qed.

Lemma Zsum_nonneg (l : list Z) :
  (forall x, In x l -> 0 <= x)%Z -> (0 <= Zsum l)%Z.
Proof.
  induction l as [ | y l IH]; simpl; intro Hnn; [lia | ].
  assert (0 <= y)%Z by (apply Hnn; left; reflexivity).
  assert (0 <= Zsum l)%Z by (apply IH; intros w Hw; apply Hnn; right; exact Hw).
  lia.
Qed.

Lemma Zsum_pos (l : list Z) :
  (forall x, In x l -> 0 <= x)%Z ->
  (exists x, In x l /\ 0 < x)%Z ->
  (0 < Zsum l)%Z.
Proof.
  induction l as [ | y l IH]; simpl; intros Hnn (x & Hin & Hx).
  - contradiction.
  - assert (0 <= y)%Z by (apply Hnn; left; reflexivity).
    assert (Hl : (0 <= Zsum l)%Z)
      by (apply Zsum_nonneg; intros w Hw; apply Hnn; right; exact Hw).
    destruct Hin as [-> | Hin]; [lia | ].
    assert (0 < Zsum l)%Z.
    { apply IH; [intros w Hw; apply Hnn; right; exact Hw | ].
      exists x; split; assumption. }
    lia.
Qed.

Lemma row_sums_pos (index columns : column) :
  Forall (fun s => 0 < s)%Z (row_sums (crosstab index columns)).
Proof.
  unfold row_sums, crosstab; simpl.
  set (pairs := valid_pairs index columns).
  rewrite map_map. apply Forall_forall. intros s Hs.
  apply in_map_iff in Hs. destruct Hs as (g & <- & Hg).
  apply labels_In, in_map_iff in Hg. destruct Hg as ([g' a] & Eg & Hin).
  simpl in Eg; subst g'.
  apply Zsum_pos.
  - intros x Hx. apply in_map_iff in Hx. destruct Hx as (c & <- & _).
    apply count_pair_nonneg.
  - exists (count_pair pairs g a). split.
    + apply in_map. apply labels_In.
      change a with (snd (g, a)). apply in_map, Hin.
    + apply count_pair_pos, Hin.
Qed.

Lemma col_sums_pos (index columns : column) :
  Forall (fun s => 0 < s)%Z (col_sums (crosstab index columns)).
Proof.
  unfold col_sums, crosstab; simpl.
  set (pairs := valid_pairs index columns).
  set (cols := labels (map snd pairs)).
  set (rows := labels (map fst pairs)).
  apply Forall_forall. intros s Hs.
  apply in_map_iff in Hs. destruct Hs as (j & <- & Hj).
  apply in_seq in Hj. destruct Hj as [_ Hj]. simpl in Hj.
  rewrite map_map.
  assert (Ha : In (nth j cols ""%string) cols) by (apply nth_In, Hj).
  assert (Ecol : forall g,
             nth j (map (count_pair pairs g) cols) 0%Z
             = count_pair pairs g (nth j cols ""%string)).
  { intro g.
    rewrite (nth_indep _ 0%Z (count_pair pairs g ""%string))
      by (rewrite length_map; exact Hj).
    apply map_nth. }
  apply labels_In, in_map_iff in Ha. destruct Ha as ([g a] & Ea & Hin).
  simpl in Ea.
  apply Zsum_pos.
  - intros x Hx. apply in_map_iff in Hx. destruct Hx as (g' & <- & _).
    rewrite Ecol. apply count_pair_nonneg.
  - exists (count_pair pairs g a). split.
    + apply in_map_iff. exists g. split.
      * rewrite Ecol, <- Ea. reflexivity.
      * apply labels_In. change g with (fst (g, a)). apply in_map, Hin.
    + apply count_pair_pos, Hin.
Qed.

(** Every table the analysis tests is a cross-tabulation of the answers,
    so none of its rows or columns sums to zero: an answer that nobody
    gave in either group is not a column of the table.  What the test
    does with a table is [chi2_contingency]'s: the analysis keeps the
    p-value it returns, and a fault raised there leaves the analysis. *)
Lemma crosstab_never_degenerate (index columns : column) :
  let counts_table := crosstab index columns in
  ~ has_zero_marginal counts_table /\
  (forall a, In a (tbl_columns counts_table) <->
             exists g, In (g, a) (valid_pairs index columns)) /\
  forall chi2_contingency question,
    (forall e, chi2_contingency counts_table = Raise e ->
               test_question chi2_contingency question counts_table
               = Raise e) /\
    (forall p, chi2_contingency counts_table = Ok p ->
               test_question chi2_contingency question counts_table
               = Ok {| question := question; counts_table := counts_table;
                       p_raw := p |}).
Proof.
  intro counts_table. split; [ | split].
  - intros [H | H].
    + pose proof (row_sums_pos index columns) as P.
      rewrite Forall_forall in P. specialize (P _ H). lia.
    + pose proof (col_sums_pos index columns) as P.
      rewrite Forall_forall in P. specialize (P _ H). lia.
  - intro a. unfold counts_table, crosstab; simpl.
    rewrite labels_In, in_map_iff. split.
    + intros ([g a'] & E & H). simpl in E; subst a'. exists g; exact H.
    + intros (g & H). exists (g, a). split; [reflexivity | exact H].
  - intros chi2_contingency question. unfold test_question.
    split; intros r E; rewrite E; reflexivity.
Qed.

(** ** Significance *)

(** The [if]/[elif]/[else] of the report is the decision rule of the
    specification at alpha = 0.05. *)
Lemma verdict_of_decision_rule (res : CorrectedResult) :
  verdict_of res
  = Corrector.decision_rule PrimFloat.ltb Corrector.DEFAULT_ALPHA
      (p_bonferroni res) (q_fdr res).
Proof. reflexivity. Qed.

Lemma getitem_Some {A : Type} (l : list A) (i : nat) (x : A) :
  nth_error l i = Some x -> getitem l i = Ok x.
Proof. unfold getitem. intros ->. reflexivity. Qed.

Lemma attach_from_spec (analysis_results : list QuestionResult) :
  forall (i : nat) (p_bonferroni q_fdr : list float),
    (i + List.length analysis_results <= List.length p_bonferroni)%nat ->
    (i + List.length analysis_results <= List.length q_fdr)%nat ->
    exists results,
      attach_from i analysis_results p_bonferroni q_fdr = Ok results /\
      List.length results = List.length analysis_results /\
      forall k b f,
        (k < List.length analysis_results)%nat ->
        nth_error p_bonferroni (i + k) = Some b ->
        nth_error q_fdr (i + k) = Some f ->
        exists res,
          nth_error analysis_results k = Some res /\
          nth_error results k
          = Some {| tested := res; p_bonferroni := b; q_fdr := f |}.
Proof.
  induction analysis_results as [ | res rest IH]; intros i pb q Hb Hq.
  - exists []. split; [reflexivity | split; [reflexivity | ]].
    intros k b f Hk. simpl in Hk. lia.
  - simpl in Hb, Hq.
    destruct (nth_error pb i) as [b0 | ] eqn:Eb;
      [ | apply nth_error_None in Eb; lia].
    destruct (nth_error q i) as [f0 | ] eqn:Ef;
      [ | apply nth_error_None in Ef; lia].
    destruct (IH (S i) pb q) as (tl & Etl & Ltl & Htl); [lia | lia | ].
    eexists. split; [ | split].
    + simpl. rewrite (getitem_Some _ _ _ Eb), (getitem_Some _ _ _ Ef).
      simpl. rewrite Etl. reflexivity.
    + simpl. rewrite Ltl. reflexivity.
    + intros k b f Hk Hkb Hkf. destruct k as [ | k].
      * rewrite Nat.add_0_r in Hkb, Hkf.
        exists res. split; [reflexivity | ]. simpl. congruence.
      * rewrite Nat.add_succ_r in Hkb, Hkf. simpl in Hk.
        destruct (Htl k b f) as (r & Er & Eo); [lia | assumption .. | ].
        exists r. split; assumption.
Qed.

(** C6: once the arrays of adjusted values, one entry per question, are
    attached by position, the verdict reported for item [i] is the
    chained rule on [p_bonferroni[i]] and [q_fdr[i]] with alpha = 0.05:
    significant if the Bonferroni value is below alpha, otherwise
    significant if the FDR value is, otherwise not significant. *)
Theorem verdict_is_chained_rule
  (analysis_results : list QuestionResult) (p_bonferroni q_fdr : list float) :
  List.length p_bonferroni = List.length analysis_results ->
  List.length q_fdr = List.length analysis_results ->
  exists out,
    report analysis_results p_bonferroni q_fdr = Ok out /\
    List.length out = List.length analysis_results /\
    forall i b f,
      nth_error p_bonferroni i = Some b ->
      nth_error q_fdr i = Some f ->
      exists res,
        nth_error analysis_results i = Some res /\
        nth_error out i
        = Some ({| tested := res; p_bonferroni := b; q_fdr := f |},
                Corrector.decision_rule PrimFloat.ltb 0.05%float b f).
Proof.
  intros Hb Hq.
  destruct (attach_from_spec analysis_results 0 p_bonferroni q_fdr)
    as (results & E & L & H); [simpl; lia | simpl; lia | ].
  exists (map (fun res => (res, verdict_of res)) results).
  unfold report. rewrite E. simpl.
  split; [reflexivity | split; [rewrite length_map; exact L | ]].
  intros i b f Eb Ef.
  assert (Hi : (i < List.length analysis_results)%nat).
  { rewrite <- Hb. apply nth_error_Some. congruence. }
  destruct (H i b f Hi Eb Ef) as (res & Er & Eo).
  exists res. split; [exact Er | ].
  rewrite nth_error_map, Eo. reflexivity.
Qed.

(** Three questions: one significant after Bonferroni, one only after
    FDR, one not at all. *)
Lemma verdict_is_chained_rule_witness :
  exists out,
    report three_questions [0.03; 0.09; 1]%float [0.03; 0.045; 0.5]%float
    = Ok out /\
    map snd out = [SignificantBonferroni; SignificantFDR; NotSignificant].
Proof.
  destruct (verdict_is_chained_rule three_questions
              [0.03; 0.09; 1]%float [0.03; 0.045; 0.5]%float
              eq_refl eq_refl) as (out & E & _ & _).
  exists out. split; [exact E | ].
  vm_compute in E. injection E as <-. reflexivity.
Defined.

End FeedbackFacts.

(** * The multiplicity corrector: the properties *)

Module CorrectorFacts.

Import FeedbackStats Corrector Examples.

Local Open Scope Q_scope.

Lemma size_of_nat_pos (n : nat) : (1 <= n)%nat -> 1 <= inject_Z (Z.of_nat n).
Proof. intro H. unfold Qle; simpl. lia. Qed.

Lemma size_of_nat_nonneg (n : nat) : 0 <= inject_Z (Z.of_nat n).
Proof. unfold Qle; simpl. lia. Qed.

(** ** Bonferroni *)

(** C4: in a family of [k] p-values the Bonferroni-adjusted value at any
    position is [min(1, raw_p[i] * k)]; it is at least the raw p-value and
    at most 1. *)
Theorem bonferroni_adjusted (raw_p : list Q) (i : nat) (p : Q) :
  Forall is_p_value raw_p ->
  nth_error raw_p i = Some p ->
  nth_error (bonferroni raw_p) i = Some (Qmin 1 (p * family_size raw_p)) /\
  p <= Qmin 1 (p * family_size raw_p) /\
  Qmin 1 (p * family_size raw_p) <= 1.
Proof.
  intros Hall Hi.
  assert (Hp : is_p_value p).
  { rewrite Forall_forall in Hall. apply Hall.
    apply nth_error_In with i, Hi. }
  destruct Hp as [Hp0 Hp1].
  assert (Hk : 1 <= family_size raw_p).
  { apply size_of_nat_pos.
    assert (i < List.length raw_p)%nat
      by (apply nth_error_Some; congruence).
    lia. }
  split; [ | split].
  - unfold bonferroni, family_size. rewrite nth_error_map, Hi. reflexivity.
  - apply Q.min_glb; [exact Hp1 | nra].
  - apply Q.le_min_l.
Qed.

Lemma bonferroni_adjusted_witness :
  nth_error (bonferroni four_p_values) 1
  = Some (Qmin 1 ((20 # 100) * 4)) /\
  20 # 100 <= Qmin 1 ((20 # 100) * 4) /\
  Qmin 1 ((20 # 100) * 4) <= 1.
Proof.
  apply (bonferroni_adjusted four_p_values 1
           (20 # 100)).
  - repeat constructor; discriminate.
  - reflexivity.
Defined.

(** ** Sorting the family *)

Lemma map_snd_combine_seq (l : list Q) (s : nat) :
  map snd (combine l (seq s (List.length l))) = seq s (List.length l).
Proof.
  revert s. induction l as [ | x l IH]; intro s; simpl;
    [reflexivity | rewrite IH; reflexivity].
Qed.

Lemma in_combine_seq (l : list Q) (s : nat) (p : Q) (i : nat) :
  In (p, i) (combine l (seq s (List.length l))) ->
  (s <= i)%nat /\ nth (i - s) l 0 = p.
Proof.
  revert s. induction l as [ | x l IH]; intro s; simpl.
  - contradiction.
  - intros [E | H].
    + injection E as -> ->. rewrite Nat.sub_diag. split; [lia | reflexivity].
    + destruct (IH (S s) H) as [Hs Hn]. split; [lia | ].
      replace (i - s)%nat with (S (i - S s)) by lia. exact Hn.
Qed.

Lemma argsort_perm (raw_p : list Q) :
  Permutation (argsort raw_p) (seq 0 (List.length raw_p)).
Proof.
  unfold argsort.
  rewrite <- (map_snd_combine_seq raw_p 0). fold (tagged raw_p).
  apply Permutation_map, Permutation_sym, TaggedSort.Permuted_sort.
Qed.

Lemma argsort_length (raw_p : list Q) :
  List.length (argsort raw_p) = List.length raw_p.
Proof.
  rewrite (Permutation_length (argsort_perm raw_p)). apply length_seq.
Qed.

Lemma argsort_NoDup (raw_p : list Q) : NoDup (argsort raw_p).
Proof.
  apply (Permutation_NoDup (Permutation_sym (argsort_perm raw_p))).
  apply seq_NoDup.
Qed.

Lemma argsort_bound (raw_p : list Q) (i : nat) :
  In i (argsort raw_p) <-> (i < List.length raw_p)%nat.
Proof.
  split; intro H.
  - apply (Permutation_in _ (argsort_perm raw_p)) in H.
    apply in_seq in H. lia.
  - apply (Permutation_in _ (Permutation_sym (argsort_perm raw_p))).
    apply in_seq. lia.
Qed.

(** The p-values taken in the sorted order are the sorted p-values. *)
Lemma take_argsort (raw_p : list Q) :
  take raw_p (argsort raw_p) = map fst (TaggedSort.sort (tagged raw_p)).
Proof.
  unfold take, argsort. fold (tagged raw_p). rewrite map_map.
  apply map_ext_in. intros [p i] Hin. simpl.
  apply (Permutation_in _ (Permutation_sym
                             (TaggedSort.Permuted_sort (tagged raw_p))))
    in Hin.
  apply in_combine_seq in Hin. destruct Hin as [_ Hn].
  rewrite Nat.sub_0_r in Hn. exact Hn.
Qed.

Lemma tagged_leb_trans : Transitive (fun x y => is_true (TaggedOrder.leb x y)).
Proof.
  intros [p i] [q j] [r k]. unfold TaggedOrder.leb, is_true; simpl.
  rewrite !Qle_bool_iff. apply Qle_trans.
Qed.

Lemma take_argsort_sorted (raw_p : list Q) :
  StronglySorted Qle (take raw_p (argsort raw_p)).
Proof.
  rewrite take_argsort.
  pose proof (TaggedSort.StronglySorted_sort (tagged raw_p) tagged_leb_trans)
    as S.
  induction S as [ | x l S IH Hx]; simpl; constructor.
  - exact IH.
  - rewrite Forall_forall in Hx |- *. intros q Hq.
    apply in_map_iff in Hq. destruct Hq as (y & <- & Hy).
    specialize (Hx y Hy). unfold TaggedOrder.leb, is_true in Hx.
    apply Qle_bool_iff, Hx.
Qed.

Lemma take_length (raw_p : list Q) (positions : list nat) :
  List.length (take raw_p positions) = List.length positions.
Proof. apply length_map. Qed.

(** ** Writing the values back *)

Lemma set_nth_length (i : nat) (v : Q) (l : list Q) :
  List.length (set_nth i v l) = List.length l.
Proof.
  revert i. induction l as [ | x l IH]; intros [ | i]; simpl;
    try reflexivity. rewrite IH. reflexivity.
Qed.

Lemma set_nth_same (i : nat) (v d : Q) (l : list Q) :
  (i < List.length l)%nat -> nth i (set_nth i v l) d = v.
Proof.
  revert i. induction l as [ | x l IH]; intros [ | i] H; simpl in *;
    try lia; [reflexivity | apply IH; lia].
Qed.

Lemma set_nth_other (i j : nat) (v d : Q) (l : list Q) :
  i <> j -> nth j (set_nth i v l) d = nth j l d.
Proof.
  revert i j. induction l as [ | x l IH]; intros [ | i] [ | j] H; simpl;
    try reflexivity; try congruence.
  apply IH. congruence.
Qed.

Lemma scatter_is_fold (positions : list nat) (values : list Q) (size : nat) :
  scatter positions values size
  = fold_left write (combine positions values) (repeat 0 size).
Proof. reflexivity. Qed.

Lemma fold_write_length (ivs : list (nat * Q)) (out : list Q) :
  List.length (fold_left write ivs out) = List.length out.
Proof.
  revert out. induction ivs as [ | iv ivs IH]; intro out; simpl.
  - reflexivity.
  - rewrite IH. apply set_nth_length.
Qed.

Lemma fold_write_untouched (positions : list nat) (values : list Q)
  (out : list Q) (i : nat) (d : Q) :
  ~ In i positions ->
  nth i (fold_left write (combine positions values) out) d = nth i out d.
Proof.
  revert values out.
  induction positions as [ | j ps IH]; intros [ | v vs] out H; simpl;
    try reflexivity.
  rewrite IH by (intro; apply H; right; assumption).
  unfold write; simpl. apply set_nth_other.
  intro E; apply H; left; exact E.
Qed.

Lemma fold_write_written (positions : list nat) (values : list Q) :
  forall (out : list Q) (r : nat),
    NoDup positions ->
    (forall i, In i positions -> (i < List.length out)%nat) ->
    List.length values = List.length positions ->
    (r < List.length positions)%nat ->
    nth (nth r positions O) (fold_left write (combine positions values) out) 0
    = nth r values 0.
Proof.
  revert values.
  induction positions as [ | j ps IH]; intros [ | v vs] out r ND Hin L Hr;
    simpl in *; try lia.
  inversion ND as [ | ? ? Hj ND']; subst.
  destruct r as [ | r].
  - rewrite fold_write_untouched by exact Hj.
    unfold write; simpl. apply set_nth_same. apply Hin. left; reflexivity.
  - apply IH; [exact ND' | | lia | lia].
    intros i Hi. unfold write; simpl. rewrite set_nth_length.
    apply Hin. right; exact Hi.
Qed.

(** ** The running minimum *)

Lemma cummin_cons (x : Q) (l : list Q) :
  cummin_from_right (x :: l) = Qmin_list x l :: cummin_from_right l.
Proof.
  revert x. induction l as [ | y l IH]; intro x.
  - reflexivity.
  - change (cummin_from_right (x :: y :: l))
      with (match cummin_from_right (y :: l) with
            | [] => [x]
            | (m :: _) as tl => Qmin x m :: tl
            end).
    rewrite (IH y). reflexivity.
Qed.

Lemma cummin_length (l : list Q) :
  List.length (cummin_from_right l) = List.length l.
Proof.
  induction l as [ | x l IH]; [reflexivity | ].
  rewrite cummin_cons. simpl. rewrite IH. reflexivity.
Qed.

(** Each entry of the running minimum is the least of the entries from
    its position on. *)
Lemma cummin_nth (l : list Q) (r : nat) :
  (r < List.length l)%nat ->
  nth r (cummin_from_right l) 0 = Qmin_list (nth r l 0) (skipn (S r) l).
Proof.
  revert r. induction l as [ | x l IH]; intros r H; simpl in H; [lia | ].
  rewrite cummin_cons. destruct r as [ | r].
  - reflexivity.
  - simpl. apply IH. lia.
Qed.

Lemma Qmin_list_le_head (x : Q) (l : list Q) : Qmin_list x l <= x.
Proof.
  destruct l as [ | y l]; simpl; [apply Qle_refl | apply Q.le_min_l].
Qed.

Lemma cummin_step (l : list Q) (r : nat) :
  (S r < List.length l)%nat ->
  nth r (cummin_from_right l) 0 <= nth (S r) (cummin_from_right l) 0.
Proof.
  revert r. induction l as [ | x l IH]; intros r H; simpl in H; [lia | ].
  rewrite cummin_cons. destruct r as [ | r].
  - destruct l as [ | y l]; simpl in H; [lia | ].
    rewrite cummin_cons. simpl. apply Q.le_min_r.
  - simpl. apply IH. lia.
Qed.

Lemma cummin_monotone (l : list Q) (r r' : nat) :
  (r <= r')%nat -> (r' < List.length l)%nat ->
  nth r (cummin_from_right l) 0 <= nth r' (cummin_from_right l) 0.
Proof.
  induction 1 as [ | r' Hle IH]; intro H.
  - apply Qle_refl.
  - apply Qle_trans with (nth r' (cummin_from_right l) 0).
    + apply IH. lia.
    + apply cummin_step. exact H.
Qed.

Lemma cummin_le_ratio (l : list Q) (r : nat) :
  (r < List.length l)%nat ->
  nth r (cummin_from_right l) 0 <= nth r l 0.
Proof.
  intro H. rewrite cummin_nth by exact H. apply Qmin_list_le_head.
Qed.

Lemma cummin_last (l : list Q) (r : nat) :
  S r = List.length l ->
  nth r (cummin_from_right l) 0 = nth r l 0.
Proof.
  intro H. rewrite cummin_nth by lia.
  rewrite skipn_all2 by lia. reflexivity.
Qed.

(** ** Benjamini-Hochberg *)

Lemma step_up_ratios_from (k : Q) (sorted : list Q) (j : nat) :
  step_up_ratios k j sorted
  = map (fun m => nth (m - j) sorted 0 * k / inject_Z (Z.of_nat m))
        (seq j (List.length sorted)).
Proof.
  revert j. induction sorted as [ | p rest IH]; intro j; simpl.
  - reflexivity.
  - rewrite Nat.sub_diag. f_equal. rewrite IH.
    apply map_ext_in. intros m Hm. apply in_seq in Hm.
    replace (m - j)%nat with (S (m - S j)) by lia. reflexivity.
Qed.

Lemma step_up_ratios_map (k : Q) (sorted : list Q) :
  step_up_ratios k 1 sorted
  = map (ratio_at k sorted) (seq 1 (List.length sorted)).
Proof. apply step_up_ratios_from. Qed.

Lemma step_up_ratios_length (k : Q) (sorted : list Q) :
  List.length (step_up_ratios k 1 sorted) = List.length sorted.
Proof. rewrite step_up_ratios_map, length_map, length_seq. reflexivity. Qed.

Lemma step_up_ratios_nth (k : Q) (sorted : list Q) (r : nat) :
  (r < List.length sorted)%nat ->
  nth r (step_up_ratios k 1 sorted) 0 = ratio_at k sorted (S r).
Proof.
  intro H. rewrite step_up_ratios_map.
  rewrite (nth_indep _ 0 (ratio_at k sorted O))
    by (rewrite length_map, length_seq; exact H).
  rewrite map_nth, seq_nth by exact H. reflexivity.
Qed.

Lemma sorted_length (raw_p : list Q) :
  List.length (take raw_p (argsort raw_p)) = List.length raw_p.
Proof. rewrite take_length. apply argsort_length. Qed.

Lemma q_sorted_length (raw_p : list Q) :
  List.length (q_sorted raw_p) = List.length raw_p.
Proof.
  unfold q_sorted.
  rewrite cummin_length, step_up_ratios_length. apply sorted_length.
Qed.

(** The q-value written at the position of rank [r] is the [r]-th sorted
    q-value. *)
Lemma fdr_bh_at_rank (raw_p : list Q) (r : nat) :
  (r < List.length raw_p)%nat ->
  nth (nth r (argsort raw_p) O) (fdr_bh raw_p) 0 = nth r (q_sorted raw_p) 0.
Proof.
  intro H. unfold fdr_bh. rewrite scatter_is_fold.
  apply fold_write_written.
  - apply argsort_NoDup.
  - intros i Hi. rewrite repeat_length. apply argsort_bound, Hi.
  - rewrite (q_sorted_length raw_p). symmetry. apply argsort_length.
  - rewrite argsort_length. exact H.
Qed.

Lemma fdr_bh_length (raw_p : list Q) :
  List.length (fdr_bh raw_p) = List.length raw_p.
Proof.
  unfold fdr_bh. rewrite scatter_is_fold, fold_write_length.
  apply repeat_length.
Qed.

Lemma q_sorted_step_up (raw_p : list Q) (r : nat) :
  (r < List.length raw_p)%nat ->
  nth r (q_sorted raw_p) 0 = step_up_q (take raw_p (argsort raw_p)) (S r).
Proof.
  intro H. unfold q_sorted.
  set (sorted := take raw_p (argsort raw_p)).
  assert (L : List.length sorted = List.length raw_p) by apply sorted_length.
  rewrite cummin_nth by (rewrite step_up_ratios_length, L; exact H).
  rewrite step_up_ratios_nth by (rewrite L; exact H).
  rewrite step_up_ratios_map, skipn_map, skipn_seq.
  unfold step_up_q, family_size. rewrite L. reflexivity.
Qed.

Lemma StronglySorted_nth_le (l : list Q) :
  StronglySorted Qle l ->
  forall r r', (r <= r')%nat -> (r' < List.length l)%nat ->
               nth r l 0 <= nth r' l 0.
Proof.
  induction 1 as [ | a l S IH Ha]; intros r r' Hle H; simpl in H; [lia | ].
  destruct r as [ | r], r' as [ | r']; simpl; try lia.
  - apply Qle_refl.
  - rewrite Forall_forall in Ha. apply Ha, nth_In. lia.
  - apply IH; lia.
Qed.

Lemma sorted_nth (raw_p : list Q) (r : nat) :
  (r < List.length raw_p)%nat ->
  nth r (take raw_p (argsort raw_p)) 0 = nth (nth r (argsort raw_p) O) raw_p 0.
Proof.
  intro H. unfold take.
  rewrite (nth_indep _ 0 (nth O raw_p 0))
    by (rewrite length_map, argsort_length; exact H).
  apply (map_nth (fun i => nth i raw_p 0)).
Qed.

(** Every position has a rank. *)
Lemma rank_of (raw_p : list Q) (i : nat) :
  (i < List.length raw_p)%nat ->
  exists r, (r < List.length raw_p)%nat /\ nth r (argsort raw_p) O = i.
Proof.
  intro H.
  assert (Hin : In i (argsort raw_p)) by (apply argsort_bound, H).
  destruct (In_nth _ _ O Hin) as (r & Hr & Er).
  rewrite argsort_length in Hr. exists r. split; assumption.
Qed.

Lemma q_sorted_monotone (raw_p : list Q) (r r' : nat) :
  (r <= r')%nat -> (r' < List.length raw_p)%nat ->
  nth r (q_sorted raw_p) 0 <= nth r' (q_sorted raw_p) 0.
Proof.
  intros Hle H. unfold q_sorted. apply cummin_monotone; [exact Hle | ].
  rewrite step_up_ratios_length, sorted_length. exact H.
Qed.

(** C5: the Benjamini-Hochberg q-values are the step-up values of the
    family sorted in ascending order, written back to the positions the
    p-values came from: the q-value of the p-value of rank [r] is the
    least of [p(j) * k / j] over the ranks [j >= r].  Read in ascending
    order of the p-values the q-values never decrease, and a larger
    p-value never has a smaller q-value. *)
Theorem fdr_bh_step_up (raw_p : list Q) :
  let order := argsort raw_p in
  let sorted := take raw_p order in
  Permutation order (seq 0 (List.length raw_p)) /\
  StronglySorted Qle sorted /\
  List.length (fdr_bh raw_p) = List.length raw_p /\
  (forall r, (r < List.length raw_p)%nat ->
     nth (nth r order O) (fdr_bh raw_p) 0 = step_up_q sorted (S r)) /\
  (forall r r', (r <= r')%nat -> (r' < List.length raw_p)%nat ->
     nth (nth r order O) (fdr_bh raw_p) 0
     <= nth (nth r' order O) (fdr_bh raw_p) 0) /\
  (forall i i', (i < List.length raw_p)%nat -> (i' < List.length raw_p)%nat ->
     nth i raw_p 0 < nth i' raw_p 0 ->
     nth i (fdr_bh raw_p) 0 <= nth i' (fdr_bh raw_p) 0).
Proof.
  intros order sorted.
  split; [ | split; [ | split; [ | split; [ | split]]]].
  - apply argsort_perm.
  - apply take_argsort_sorted.
  - apply fdr_bh_length.
  - intros r H. unfold order, sorted.
    rewrite fdr_bh_at_rank by exact H. apply q_sorted_step_up, H.
  - intros r r' Hle H. unfold order.
    rewrite !fdr_bh_at_rank by lia.
    apply q_sorted_monotone; assumption.
  - intros i i' Hi Hi' Hlt.
    destruct (rank_of raw_p i Hi) as (r & Hr & Er).
    destruct (rank_of raw_p i' Hi') as (r' & Hr' & Er').
    rewrite <- Er, <- Er', !fdr_bh_at_rank by assumption.
    destruct (le_lt_dec r r') as [Hle | Hgt].
    + apply q_sorted_monotone; assumption.
    + exfalso. apply (Qlt_not_le _ _ Hlt).
      rewrite <- Er, <- Er', <- !sorted_nth by assumption.
      apply StronglySorted_nth_le;
        [apply take_argsort_sorted | lia | rewrite sorted_length; exact Hr].
Qed.

(** ** FDR against Bonferroni *)

Lemma Forall_nth_p_value (l : list Q) (i : nat) :
  Forall is_p_value l -> (i < List.length l)%nat -> is_p_value (nth i l 0).
Proof.
  intros H Hi. rewrite Forall_forall in H. apply H, nth_In, Hi.
Qed.

Lemma ratio_le_scaled (p k : Q) (j : nat) :
  0 <= p -> 0 <= k -> (1 <= j)%nat ->
  p * k / inject_Z (Z.of_nat j) <= p * k.
Proof.
  intros Hp Hk Hj.
  assert (H1 : 1 <= inject_Z (Z.of_nat j)) by (apply size_of_nat_pos, Hj).
  apply Qle_shift_div_r; [lra | ].
  assert (0 <= p * k) by (apply Qmult_le_0_compat; assumption).
  nra.
Qed.

Lemma ratio_last (p : Q) (n : nat) :
  (1 <= n)%nat ->
  p * inject_Z (Z.of_nat n) / inject_Z (Z.of_nat n) == p.
Proof.
  intro H. apply Qdiv_mult_l.
  assert (1 <= inject_Z (Z.of_nat n)) by (apply size_of_nat_pos, H).
  lra.
Qed.

(** Each sorted q-value is at most the Bonferroni value of its p-value. *)
Lemma q_sorted_le_bonferroni (raw_p : list Q) (r : nat) :
  Forall is_p_value raw_p ->
  (r < List.length raw_p)%nat ->
  nth r (q_sorted raw_p) 0
  <= Qmin 1 (nth (nth r (argsort raw_p) O) raw_p 0 * family_size raw_p).
Proof.
  intros Hall Hr.
  set (sorted := take raw_p (argsort raw_p)).
  assert (L : List.length sorted = List.length raw_p) by apply sorted_length.
  assert (Hps : forall m, (m < List.length raw_p)%nat ->
                          is_p_value (nth m sorted 0)).
  { intros m Hm. unfold sorted. rewrite sorted_nth by exact Hm.
    apply Forall_nth_p_value; [exact Hall | ].
    apply argsort_bound, nth_In. rewrite argsort_length. exact Hm. }
  apply Q.min_glb.
  - (* at most the last ratio, which is the largest p-value *)
    set (n := List.length raw_p) in *.
    apply Qle_trans with (nth (n - 1) (q_sorted raw_p) 0).
    + unfold q_sorted. apply cummin_monotone; [lia | ].
      fold sorted. rewrite step_up_ratios_length, L. lia.
    + unfold q_sorted. fold sorted.
      rewrite cummin_last by (rewrite step_up_ratios_length, L; lia).
      rewrite step_up_ratios_nth by (rewrite L; lia).
      unfold ratio_at, family_size. fold n.
      replace (S (n - 1)) with n by lia.
      rewrite ratio_last by lia.
      apply (Hps (n - 1)%nat). lia.
  - unfold q_sorted. fold sorted.
    apply Qle_trans with (nth r (step_up_ratios (family_size raw_p) 1 sorted) 0).
    + apply cummin_le_ratio. rewrite step_up_ratios_length, L. exact Hr.
    + rewrite step_up_ratios_nth by (rewrite L; exact Hr).
      unfold ratio_at. replace (S r - 1)%nat with r by lia.
      unfold sorted at 1. rewrite sorted_nth by exact Hr.
      apply ratio_le_scaled; [ | apply size_of_nat_nonneg | lia].
      rewrite <- sorted_nth by exact Hr. apply (Hps r Hr).
Qed.

Lemma bonferroni_nth (raw_p : list Q) (i : nat) :
  (i < List.length raw_p)%nat ->
  nth i (bonferroni raw_p) 0 = Qmin 1 (nth i raw_p 0 * family_size raw_p).
Proof.
  intro H. unfold bonferroni, family_size.
  set (f := fun p => Qmin 1 (p * inject_Z (Z.of_nat (List.length raw_p)))).
  rewrite (nth_indep _ 0 (f 0)) by (rewrite length_map; exact H).
  apply (map_nth f).
Qed.

Lemma Qltb_lt (x y : Q) : Qltb x y = true <-> x < y.
Proof.
  unfold Qltb. rewrite negb_true_iff, <- not_true_iff_false, Qle_bool_iff.
  split; [apply Qnot_le_lt | apply Qlt_not_le].
Qed.

(** C10: in a family of p-values the Benjamini-Hochberg q-value at any
    position is at most the Bonferroni-adjusted value there; so whenever
    the Bonferroni branch of the decision rule fires the FDR test
    succeeds too, and the chained verdict is significant exactly when
    the q-value is below alpha. *)
Theorem fdr_le_bonferroni (raw_p : list Q) (i : nat) :
  Forall is_p_value raw_p ->
  (i < List.length raw_p)%nat ->
  let b := nth i (bonferroni raw_p) 0 in
  let q := nth i (fdr_bh raw_p) 0 in
  q <= b /\
  forall alpha,
    (Qltb b alpha = true -> Qltb q alpha = true) /\
    is_significant (decision_rule Qltb alpha b q) = Qltb q alpha.
Proof.
  intros Hall Hi b q.
  assert (Hle : q <= b).
  { destruct (rank_of raw_p i Hi) as (r & Hr & Er).
    unfold q, b. rewrite bonferroni_nth by exact Hi.
    rewrite <- Er. rewrite fdr_bh_at_rank by exact Hr.
    apply q_sorted_le_bonferroni; assumption. }
  split; [exact Hle | ].
  intro alpha.
  assert (Himp : Qltb b alpha = true -> Qltb q alpha = true).
  { rewrite !Qltb_lt. intro H. apply Qle_lt_trans with b; assumption. }
  split; [exact Himp | ].
  unfold decision_rule.
  destruct (Qltb b alpha) eqn:Eb.
  - rewrite Himp by reflexivity. reflexivity.
  - destruct (Qltb q alpha); reflexivity.
Qed.

Lemma fdr_le_bonferroni_witness :
  nth 2 (fdr_bh four_p_values) 0
  <= nth 2 (bonferroni four_p_values) 0.
Proof.
  apply (fdr_le_bonferroni four_p_values 2).
  - repeat constructor; discriminate.
  - simpl; lia.
Defined.

End CorrectorFacts.

(** * Beyond the effect of one swap: more sign symmetry *)

Module FloatSums.

Import FloatRel FloatFacts.

Local Open Scope float_scope.

Lemma cond_Zopp_negb (s : bool) (m : Z) :
  cond_Zopp (negb s) m = (- cond_Zopp s m)%Z.
Proof. destruct s; simpl; lia. Qed.

Lemma SFnegates_sym (a b : spec_float) : SFnegates a b -> SFnegates b a.
Proof.
  intros [-> | (s & s' & -> & ->)].
  - left. symmetry. apply SFopp_involutive.
  - right. exists s', s. split; reflexivity.
Qed.

(** Adding to a number and subtracting from its negation give negated
    results. *)
Lemma SFadd_sub_opp (a c : spec_float) :
  SFnegates (SF64add a c) (SF64sub (SFopp a) c).
Proof.
  destruct a as [sa | sa | | sa ma ea], c as [sc | sc | | sc mc ec];
    try (left; reflexivity);
    try (destruct sa, sc; (left; reflexivity)
                          || (right; eexists; eexists; split; reflexivity)).
  unfold SF64add, SF64sub, SFadd, SFsub, SFopp.
  rewrite cond_Zopp_negb.
  match goal with
  | |- SFnegates (binary_normalize _ _ (?x + ?y)%Z _ _) _ =>
      replace (- x - y)%Z with (- (x + y))%Z by lia
  end.
  apply binary_normalize_opp.
Qed.

Lemma SFsub_add_opp (a c : spec_float) :
  SFnegates (SF64sub a c) (SF64add (SFopp a) c).
Proof.
  destruct a as [sa | sa | | sa ma ea], c as [sc | sc | | sc mc ec];
    try (left; reflexivity);
    try (destruct sa, sc; (left; reflexivity)
                          || (right; eexists; eexists; split; reflexivity)).
  unfold SF64add, SF64sub, SFadd, SFsub, SFopp.
  rewrite cond_Zopp_negb.
  match goal with
  | |- SFnegates (binary_normalize _ _ (?x - ?y)%Z _ _) _ =>
      replace (- x + y)%Z with (- (x - y))%Z by lia
  end.
  apply binary_normalize_opp.
Qed.

Lemma SFadd_sub_negates (a a' c : spec_float) :
  SFnegates a a' -> SFnegates (SF64add a c) (SF64sub a' c).
Proof.
  intros [-> | (s & s' & -> & ->)].
  - apply SFadd_sub_opp.
  - destruct c as [sc | sc | | sc mc ec];
      try (left; reflexivity);
      destruct s, s', sc;
      (left; reflexivity) || (right; eexists; eexists; split; reflexivity).
Qed.

Lemma SFsub_add_negates (a a' c : spec_float) :
  SFnegates a a' -> SFnegates (SF64sub a c) (SF64add a' c).
Proof.
  intros [-> | (s & s' & -> & ->)].
  - apply SFsub_add_opp.
  - destruct c as [sc | sc | | sc mc ec];
      try (left; reflexivity);
      destruct s, s', sc;
      (left; reflexivity) || (right; eexists; eexists; split; reflexivity).
Qed.

Lemma add_sub_negates (a a' c : float) :
  negates a a' -> negates (a + c) (a' - c).
Proof.
  unfold negates. rewrite FloatAxioms.add_spec, FloatAxioms.sub_spec.
  apply SFadd_sub_negates.
Qed.

Lemma sub_add_negates (a a' c : float) :
  negates a a' -> negates (a - c) (a' + c).
Proof.
  unfold negates. rewrite FloatAxioms.add_spec, FloatAxioms.sub_spec.
  apply SFsub_add_negates.
Qed.

(** What [negates] means to Python's [==], for the first of the two. *)
Lemma negates_eqb_opp (a b : float) :
  negates a b -> (a = nan /\ b = nan) \/ (a =? - b) = true.
Proof.
  intro H. destruct (negates_eqb a b H) as [N | [E _]];
    [left; exact N | right; exact E].
Qed.

End FloatSums.

(** * calculate_basic_pub_stats.py: the helpers on any sample, and the
    report *)

Module PubReportFacts.

Import Py Pandas PubStats Spec FloatRel FloatFacts FloatSums PubReport.
Import PubStatsFacts.

Local Open Scope float_scope.

(** ** Coercion *)

Lemma to_numeric_coerce (series : list cell) :
  to_numeric series = map coerce series.
Proof. reflexivity. Qed.

Lemma to_numeric_Num (l : list float) : to_numeric (map Num l) = l.
Proof.
  unfold to_numeric. rewrite map_map. apply map_id.
Qed.

Lemma dropna_app (l1 l2 : list float) :
  dropna (l1 ++ l2) = dropna l1 ++ dropna l2.
Proof. apply filter_app. Qed.

Lemma dropna_keeps_all (l : list float) :
  Forall (fun x => is_nan x = false) l -> dropna l = l.
Proof.
  induction 1 as [ | x l Hx _ IH]; simpl; [reflexivity | ].
  rewrite Hx; simpl. rewrite IH. reflexivity.
Qed.

Lemma dropna_not_nan (l : list float) :
  Forall (fun x => is_nan x = false) (dropna l).
Proof.
  apply Forall_forall. intros x Hx. apply filter_In in Hx.
  destruct Hx as [_ Hx]. apply negb_true_iff, Hx.
Qed.

Lemma valid_insert_invalid (before after : list cell) (c : cell) :
  invalid c -> valid (before ++ c :: after) = valid (before ++ after).
Proof.
  intro H. unfold valid.
  rewrite (to_numeric_coerce (before ++ c :: after)).
  rewrite (to_numeric_coerce (before ++ after)).
  rewrite !map_app, !dropna_app. simpl.
  unfold invalid in H. rewrite H. reflexivity.
Qed.

(** The helpers look at a sample only through its valid observations. *)
Lemma helpers_through_valid (stats : Scipy) (pd : Quantiles)
  (s s' t t' : list cell) :
  valid s = valid s' -> valid t = valid t' ->
  calculate_descriptive_stats stats pd s
  = calculate_descriptive_stats stats pd s' /\
  compare_groups stats s t = compare_groups stats s' t' /\
  calculate_mean_difference_effects stats s t
  = calculate_mean_difference_effects stats s' t'.
Proof.
  unfold valid, calculate_descriptive_stats, compare_groups,
    calculate_mean_difference_effects.
  intros -> ->. repeat split; reflexivity.
Qed.

(** X1: an entry that is text, missing or NaN can be put anywhere into a
    sample (or taken out) without changing anything that
    [calculate_descriptive_stats], [compare_groups] and
    [calculate_mean_difference_effects] return, in either argument. *)
Theorem invalid_entries_ignored (stats : Scipy) (pd : Quantiles)
  (before after other : list cell) (c : cell) :
  invalid c ->
  calculate_descriptive_stats stats pd (before ++ c :: after)
  = calculate_descriptive_stats stats pd (before ++ after) /\
  compare_groups stats (before ++ c :: after) other
  = compare_groups stats (before ++ after) other /\
  compare_groups stats other (before ++ c :: after)
  = compare_groups stats other (before ++ after) /\
  calculate_mean_difference_effects stats (before ++ c :: after) other
  = calculate_mean_difference_effects stats (before ++ after) other /\
  calculate_mean_difference_effects stats other (before ++ c :: after)
  = calculate_mean_difference_effects stats other (before ++ after).
Proof.
  intro H.
  pose proof (valid_insert_invalid before after c H) as E.
  destruct (helpers_through_valid stats pd _ _ other other E eq_refl)
    as (H1 & H2 & H3).
  destruct (helpers_through_valid stats pd other other _ _ eq_refl E)
    as (_ & H4 & H5).
  repeat split; assumption.
Qed.

Lemma invalid_entries_ignored_witness :
  invalid Text /\
  forall stats pd,
    calculate_descriptive_stats stats pd ([Num 3; Num 5] ++ Text :: [Num 4])
    = calculate_descriptive_stats stats pd ([Num 3; Num 5] ++ [Num 4]).
Proof.
  split; [reflexivity | ].
  intros stats pd.
  apply (invalid_entries_ignored stats pd [Num 3; Num 5] [Num 4] [] Text).
  reflexivity.
Defined.

(** The count a summary reports is the number of valid values, in both
    branches. *)
Lemma ds_n_valid (stats : Scipy) (pd : Quantiles) (series : list cell) :
  ds_n (calculate_descriptive_stats stats pd series) = len (valid series).
Proof.
  unfold calculate_descriptive_stats, valid.
  destruct (len (dropna (to_numeric series)) <? 2)%Z; reflexivity.
Qed.

(** ** The confidence interval under a swap *)

Lemma mean_diff_ci_unfold (stats : Scipy) (series1 series2 : list cell) :
  let s1 := valid series1 in
  let s2 := valid series2 in
  let n1 := float_of_int (len s1) in
  let n2 := float_of_int (len s2) in
  let v1 := value (Series_var 1 s1) in
  let v2 := value (Series_var 1 s2) in
  let se_diff := PrimFloat.sqrt (v1 / n1 + v2 / n2) in
  let df_welch :=
    pow2 (v1 / n1 + v2 / n2)
    / (pow2 v1 / float_of_int (len s1 ^ 2 * (len s1 - 1))
       + pow2 v2 / float_of_int (len s2 ^ 2 * (len s2 - 1))) in
  let t_crit := t_ppf stats 0.975 df_welch in
  let mean_diff := value (Series_mean s1) - value (Series_mean s2) in
  (1 <= len s1)%Z -> (1 <= len s2)%Z ->
  field mean_diff_ci_95
    (calculate_mean_difference_effects stats series1 series2)
  = Ok (mean_diff - t_crit * se_diff, mean_diff + t_crit * se_diff).
Proof.
  cbv zeta. intros H1 H2. rewrite effects_defined by assumption.
  reflexivity.
Qed.

(** X3: when each group has at least one valid value, swapping the two
    groups mirrors the confidence interval of the mean difference: the
    upper bound in one order is minus the lower bound in the other (to
    Python's [==]), unless both are NaN. *)
Theorem mean_diff_ci_swap (stats : Scipy) (series1 series2 : list cell) :
  (1 <= len (valid series1))%Z ->
  (1 <= len (valid series2))%Z ->
  exists lo hi lo' hi',
    field mean_diff_ci_95
      (calculate_mean_difference_effects stats series1 series2)
    = Ok (lo, hi) /\
    field mean_diff_ci_95
      (calculate_mean_difference_effects stats series2 series1)
    = Ok (lo', hi') /\
    ((hi = nan /\ lo' = nan) \/ (hi =? - lo') = true) /\
    ((lo = nan /\ hi' = nan) \/ (lo =? - hi') = true).
Proof.
  intros H1 H2.
  do 4 eexists. split; [apply mean_diff_ci_unfold; assumption | ].
  split; [apply mean_diff_ci_unfold; assumption | ].
  cbv zeta.
  rewrite (add_comm (value (Series_var 1 (valid series2))
                     / float_of_int (len (valid series2)))).
  rewrite (add_comm (pow2 (value (Series_var 1 (valid series2))) / _)).
  split; apply negates_eqb_opp.
  - apply add_sub_negates, sub_swap.
  - apply sub_add_negates, sub_swap.
Qed.

(** Three durations against two, the critical value being 2: the
    interval is -3 -+ 2 sqrt(1/3 + 2/2) in one order and 3 -+ the same in
    the other. *)
Lemma mean_diff_ci_swap_witness :
  (1 <= len (valid [Num 1; Num 2; Num 3]))%Z /\
  (1 <= len (valid [Num 4; Text; Num 6]))%Z /\
  field mean_diff_ci_95
    (calculate_mean_difference_effects ReportExamples.t2_scipy
       [Num 1; Num 2; Num 3] [Num 4; Text; Num 6])
  = Ok (-5.3094010767585029, -0.69059892324149709) /\
  field mean_diff_ci_95
    (calculate_mean_difference_effects ReportExamples.t2_scipy
       [Num 4; Text; Num 6] [Num 1; Num 2; Num 3])
  = Ok (0.69059892324149709, 5.3094010767585029) /\
  exists lo hi lo' hi',
    field mean_diff_ci_95
      (calculate_mean_difference_effects ReportExamples.t2_scipy
         [Num 1; Num 2; Num 3] [Num 4; Text; Num 6])
    = Ok (lo, hi) /\
    field mean_diff_ci_95
      (calculate_mean_difference_effects ReportExamples.t2_scipy
         [Num 4; Text; Num 6] [Num 1; Num 2; Num 3])
    = Ok (lo', hi') /\
    ((hi = nan /\ lo' = nan) \/ (hi =? - lo') = true) /\
    ((lo = nan /\ hi' = nan) \/ (lo =? - hi') = true).
Proof.
  split; [vm_compute; discriminate | ].
  split; [vm_compute; discriminate | ].
  split; [vm_compute; reflexivity | ].
  split; [vm_compute; reflexivity | ].
  apply (mean_diff_ci_swap ReportExamples.t2_scipy
           [Num 1; Num 2; Num 3] [Num 4; Text; Num 6]);
    vm_compute; discriminate.
Defined.

(** ** The summary of a sample *)

(** X4: the summary printed for a sample shows the number of its valid
    values in the title and, below it, statistics exactly when they were
    computed: nothing for fewer than two valid values (the NaN
    placeholders are never printed), the mean and median lines
    otherwise, followed by the confidence interval when it is asked
    for. *)
Theorem summary_of_sample (stats : Scipy) (pd : Quantiles)
  (title : string) (data_series : list cell) (show_ci : bool) :
  let d := calculate_descriptive_stats stats pd data_series in
  let n := len (valid data_series) in
  exists body,
    print_summary_stats title d show_ci = TitleLine title n :: body /\
    (body = [] <-> (n < 2)%Z) /\
    ((2 <= n)%Z ->
     body = MeanLine (ds_mean d) (ds_std d)
            :: MedianLine (ds_median d) (ds_q1 d) (ds_q3 d)
            :: (if show_ci
                then [CILine (fst (ds_ci_95 d)) (snd (ds_ci_95 d))]
                else [])).
Proof.
  intros d n. unfold print_summary_stats.
  assert (En : ds_n d = n) by apply ds_n_valid.
  rewrite En.
  destruct (Z.gtb_spec n 1) as [Hn | Hn].
  - destruct (ds_ci_95 d) as [ci_low ci_high] eqn:Eci.
    eexists. split; [reflexivity | ]. split.
    + split; [discriminate | lia].
    + intros _. reflexivity.
  - exists []. split; [reflexivity | ]. split.
    + split; [lia | reflexivity].
    + lia.
Qed.

Lemma summary_of_sample_witness :
  exists body,
    print_summary_stats "Workdays"
      (calculate_descriptive_stats ReportExamples.nan_scipy
         ReportExamples.nan_quantiles [Num 1%float; Text; Num 2%float])
      true
    = TitleLine "Workdays" 2 :: body /\
    body <> [].
Proof.
  destruct (summary_of_sample ReportExamples.nan_scipy
              ReportExamples.nan_quantiles "Workdays"
              [Num 1%float; Text; Num 2%float] true)
    as (body & E & Hb & _).
  exists body. split; [exact E | ].
  intro Hn. apply Hb in Hn. vm_compute in Hn. discriminate.
Defined.

(** ** The report *)

Lemma clean_data_not_nan (read_number : string -> float) (df : frame) :
  Forall (fun p => is_nan (workdays p) = false) (clean_data read_number df).
Proof.
  unfold clean_data. apply Forall_forall. intros p Hp.
  apply in_map_iff in Hp. destruct Hp as (pw & <- & Hpw). simpl.
  apply filter_In in Hpw. destruct Hpw as [Hpw _].
  apply filter_In in Hpw. destruct Hpw as [_ Hpw].
  apply negb_true_iff, Hpw.
Qed.

Lemma clean_data_positive (read_number : string -> float) (df : frame) :
  Forall (fun p => (0 <? workdays p) = true) (clean_data read_number df).
Proof.
  unfold clean_data. apply Forall_forall. intros p Hp.
  apply in_map_iff in Hp. destruct Hp as (pw & <- & Hpw). simpl.
  apply filter_In in Hpw. destruct Hpw as [_ Hpw]. exact Hpw.
Qed.

Lemma clean_data_length (read_number : string -> float) (df : frame) :
  (List.length (clean_data read_number df) <= List.length (rows df))%nat.
Proof.
  unfold clean_data. rewrite length_map.
  eapply Nat.le_trans; [apply filter_length_le | ].
  eapply Nat.le_trans; [apply filter_length_le | ].
  rewrite length_map. apply Nat.le_refl.
Qed.

Lemma Forall_filter_keeps {A : Type} (P : A -> Prop) (f : A -> bool)
  (l : list A) :
  Forall P l -> Forall P (filter f l).
Proof.
  rewrite !Forall_forall. intros H x Hx. apply H.
  apply filter_In in Hx. apply Hx.
Qed.

(** The count reported for a selection of cleaned rows is the number of
    rows selected. *)
Lemma n_of_selection (stats : Scipy) (pd : Quantiles) (l : list clean_pub) :
  Forall (fun p => is_nan (workdays p) = false) l ->
  ds_n (calculate_descriptive_stats stats pd (map Num (map workdays l)))
  = len l.
Proof.
  intro H. rewrite ds_n_valid. unfold valid.
  rewrite to_numeric_Num, dropna_keeps_all.
  - unfold len. rewrite length_map. reflexivity.
  - apply Forall_forall. intros x Hx. apply in_map_iff in Hx.
    destruct Hx as (p & <- & Hp). rewrite Forall_forall in H. apply H, Hp.
Qed.

Lemma filter_split_length {A : Type} (f : A -> bool) (l : list A) :
  (List.length (filter f l) + List.length (filter (fun x => negb (f x)) l)
   = List.length l)%nat.
Proof.
  induction l as [ | x l IH]; simpl; [reflexivity | ].
  destruct (f x); simpl; lia.
Qed.

Lemma filter3_length {A : Type} (f g h : A -> bool) (l : list A) :
  (forall x, f x && g x = false) ->
  (forall x, f x && h x = false) ->
  (forall x, g x && h x = false) ->
  (List.length (filter f l) + List.length (filter g l)
   + List.length (filter h l) <= List.length l)%nat.
Proof.
  intros Hfg Hfh Hgh. induction l as [ | x l IH]; simpl; [lia | ].
  specialize (Hfg x); specialize (Hfh x); specialize (Hgh x).
  destruct (f x), (g x), (h x); simpl in *; try discriminate; lia.
Qed.

Lemma versions_differ (p : clean_pub) :
  is_version "v1.0" p && is_version "v2.0" p = false.
Proof.
  unfold is_version, eq_text.
  destruct (Publishing_version (pub_of p)) as [t | ]; [ | reflexivity].
  destruct (String.eqb_spec t "v1.0") as [-> | _]; reflexivity.
Qed.

(** A call that returns had a value in each group. *)
Lemma effects_Ok_nonempty (stats : Scipy) (series1 series2 : list cell)
  (r : MeanDifferenceEffects) :
  calculate_mean_difference_effects stats series1 series2 = Ok r ->
  (1 <= len (valid series1))%Z /\ (1 <= len (valid series2))%Z.
Proof.
  intro H.
  pose proof (len_nonneg (valid series1)).
  pose proof (len_nonneg (valid series2)).
  destruct (Z.eq_dec (len (valid series1)) 0) as [E1 | N1].
  - rewrite effects_empty_group in H by (left; exact E1). discriminate.
  - destruct (Z.eq_dec (len (valid series2)) 0) as [E2 | N2].
    + rewrite effects_empty_group in H by (right; exact E2). discriminate.
    + lia.
Qed.

Lemma valid_of_selection (l : list clean_pub) :
  Forall (fun p => is_nan (workdays p) = false) l ->
  len (valid (map Num (map workdays l))) = len l.
Proof.
  intro H. unfold valid.
  rewrite to_numeric_Num, dropna_keeps_all.
  - unfold len. rewrite length_map. reflexivity.
  - apply Forall_forall. intros x Hx. apply in_map_iff in Hx.
    destruct Hx as (p & <- & Hp). rewrite Forall_forall in H. apply H, Hp.
Qed.

(** X5: in a report that [main_v2_analysis] completes, each of the five
    counts is the number of cleaned rows selected for it, all of them
    with a positive numeric duration; every pub is counted at most once:
    the counts of the initial and of the new v2.0 pubs add up to the
    count of the published v2.0 pubs, and published v1.0, published v2.0
    and in-progress pubs together are no more than the rows of the file;
    and there is at least one published v1.0 pub, one initial and one new
    v2.0 pub, since the effect sizes of an empty group raise. *)
Theorem report_counts (stats : Scipy) (pd : Quantiles)
  (read_number : string -> float) (df_current df_original : frame)
  (r : Report) :
  main_v2_analysis stats pd read_number df_current df_original = Ok r ->
  let cleaned := clean_data read_number df_current in
  let v1_published :=
    filter (fun p => is_version "v1.0" p && is_published p) cleaned in
  let v2_published :=
    filter (fun p => is_version "v2.0" p && is_published p) cleaned in
  let original_v2_ids :=
    map ArbitraryID
        (filter (fun p => eq_text (Publishing_version p) "v2.0")
                (rows df_original)) in
  let initial p := isin (ArbitraryID (pub_of p)) original_v2_ids in
  ds_n (stats_v1 r) = len v1_published /\
  ds_n (stats_v2 r) = len v2_published /\
  ds_n (stats_init_v2 r) = len (filter initial v2_published) /\
  ds_n (stats_new_v2 r)
  = len (filter (fun p => negb (initial p)) v2_published) /\
  ds_n (stats_prog r) = len (filter (fun p => negb (is_published p)) cleaned) /\
  Forall (fun p => (0 <? workdays p) = true) cleaned /\
  (ds_n (stats_init_v2 r) + ds_n (stats_new_v2 r) = ds_n (stats_v2 r))%Z /\
  (ds_n (stats_v1 r) + ds_n (stats_v2 r) + ds_n (stats_prog r)
   <= len (rows df_current))%Z /\
  (1 <= ds_n (stats_v1 r))%Z /\
  (1 <= ds_n (stats_init_v2 r))%Z /\
  (1 <= ds_n (stats_new_v2 r))%Z.
Proof.
  intro H. cbv zeta.
  set (cleaned := clean_data read_number df_current) in *.
  pose proof (clean_data_not_nan read_number df_current) as Hc.
  fold cleaned in Hc.
  unfold main_v2_analysis in H. fold cleaned in H.
  repeat match type of H with
         | context [Py.bind ?x _] =>
             let E := fresh "E" in
             destruct x eqn:E; simpl in H; try discriminate
         end.
  injection H as <-. cbn [stats_init_v2 stats_new_v2 stats_v2 stats_v1
                            stats_prog].
  repeat match goal with
         | E : calculate_mean_difference_effects _ _ _ = Ok _ |- _ =>
             apply effects_Ok_nonempty in E;
             rewrite !valid_of_selection in E
               by (repeat apply Forall_filter_keeps; exact Hc)
         end.
  rewrite !n_of_selection by (repeat apply Forall_filter_keeps; exact Hc).
  set (v1_published :=
         filter (fun p => is_version "v1.0" p && is_published p) cleaned) in *.
  set (v2_published :=
         filter (fun p => is_version "v2.0" p && is_published p) cleaned) in *.
  set (original_v2_ids :=
         map ArbitraryID
             (filter (fun p => eq_text (Publishing_version p) "v2.0")
                     (rows df_original))) in *.
  set (initial := fun p => isin (ArbitraryID (pub_of p)) original_v2_ids)
    in *.
  assert (Split : (len (filter initial v2_published)
                   + len (filter (fun p => negb (initial p)) v2_published)
                   = len v2_published)%Z).
  { unfold len. rewrite <- Nat2Z.inj_add. f_equal.
    apply filter_split_length. }
  assert (Once : (len v1_published + len v2_published
                  + len (filter (fun p => negb (is_published p)) cleaned)
                  <= len (rows df_current))%Z).
  { unfold len.
    pose proof (clean_data_length read_number df_current) as L.
    fold cleaned in L.
    pose proof (filter3_length
                  (fun p => is_version "v1.0" p && is_published p)
                  (fun p => is_version "v2.0" p && is_published p)
                  (fun p => negb (is_published p)) cleaned) as F.
    assert (F' : (List.length v1_published + List.length v2_published
                  + List.length
                      (filter (fun p => negb (is_published p)) cleaned)
                  <= List.length cleaned)%nat).
    { apply F; intro p.
      - pose proof (versions_differ p).
        destruct (is_version "v1.0" p), (is_version "v2.0" p),
          (is_published p); simpl in *; congruence.
      - destruct (is_version "v1.0" p), (is_published p); reflexivity.
      - destruct (is_version "v2.0" p), (is_published p); reflexivity. }
    lia. }
  unfold initial in *.
  repeat split; try reflexivity; try lia.
  apply clean_data_positive.
Qed.

(** Five pubs: one published v1.0 pub, an initial and a new published
    v2.0 pub, one v2.0 pub without a duration, one in progress. *)
Lemma report_counts_witness :
  exists r,
    main_v2_analysis ReportExamples.nan_scipy ReportExamples.nan_quantiles
      (fun _ => nan) ReportExamples.current_pubs ReportExamples.original_pubs
    = Ok r /\
    ds_n (stats_v1 r) = 1%Z /\
    ds_n (stats_v2 r) = 2%Z /\
    ds_n (stats_init_v2 r) = 1%Z /\
    ds_n (stats_new_v2 r) = 1%Z /\
    ds_n (stats_prog r) = 1%Z /\
    (ds_n (stats_init_v2 r) + ds_n (stats_new_v2 r) = ds_n (stats_v2 r))%Z.
Proof.
  destruct (main_v2_analysis ReportExamples.nan_scipy
              ReportExamples.nan_quantiles (fun _ => nan)
              ReportExamples.current_pubs ReportExamples.original_pubs)
    as [r | e] eqn:E; [ | vm_compute in E; discriminate].
  exists r. split; [reflexivity | ].
  destruct (report_counts _ _ _ _ _ _ E)
    as (H1 & H2 & H3 & H4 & H5 & _ & H6 & _).
  rewrite H1, H2, H3, H4, H5.
  repeat split; vm_compute; reflexivity.
Defined.

(** X2: [calculate_mean_difference_effects] raises exactly when a group
    has no valid value, and the fault is then [ZeroDivisionError]: the
    variance of an empty group is the built-in nan, whose division by the
    count 0 raises, while the division between Python integers,
    [3 / (4 * (n1 + n2) - 9)], never has a zero divisor and the float64
    of a group with a value never raise. *)
Theorem effect_sizes_raise_on_empty_group
  (stats : Scipy) (series1 series2 : list cell) :
  (raises (calculate_mean_difference_effects stats series1 series2) <->
   (len (valid series1) = 0 \/ len (valid series2) = 0)%Z) /\
  (forall e,
     calculate_mean_difference_effects stats series1 series2 = Raise e ->
     e = ZeroDivisionError).
Proof.
  pose proof (len_nonneg (valid series1)).
  pose proof (len_nonneg (valid series2)).
  destruct (Z.eq_dec (len (valid series1)) 0) as [E1 | N1];
    [ | destruct (Z.eq_dec (len (valid series2)) 0) as [E2 | N2]].
  - rewrite effects_empty_group by (left; exact E1). split.
    + split; [intros _; left; exact E1 | ].
      intros _. exists ZeroDivisionError. reflexivity.
    + intros e He. congruence.
  - rewrite effects_empty_group by (right; exact E2). split.
    + split; [intros _; right; exact E2 | ].
      intros _. exists ZeroDivisionError. reflexivity.
    + intros e He. congruence.
  - rewrite effects_defined by lia. split.
    + split; [intros [e He]; discriminate | lia].
    + intros e He. discriminate.
Qed.

End PubReportFacts.

(** * feedback_form_basic_stats.py: the analysis as a whole *)

Module FeedbackExtras.

Import Py FeedbackStats FeedbackTerms FeedbackFacts.

(** ** Attaching the adjusted values *)

Lemma attach_from_short (analysis_results : list QuestionResult) :
  forall (i : nat) (p_bonferroni q_fdr : list float),
    (i <= List.length p_bonferroni)%nat ->
    (i <= List.length q_fdr)%nat ->
    (List.length p_bonferroni < i + List.length analysis_results
     \/ List.length q_fdr < i + List.length analysis_results)%nat ->
    attach_from i analysis_results p_bonferroni q_fdr = Raise IndexError.
Proof.
  induction analysis_results as [ | res rest IH]; intros i pb q Hb Hq H.
  - simpl in H. lia.
  - simpl in H. simpl. unfold getitem at 1.
    destruct (nth_error pb i) as [b | ] eqn:Eb; [ | reflexivity].
    assert (i < List.length pb)%nat by (apply nth_error_Some; congruence).
    simpl. unfold getitem at 1.
    destruct (nth_error q i) as [f | ] eqn:Ef; [ | reflexivity].
    assert (i < List.length q)%nat by (apply nth_error_Some; congruence).
    simpl. rewrite IH by lia. reflexivity.
Qed.

(** X6: the adjusted values are attached by position without silent
    truncation: the report is produced for every question when both
    arrays have at least one entry per question (entries beyond the
    family are not looked at), and [IndexError] is raised when either
    array is shorter than the family. *)
Theorem report_alignment
  (analysis_results : list QuestionResult) (p_bonferroni q_fdr : list float) :
  ((List.length analysis_results <= List.length p_bonferroni)%nat /\
   (List.length analysis_results <= List.length q_fdr)%nat ->
   exists out,
     report analysis_results p_bonferroni q_fdr = Ok out /\
     map (fun x => tested (fst x)) out = analysis_results) /\
  ((List.length p_bonferroni < List.length analysis_results)%nat \/
   (List.length q_fdr < List.length analysis_results)%nat ->
   report analysis_results p_bonferroni q_fdr = Raise IndexError).
Proof.
  split.
  - intros [Hb Hq].
    destruct (attach_from_spec analysis_results 0 p_bonferroni q_fdr)
      as (results & E & L & H); [simpl; lia | simpl; lia | ].
    exists (map (fun res => (res, verdict_of res)) results).
    unfold report. rewrite E. split; [reflexivity | ].
    rewrite map_map. simpl.
    apply nth_error_ext. intro k. rewrite nth_error_map.
    destruct (nth_error analysis_results k) as [res | ] eqn:Ek.
    + assert (Hk : (k < List.length analysis_results)%nat)
        by (apply nth_error_Some; congruence).
      destruct (nth_error p_bonferroni k) as [b | ] eqn:Eb;
        [ | apply nth_error_None in Eb; lia].
      destruct (nth_error q_fdr k) as [f | ] eqn:Ef;
        [ | apply nth_error_None in Ef; lia].
      destruct (H k b f Hk Eb Ef) as (res' & Er & Eo).
      rewrite Eo. simpl. congruence.
    + apply nth_error_None in Ek.
      assert (En : nth_error results k = None)
        by (apply nth_error_None; lia).
      rewrite En. reflexivity.
  - intro H. unfold report.
    rewrite attach_from_short by (simpl; lia). reflexivity.
Qed.

Lemma report_alignment_witness :
  (exists out,
     report [kept (fun _ => []) "q" 0.5%float] [1%float] [0.5%float]
     = Ok out /\
     map (fun x => tested (fst x)) out
     = [kept (fun _ => []) "q" 0.5%float]) /\
  report [kept (fun _ => []) "q" 0.5%float] [] [0.5%float]
  = Raise IndexError.
Proof.
  split.
  - apply (report_alignment [kept (fun _ => []) "q" 0.5%float]
             [1%float] [0.5%float]).
    split; simpl; lia.
  - apply (report_alignment [kept (fun _ => []) "q" 0.5%float]
             [] [0.5%float]).
    left. simpl. lia.
Defined.

(** ** The tests *)

Lemma run_tests_Ok (chi2_contingency : table -> result float)
  (df : DataFrame) (questions : list string) :
  forall results,
    run_tests chi2_contingency df questions = Ok results <->
    Forall2 (fun q res =>
               chi2_contingency (table_of df q) = Ok (p_raw res) /\
               res = kept df q (p_raw res))
            questions results.
Proof.
  induction questions as [ | q rest IH]; intro results; simpl.
  - split.
    + intro H. injection H as <-. constructor.
    + intro H. inversion H. reflexivity.
  - unfold test_question. fold (table_of df q).
    destruct (chi2_contingency (table_of df q)) as [p | e] eqn:Ep; simpl.
    + destruct (run_tests chi2_contingency df rest) as [tl | e] eqn:Et;
        simpl.
      * split.
        -- intro H. injection H as <-. constructor.
           ++ split; [exact Ep | reflexivity].
           ++ apply IH. reflexivity.
        -- intro H. inversion H as [ | ? res ? tl' [Hp Hres] Htl]; subst.
           apply IH in Htl. injection Htl as ->.
           rewrite Hres. rewrite Ep in Hp. injection Hp as ->. reflexivity.
      * split; [discriminate | ].
        intro H. inversion H as [ | ? res ? tl' _ Htl]; subst.
        apply IH in Htl. discriminate.
    + split; [discriminate | ].
      intro H. inversion H as [ | ? res ? tl' [Hp _] _]; subst.
      rewrite Ep in Hp. discriminate.
Qed.

Lemma run_tests_Raise (chi2_contingency : table -> result float)
  (df : DataFrame) (questions : list string) (e : exn) :
  run_tests chi2_contingency df questions = Raise e <->
  exists before q after,
    questions = before ++ q :: after /\
    Forall (fun q' => exists p, chi2_contingency (table_of df q') = Ok p)
           before /\
    chi2_contingency (table_of df q) = Raise e.
Proof.
  induction questions as [ | q rest IH].
  - split; [discriminate | ].
    intros (before & q & after & E & _). destruct before; discriminate.
  - assert (Step : run_tests chi2_contingency df (q :: rest)
                   = match chi2_contingency (table_of df q) with
                     | Ok p =>
                         match run_tests chi2_contingency df rest with
                         | Ok tl => Ok (kept df q p :: tl)
                         | Raise e' => Raise e'
                         end
                     | Raise e' => Raise e'
                     end).
    { simpl. unfold test_question. fold (table_of df q).
      destruct (chi2_contingency (table_of df q)); reflexivity. }
    rewrite Step. clear Step. split.
    + intro H.
      destruct (chi2_contingency (table_of df q)) as [p | e'] eqn:Ep.
      * assert (Hr : run_tests chi2_contingency df rest = Raise e)
          by (destruct (run_tests chi2_contingency df rest);
              [discriminate | exact H]).
        destruct (proj1 IH Hr) as (before & q0 & after & E & Hb & Hq).
        exists (q :: before), q0, after. subst rest.
        split; [reflexivity | split; [ | exact Hq]].
        constructor; [exists p; exact Ep | exact Hb].
      * exists [], q, rest.
        split; [reflexivity | split; [constructor | ]].
        rewrite Ep. injection H as ->. reflexivity.
    + intros (before & q0 & after & E & Hb & Hq).
      destruct before as [ | b before]; simpl in E; injection E as <- ->.
      * rewrite Hq. reflexivity.
      * inversion Hb as [ | ? ? [p Hp] Hb']; subst.
        rewrite Hp.
        assert (Hr : run_tests chi2_contingency df (before ++ q0 :: after)
                     = Raise e).
        { apply IH. exists before, q0, after.
          split; [reflexivity | split; assumption]. }
        rewrite Hr. reflexivity.
Qed.

(** X7: step 1 is all or nothing.  It returns exactly when the test of
    every question returns, and then keeps one entry per question, in
    the order of the questions, each with the table of its own question
    and the p-value of that table; otherwise it raises the fault of the
    first question whose test fails, and no result of any question is
    kept. *)
Theorem run_tests_all_or_nothing (chi2_contingency : table -> result float)
  (df : DataFrame) (questions : list string) :
  (forall results,
     run_tests chi2_contingency df questions = Ok results <->
     Forall2 (fun q res =>
                chi2_contingency (table_of df q) = Ok (p_raw res) /\
                res = kept df q (p_raw res))
             questions results) /\
  (forall e,
     run_tests chi2_contingency df questions = Raise e <->
     exists before q after,
       questions = before ++ q :: after /\
       Forall (fun q' => exists p, chi2_contingency (table_of df q') = Ok p)
              before /\
       chi2_contingency (table_of df q) = Raise e).
Proof.
  split; [apply run_tests_Ok | intro e; apply run_tests_Raise].
Qed.

(** ** The whole analysis *)

Lemma report_inv (analysis_results : list QuestionResult)
  (p_bonferroni q_fdr : list float) (out : list (CorrectedResult * verdict)) :
  report analysis_results p_bonferroni q_fdr = Ok out ->
  map (fun x => tested (fst x)) out = analysis_results /\
  forall i x,
    nth_error out i = Some x ->
    nth_error p_bonferroni i = Some (FeedbackStats.p_bonferroni (fst x)) /\
    nth_error q_fdr i = Some (FeedbackStats.q_fdr (fst x)) /\
    snd x = verdict_of (fst x).
Proof.
  intro H.
  assert (Hb : (List.length analysis_results <= List.length p_bonferroni)%nat).
  { destruct (le_lt_dec (List.length analysis_results)
                        (List.length p_bonferroni)) as [L | L]; [exact L | ].
    rewrite (proj2 (report_alignment analysis_results p_bonferroni q_fdr))
      in H by (left; exact L). discriminate. }
  assert (Hq : (List.length analysis_results <= List.length q_fdr)%nat).
  { destruct (le_lt_dec (List.length analysis_results)
                        (List.length q_fdr)) as [L | L]; [exact L | ].
    rewrite (proj2 (report_alignment analysis_results p_bonferroni q_fdr))
      in H by (right; exact L). discriminate. }
  destruct (proj1 (report_alignment analysis_results p_bonferroni q_fdr)
              (conj Hb Hq)) as (out' & E & M).
  rewrite E in H. injection H as ->. split; [exact M | ].
  intros i x Hx.
  destruct (attach_from_spec analysis_results 0 p_bonferroni q_fdr)
    as (results & Ea & L & Hs); [simpl; lia | simpl; lia | ].
  unfold report in E. rewrite Ea in E. simpl in E. injection E as <-.
  rewrite nth_error_map in Hx.
  destruct (nth_error results i) as [res | ] eqn:Er; [ | discriminate].
  injection Hx as <-. simpl.
  assert (Hi : (i < List.length analysis_results)%nat).
  { rewrite <- L. apply nth_error_Some. congruence. }
  destruct (nth_error p_bonferroni i) as [b | ] eqn:Eb;
    [ | apply nth_error_None in Eb; lia].
  destruct (nth_error q_fdr i) as [f | ] eqn:Ef;
    [ | apply nth_error_None in Ef; lia].
  destruct (Hs i b f Hi Eb Ef) as (res' & _ & Eo).
  rewrite Er in Eo. injection Eo as ->. simpl.
  repeat split; reflexivity.
Qed.

(** X8: when [analyze_version_differences_v2] returns, it reports one
    entry per question of [FEEDBACK_FORM_QUESTIONS], in that order; the
    entry at position [i] carries the table and the raw p-value of its
    own question, the [i]-th values of the two arrays that
    [multipletests] returned for the family of raw p-values taken in the
    same order, and the verdict drawn from these two values. *)
Theorem analysis_by_position
  (chi2_contingency : table -> result float)
  (multipletests : list float -> float -> correction -> result (list float))
  (df : DataFrame) (out : list (CorrectedResult * verdict)) :
  analyze_version_differences_v2 chi2_contingency multipletests df = Ok out ->
  map (fun x => question (tested (fst x))) out = FEEDBACK_FORM_QUESTIONS /\
  exists p_bonferroni q_fdr,
    let raw_p_values := map (fun x => p_raw (tested (fst x))) out in
    multipletests raw_p_values 0.05%float Bonferroni = Ok p_bonferroni /\
    multipletests raw_p_values 0.05%float FdrBh = Ok q_fdr /\
    forall i x,
      nth_error out i = Some x ->
      tested (fst x)
      = kept df (question (tested (fst x))) (p_raw (tested (fst x))) /\
      chi2_contingency (table_of df (question (tested (fst x))))
      = Ok (p_raw (tested (fst x))) /\
      nth_error p_bonferroni i = Some (FeedbackStats.p_bonferroni (fst x)) /\
      nth_error q_fdr i = Some (FeedbackStats.q_fdr (fst x)) /\
      snd x = verdict_of (fst x).
Proof.
  intro H. unfold analyze_version_differences_v2 in H.
  destruct (run_tests chi2_contingency df FEEDBACK_FORM_QUESTIONS)
    as [results | e] eqn:Et; [ | discriminate].
  simpl in H.
  destruct (multipletests (map p_raw results) 0.05%float Bonferroni)
    as [pb | e] eqn:Eb; [ | discriminate].
  simpl in H.
  destruct (multipletests (map p_raw results) 0.05%float FdrBh)
    as [q | e] eqn:Eq; [ | discriminate].
  simpl in H.
  destruct (report_inv results pb q out H) as (M & Hpos).
  apply run_tests_Ok in Et.
  assert (Eraw : map (fun x => p_raw (tested (fst x))) out = map p_raw results).
  { rewrite <- M, map_map. reflexivity. }
  split.
  - rewrite <- (map_map (fun x => tested (fst x)) question), M.
    clear -Et. induction Et as [ | q0 res qs rs [_ Hres] _ IH]; simpl.
    + reflexivity.
    + rewrite IH, Hres. reflexivity.
  - exists pb, q. cbv zeta. rewrite Eraw.
    split; [exact Eb | split; [exact Eq | ]].
    intros i x Hx. destruct (Hpos i x Hx) as (Hpb & Hq & Hv).
    assert (Hin : In (tested (fst x)) results).
    { rewrite <- M.
      apply (in_map (fun y : CorrectedResult * verdict => tested (fst y))).
      apply nth_error_In with i, Hx. }
    assert (Hk : forall res, In res results ->
                   res = kept df (question res) (p_raw res) /\
                   chi2_contingency (table_of df (question res))
                   = Ok (p_raw res)).
    { clear -Et. induction Et as [ | q0 res0 qs rs [Hp Hres] _ IH];
        intros res Hr; [contradiction | ].
      destruct Hr as [<- | Hr]; [ | apply IH, Hr].
      assert (Eq0 : question res0 = q0) by (rewrite Hres; reflexivity).
      rewrite Eq0. split; assumption. }
    destruct (Hk _ Hin) as [Hkept Hchi].
    repeat split; assumption.
Qed.

(** On the eight sample responses the four questions have four
    different tables, raw values and adjusted values, and the three
    verdicts occur; the fourth entry holds the table of the fourth
    question and the fourth value of each array. *)
Lemma analysis_by_position_witness :
  exists out,
    analyze_version_differences_v2 FeedbackExamples.share_of_first_cell
      FeedbackExamples.scaled FeedbackExamples.responses
    = Ok out /\
    map (fun x => (tbl_columns (counts_table (tested (fst x))),
                   tbl_counts (counts_table (tested (fst x))))) out
    = [ (["Not at all"; "Somewhat"; "Very"], [[1; 1; 2]; [0; 2; 1]]);
        (["No"; "Yes"], [[3; 1]; [2; 2]]);
        (["No"; "Yes"], [[2; 2]; [3; 0]]);
        (["No"; "Yes"], [[0; 4]; [1; 3]]) ]%string%Z /\
    map (fun x => (p_raw (tested (fst x)), p_bonferroni (fst x),
                   q_fdr (fst x), snd x)) out
    = [ (0.014285714285714285, 0.057142857142857141, 0.028571428571428571,
         SignificantFDR);
        (0.037499999999999999, 0.14999999999999999, 0.074999999999999997,
         NotSignificant);
        (0.028571428571428571, 0.11428571428571428, 0.057142857142857141,
         NotSignificant);
        (0, 0, 0, SignificantBonferroni) ]%float /\
    map (fun x => question (tested (fst x))) out = FEEDBACK_FORM_QUESTIONS /\
    exists p_bonferroni q_fdr,
      FeedbackExamples.scaled (map (fun x => p_raw (tested (fst x))) out)
        0.05%float Bonferroni = Ok p_bonferroni /\
      FeedbackExamples.scaled (map (fun x => p_raw (tested (fst x))) out)
        0.05%float FdrBh = Ok q_fdr /\
      forall x,
        nth_error out 3 = Some x ->
        tested (fst x)
        = kept FeedbackExamples.responses
            "Does the evidence presented support the claims?"
            (p_raw (tested (fst x))) /\
        nth_error p_bonferroni 3 = Some (FeedbackStats.p_bonferroni (fst x)) /\
        nth_error q_fdr 3 = Some (FeedbackStats.q_fdr (fst x)) /\
        snd x = verdict_of (fst x).
Proof.
  destruct (analyze_version_differences_v2
              FeedbackExamples.share_of_first_cell FeedbackExamples.scaled
              FeedbackExamples.responses) as [out | e] eqn:E;
    [ | vm_compute in E; discriminate].
  exists out. split; [reflexivity | ].
  destruct (analysis_by_position _ _ _ _ E)
    as (Hq & p_bonferroni & q_fdr & Hb & Hf & Hpos).
  assert (Eout := E). vm_compute in Eout. injection Eout as Eout.
  split; [rewrite <- Eout; vm_compute; reflexivity | ].
  split; [rewrite <- Eout; vm_compute; reflexivity | ].
  split; [exact Hq | ].
  exists p_bonferroni, q_fdr.
  split; [exact Hb | split; [exact Hf | ]].
  intros x Hx. destruct (Hpos 3%nat x Hx) as (Hk & _ & Hpb & Hqf & Hv).
  assert (Eq3 : question (tested (fst x))
                = "Does the evidence presented support the claims?"%string).
  { rewrite <- Eout in Hx. vm_compute in Hx. injection Hx as <-.
    reflexivity. }
  rewrite Eq3 in Hk.
  repeat split; assumption.
Defined.

End FeedbackExtras.

(** * The cross-tabulation *)

Module CrosstabFacts.

Import Py FeedbackStats FeedbackTerms FeedbackFacts.

(** ** Labels *)

Lemma fold_insert_In (x : string) (l : list string) :
  In x (fold_right insert_label [] l) <-> In x l.
Proof.
  induction l as [ | t l IH]; simpl; [reflexivity | ].
  rewrite insert_label_In, IH. intuition congruence.
Qed.

Lemma insert_label_NoDup (s : string) (l : list string) :
  NoDup l -> ~ In s l -> NoDup (insert_label s l).
Proof.
  induction l as [ | t l IH]; simpl; intros ND Hs.
  - constructor; [intros [] | constructor].
  - destruct (String.leb s t).
    + constructor; [exact Hs | exact ND].
    + inversion ND as [ | ? ? Ht ND']; subst. constructor.
      * rewrite insert_label_In. intros [E | H]; [ | contradiction].
        apply Hs. left. congruence.
      * apply IH; [exact ND' | ]. intro H. apply Hs. right. exact H.
Qed.

Lemma labels_NoDup (l : list string) : NoDup (labels l).
Proof.
  unfold labels.
  pose proof (NoDup_nodup string_dec l) as ND.
  induction ND as [ | x m Hx ND IH]; simpl; [constructor | ].
  apply insert_label_NoDup; [exact IH | ].
  rewrite fold_insert_In. exact Hx.
Qed.

(** ** Totals *)

Lemma Zsum_add {A : Type} (f h : A -> Z) (l : list A) :
  Zsum (map (fun x => f x + h x)%Z l)
  = (Zsum (map f l) + Zsum (map h l))%Z.
Proof.
  induction l as [ | x l IH]; simpl; [reflexivity | ].
  unfold Zsum in *; simpl. rewrite IH. lia.
Qed.

Lemma Zsum_zero {A : Type} (l : list A) :
  Zsum (map (fun _ => 0%Z) l) = 0%Z.
Proof. induction l as [ | x l IH]; simpl; [reflexivity | exact IH]. Qed.

Lemma Zsum_ext {A : Type} (f h : A -> Z) (l : list A) :
  (forall x, In x l -> f x = h x) -> Zsum (map f l) = Zsum (map h l).
Proof. intro H. f_equal. apply map_ext_in, H. Qed.

(** One record falls into exactly one label of a duplicate-free axis. *)
Lemma Zsum_indicator (x : string) (l : list string) :
  NoDup l -> In x l ->
  Zsum (map (fun y => if String.eqb y x then 1 else 0)%Z l) = 1%Z.
Proof.
  induction 1 as [ | y l Hy ND IH]; intro Hin; [contradiction | ].
  simpl. unfold Zsum in *; simpl.
  destruct (String.eqb_spec y x) as [-> | Hne].
  - rewrite (Zsum_ext _ (fun _ => 0%Z)).
    + fold (Zsum (map (fun _ : string => 0%Z) l)). rewrite Zsum_zero. lia.
    + intros z Hz. destruct (String.eqb_spec z x) as [-> | _];
        [contradiction | reflexivity].
  - destruct Hin as [E | Hin]; [congruence | ].
    rewrite (IH Hin). lia.
Qed.

Lemma count_pair_cons (p : string * string) (pairs : list (string * string))
  (g a : string) :
  count_pair (p :: pairs) g a
  = ((if String.eqb g (fst p) && String.eqb a (snd p) then 1 else 0)
     + count_pair pairs g a)%Z.
Proof.
  unfold count_pair. cbn [filter]. unfold pair_eqb at 1. cbn [fst snd].
  destruct (String.eqb g (fst p) && String.eqb a (snd p));
    [cbn [List.length]; rewrite Nat2Z.inj_succ; lia | lia].
Qed.

Lemma grand_total (pairs : list (string * string))
  (rows cols : list string) :
  NoDup rows -> NoDup cols ->
  (forall g a, In (g, a) pairs -> In g rows /\ In a cols) ->
  Zsum (map (fun g => Zsum (map (count_pair pairs g) cols)) rows)
  = Z.of_nat (List.length pairs).
Proof.
  intros NDr NDc. induction pairs as [ | [g0 a0] pairs IH]; intro Hin.
  - rewrite (Zsum_ext _ (fun _ => 0%Z)); [apply Zsum_zero | ].
    intros g _. apply Zsum_zero.
  - destruct (Hin g0 a0 (or_introl eq_refl)) as [Hg Ha].
    rewrite (Zsum_ext _ (fun g =>
               (if String.eqb g g0 then 1 else 0)
               + Zsum (map (count_pair pairs g) cols))%Z).
    + rewrite Zsum_add, IH, (Zsum_indicator g0 rows NDr Hg).
      * simpl List.length. lia.
      * intros g a H. apply Hin. right. exact H.
    + intros g _.
      rewrite (Zsum_ext _ (fun a =>
                 (if String.eqb g g0 && String.eqb a a0 then 1 else 0)
                 + count_pair pairs g a)%Z)
        by (intros a _; apply count_pair_cons).
      rewrite Zsum_add. f_equal.
      destruct (String.eqb g g0); simpl.
      * apply Zsum_indicator; assumption.
      * apply Zsum_zero.
Qed.

Lemma Zsum_swap {A B : Type} (F : A -> B -> Z) (rows : list A)
  (cols : list B) :
  Zsum (map (fun a => Zsum (map (fun g => F g a) rows)) cols)
  = Zsum (map (fun g => Zsum (map (F g) cols)) rows).
Proof.
  induction cols as [ | a cols IH]; simpl.
  - symmetry. apply Zsum_zero.
  - unfold Zsum at 1; simpl. fold (Zsum (map (fun a0 => Zsum (map (fun g => F g a0) rows)) cols)).
    rewrite IH.
    rewrite <- Zsum_add. apply Zsum_ext. intros g _. reflexivity.
Qed.

Lemma map_nth_seq {A B : Type} (F : A -> B) (l : list A) (d : A) :
  map (fun j => F (nth j l d)) (seq 0 (List.length l)) = map F l.
Proof.
  rewrite <- (map_map (fun j => nth j l d) F). f_equal.
  apply nth_ext with (d := d) (d' := d).
  - rewrite length_map, length_seq. reflexivity.
  - intros n Hn. rewrite length_map, length_seq in Hn.
    rewrite (nth_indep _ d (nth 0 l d)) by (rewrite length_map, length_seq; exact Hn).
    rewrite (map_nth (fun j => nth j l d)), seq_nth by exact Hn.
    reflexivity.
Qed.

Lemma col_sums_by_label (index columns : column) :
  let pairs := valid_pairs index columns in
  col_sums (crosstab index columns)
  = map (fun a => Zsum (map (fun g => count_pair pairs g a)
                            (labels (map fst pairs))))
        (labels (map snd pairs)).
Proof.
  intro pairs. unfold col_sums, crosstab; simpl. fold pairs.
  set (cols := labels (map snd pairs)).
  set (rows := labels (map fst pairs)).
  rewrite <- (map_nth_seq
                (fun a => Zsum (map (fun g => count_pair pairs g a) rows))
                cols ""%string).
  apply map_ext_in. intros j Hj. apply in_seq in Hj.
  rewrite map_map. apply Zsum_ext. intros g _.
  rewrite (nth_indep _ 0%Z (count_pair pairs g ""%string))
    by (rewrite length_map; lia).
  apply map_nth.
Qed.

Lemma pairs_in_labels (index columns : column) (g a : string) :
  In (g, a) (valid_pairs index columns) ->
  In g (labels (map fst (valid_pairs index columns))) /\
  In a (labels (map snd (valid_pairs index columns))).
Proof.
  intro H. rewrite !labels_In. split.
  - change g with (fst (g, a)). apply in_map, H.
  - change a with (snd (g, a)). apply in_map, H.
Qed.

(** X9: the counts of a cross-tabulation add up, by rows and by columns,
    to the number of records that have both entries: the N the report
    prints for a question is the number of respondents whose version and
    answer are both present, each counted once. *)
Theorem crosstab_total (index columns : column) :
  let t := crosstab index columns in
  let n := Z.of_nat (List.length (valid_pairs index columns)) in
  Zsum (row_sums t) = n /\
  Zsum (col_sums t) = n /\
  Zsum (map Zsum (tbl_counts t)) = n.
Proof.
  intros t n.
  assert (R : Zsum (row_sums t) = n).
  { unfold row_sums, t, crosstab; simpl. rewrite map_map.
    apply grand_total; [apply labels_NoDup | apply labels_NoDup | ].
    apply pairs_in_labels. }
  split; [exact R | split; [ | exact R]].
  unfold t. rewrite col_sums_by_label. cbv zeta.
  rewrite (Zsum_swap (count_pair (valid_pairs index columns))).
  apply grand_total; [apply labels_NoDup | apply labels_NoDup | ].
  apply pairs_in_labels.
Qed.

End CrosstabFacts.

(** * comment_impacts.py: grouping and ordering the impacts *)

Module CommentImpactsFacts.

Import Py CommentImpacts.

Lemma contains_In (l : list string) (x : string) :
  contains l x = true <-> In x l.
Proof.
  unfold contains. rewrite existsb_exists. split.
  - intros (y & Hy & E). apply String.eqb_eq in E. subst y. exact Hy.
  - intro H. exists x. split; [exact H | apply String.eqb_refl].
Qed.

Lemma contains_ext (l l' : list string) (x : string) :
  (In x l <-> In x l') -> contains l x = contains l' x.
Proof.
  intro H. destruct (contains l x) eqn:E, (contains l' x) eqn:E';
    try reflexivity.
  - apply contains_In, H, contains_In in E. congruence.
  - apply contains_In, H, contains_In in E'. congruence.
Qed.

Lemma with_impact_same (r : impact_row) : with_impact r (Impact r) = r.
Proof. destruct r; reflexivity. Qed.

(** ** Grouping by threshold *)

Lemma group_threshold_eq (impact_counts : list impact_row) (threshold : Z)
  (other_impacts : option (list string)) :
  group_other_impacts impact_counts "threshold" (Some threshold) other_impacts
  = Ok (map (regroup impact_counts threshold) impact_counts).
Proof. reflexivity. Qed.

Lemma common_iff (impact_counts : list impact_row) (threshold : Z)
  (i : string) :
  contains (common impact_counts threshold) i = true <->
  In i (map Impact impact_counts) /\
  (threshold <= total_count impact_counts i)%Z.
Proof.
  rewrite contains_In. unfold common. rewrite filter_In.
  rewrite FeedbackFacts.labels_In, Z.leb_le. reflexivity.
Qed.

Lemma regroup_Count ic t r : Count (regroup ic t r) = Count r.
Proof. unfold regroup. destruct (contains _ _); reflexivity. Qed.

Lemma regroup_version ic t r :
  Publishing_version (regroup ic t r) = Publishing_version r.
Proof. unfold regroup. destruct (contains _ _); reflexivity. Qed.

(** A row that still has a name other than "Other" kept its own name,
    and that name is common. *)
Lemma regroup_named ic t r :
  Impact (regroup ic t r) <> "Other"%string ->
  regroup ic t r = r /\ contains (common ic t) (Impact r) = true.
Proof.
  unfold regroup. destruct (contains (common ic t) (Impact r)).
  - intros _. split; reflexivity.
  - simpl. congruence.
Qed.

(** The total of a common impact with a name of its own is untouched. *)
Lemma total_count_regroup ic t (i : string) (l : list impact_row) :
  i <> "Other"%string ->
  contains (common ic t) i = true ->
  total_count (map (regroup ic t) l) i = total_count l i.
Proof.
  intros Hi Hc. unfold total_count. f_equal.
  induction l as [ | r l IH]; [reflexivity | ]. simpl.
  assert (E : String.eqb (Impact (regroup ic t r)) i
              = String.eqb (Impact r) i).
  { unfold regroup.
    destruct (contains (common ic t) (Impact r)) eqn:Er; [reflexivity | ].
    change (Impact (with_impact r "Other")) with "Other"%string.
    destruct (String.eqb_spec "Other" i) as [E | _]; [congruence | ].
    destruct (String.eqb_spec (Impact r) i) as [E | _];
      [congruence | reflexivity]. }
  rewrite E. destruct (String.eqb (Impact r) i); simpl.
  - rewrite regroup_Count, IH. reflexivity.
  - exact IH.
Qed.

(** X11: grouping by threshold only renames.  Every row keeps its
    version and its count; after it, every impact with a name other than
    "Other" has a total count, over both versions, of at least the
    threshold; and grouping again changes nothing. *)
Theorem group_by_threshold (impact_counts : list impact_row) (threshold : Z)
  (other_impacts : option (list string)) :
  exists grouped,
    group_other_impacts impact_counts "threshold" (Some threshold)
      other_impacts = Ok grouped /\
    map Count grouped = map Count impact_counts /\
    map Publishing_version grouped = map Publishing_version impact_counts /\
    (forall r, In r grouped -> Impact r <> "Other"%string ->
               (threshold <= total_count grouped (Impact r))%Z) /\
    group_other_impacts grouped "threshold" (Some threshold) other_impacts
    = Ok grouped.
Proof.
  exists (map (regroup impact_counts threshold) impact_counts).
  split; [apply group_threshold_eq | ].
  assert (Named : forall r,
             In r (map (regroup impact_counts threshold) impact_counts) ->
             Impact r <> "Other"%string ->
             (threshold
              <= total_count (map (regroup impact_counts threshold)
                                  impact_counts) (Impact r))%Z).
  { intros r' Hr' Hn. apply in_map_iff in Hr'. destruct Hr' as (r & <- & Hr).
    destruct (regroup_named _ _ _ Hn) as [E Hc]. rewrite E in *.
    rewrite total_count_regroup by assumption.
    apply common_iff in Hc. apply Hc. }
  split; [ | split; [ | split; [exact Named | ]]].
  - rewrite map_map. apply map_ext. intro r. apply regroup_Count.
  - rewrite map_map. apply map_ext. intro r. apply regroup_version.
  - rewrite group_threshold_eq. f_equal.
    rewrite <- (map_id (map (regroup impact_counts threshold) impact_counts))
      at 3.
    apply map_ext_in. intros r' Hr'. unfold regroup at 1.
    destruct (contains _ (Impact r')) eqn:Ec; [reflexivity | ].
    destruct (String.eqb_spec (Impact r') "Other") as [E | Hn].
    + rewrite <- E. apply with_impact_same.
    + exfalso.
      assert (Hc : contains
                     (common (map (regroup impact_counts threshold)
                                  impact_counts) threshold)
                     (Impact r') = true).
      { apply common_iff. split; [apply in_map, Hr' | ].
        apply Named; assumption. }
      congruence.
Qed.

(** ** Grouping by hand *)

(** X12: grouping by a given list only renames, too.  Every row keeps its
    version and its count; no impact of the list keeps its name (unless
    it is "Other"); impacts outside the list are left alone; and grouping
    again changes nothing. *)
Theorem group_manually (impact_counts : list impact_row)
  (threshold : option Z) (other_impacts : list string) :
  exists grouped,
    group_other_impacts impact_counts "manual" threshold (Some other_impacts)
    = Ok grouped /\
    map Count grouped = map Count impact_counts /\
    map Publishing_version grouped = map Publishing_version impact_counts /\
    (forall r, In r grouped -> In (Impact r) other_impacts ->
               Impact r = "Other"%string) /\
    (forall r, In r impact_counts -> ~ In (Impact r) other_impacts ->
               In r grouped) /\
    group_other_impacts grouped "manual" threshold (Some other_impacts)
    = Ok grouped.
Proof.
  set (f := fun r => if contains other_impacts (Impact r)
                     then with_impact r "Other" else r).
  exists (map f impact_counts).
  split; [reflexivity | ].
  split; [ | split; [ | split; [ | split]]].
  - rewrite map_map. apply map_ext. intro r. unfold f.
    destruct (contains _ _); reflexivity.
  - rewrite map_map. apply map_ext. intro r. unfold f.
    destruct (contains _ _); reflexivity.
  - intros r' Hr' Hin. apply in_map_iff in Hr'. destruct Hr' as (r & <- & _).
    unfold f in *. destruct (contains other_impacts (Impact r)) eqn:E.
    + reflexivity.
    + apply contains_In in Hin. congruence.
  - intros r Hr Hn. apply in_map_iff. exists r. split; [ | exact Hr].
    unfold f. destruct (contains other_impacts (Impact r)) eqn:E;
      [apply contains_In in E; contradiction | reflexivity].
  - change (Ok (map f (map f impact_counts)) = Ok (map f impact_counts)).
    f_equal. rewrite map_map. apply map_ext. intro r. unfold f.
    destruct (contains other_impacts (Impact r)) eqn:E.
    + change (Impact (with_impact r "Other")) with "Other"%string.
      destruct (contains other_impacts "Other"); [ | reflexivity].
      destruct r; reflexivity.
    + rewrite E. reflexivity.
Qed.

(** ** Ordering the impacts *)

Lemma SFcompare_antisym (a b : spec_float) :
  SFcompare b a = option_map CompOpp (SFcompare a b).
Proof.
  destruct a as [ [ | ] | [ | ] | | [ | ] m1 e1],
           b as [ [ | ] | [ | ] | | [ | ] m2 e2]; try reflexivity;
    simpl; f_equal; rewrite (Z.compare_antisym e1 e2);
    destruct (e1 ?= e2)%Z; simpl; try reflexivity;
    rewrite (Pos.compare_cont_antisym m1 m2 Eq); simpl;
    rewrite ?CompOpp_involutive; reflexivity.
Qed.

(** Of two percentages, one is at most the other unless one of them is
    NaN. *)
Lemma leb_false (x y : float) :
  (x <=? y)%float = false -> is_nan x = false ->
  ((y <=? x) || is_nan y)%float = true.
Proof.
  unfold is_nan. rewrite !FloatAxioms.leb_spec, !FloatAxioms.eqb_spec.
  unfold SFleb, SFeqb. rewrite (SFcompare_antisym (Prim2SF x) (Prim2SF y)).
  destruct (Prim2SF x) as [sx | sx | | sx mx ex] eqn:Ex;
    try (simpl; discriminate);
    destruct (Prim2SF y) as [sy | sy | | sy my ey] eqn:Ey;
    try reflexivity;
    rewrite !FloatFacts.SFcompare_refl by discriminate;
    (destruct (SFcompare _ _) as [ [ | | ] | ] eqn:Ec;
     [discriminate | discriminate | reflexivity | simpl in Ec; discriminate]).
Qed.

Lemma insert_desc_HdRel (y r : impact_row) (l : list impact_row) :
  before y r -> HdRel before y l -> HdRel before y (insert_desc r l).
Proof.
  intros Hr Hl. destruct l as [ | z l']; simpl.
  - constructor. exact Hr.
  - destruct (_ || _)%bool; constructor; [exact Hr | ].
    inversion Hl; assumption.
Qed.

Lemma insert_desc_Sorted (r : impact_row) (l : list impact_row) :
  Sorted before l -> Sorted before (insert_desc r l).
Proof.
  induction l as [ | y l' IH]; intro Hs; simpl.
  - repeat constructor.
  - destruct ((Percentage y <=? Percentage r) || is_nan (Percentage y))%float
      eqn:E.
    + constructor; [exact Hs | constructor; exact E].
    + apply Bool.orb_false_elim in E. destruct E as [E1 E2].
      inversion Hs as [ | ? ? Hs' Hd]; subst.
      constructor; [apply IH, Hs' | ].
      apply insert_desc_HdRel; [ | exact Hd].
      apply leb_false; assumption.
Qed.

Lemma sort_values_desc_Sorted (l : list impact_row) :
  Sorted before (sort_values_desc l).
Proof.
  induction l as [ | r l IH]; simpl; [constructor | ].
  apply insert_desc_Sorted, IH.
Qed.

Lemma insert_desc_perm (r : impact_row) (l : list impact_row) :
  Permutation (insert_desc r l) (r :: l).
Proof.
  induction l as [ | y l' IH]; simpl; [reflexivity | ].
  destruct (_ || _)%bool; [reflexivity | ].
  rewrite IH. apply perm_swap.
Qed.

Lemma sort_values_desc_perm (l : list impact_row) :
  Permutation (sort_values_desc l) l.
Proof.
  induction l as [ | r l IH]; simpl; [reflexivity | ].
  rewrite insert_desc_perm, IH. reflexivity.
Qed.

Lemma remove_first_perm (x : string) (l : list string) :
  In x l -> Permutation (remove_first x l ++ [x]) l.
Proof.
  induction l as [ | y l' IH]; simpl; [contradiction | ].
  intro H. destruct (String.eqb_spec y x) as [-> | Hn].
  - symmetry. apply Permutation_cons_append.
  - destruct H as [H | H]; [congruence | ].
    simpl. apply perm_skip, IH, H.
Qed.

Lemma remove_first_absent (x : string) (l : list string) :
  ~ In x l -> filter (fun y => negb (String.eqb y x)) l = l.
Proof.
  induction l as [ | y l' IH]; simpl; [reflexivity | ].
  intro H. destruct (String.eqb_spec y x) as [-> | Hn]; simpl.
  - exfalso. apply H. left. reflexivity.
  - f_equal. apply IH. intro H'. apply H. right. exact H'.
Qed.

(** In a list without repetition, [remove] leaves the other names in
    their order. *)
Lemma remove_first_filter (x : string) (l : list string) :
  NoDup l -> remove_first x l = filter (fun y => negb (String.eqb y x)) l.
Proof.
  induction 1 as [ | y l' Hy Hl IH]; simpl; [reflexivity | ].
  destruct (String.eqb_spec y x) as [-> | Hn]; simpl.
  - symmetry. apply remove_first_absent, Hy.
  - f_equal. exact IH.
Qed.

Lemma all_distinct_NoDup (l : list string) :
  all_distinct l = true <-> NoDup l.
Proof.
  induction l as [ | x l IH]; simpl.
  - split; [constructor | reflexivity].
  - rewrite Bool.andb_true_iff, Bool.negb_true_iff, IH.
    rewrite <- Bool.not_true_iff_false, contains_In. split.
    + intros [H1 H2]. constructor; assumption.
    + intro H. inversion H. split; assumption.
Qed.

Lemma combine_map_self {A B : Type} (f : A -> B) (l : list A) :
  combine (map f l) l = map (fun x => (f x, x)) l.
Proof. induction l as [ | x l IH]; simpl; [ | rewrite IH]; reflexivity. Qed.

Lemma set_impact_order_eq (impact_counts : list impact_row)
  (sort_version other_position : string) :
  set_impact_order impact_counts sort_version other_position =
  match version_of sort_version with
  | None => Raise ValueError
  | Some v =>
      match place_other other_position
              (map Impact (sort_values_desc (of_version v impact_counts)))
      with
      | None => Raise ValueError
      | Some order =>
          if all_distinct order
          then Ok {| categories := order;
                     ordered_rows := map (as_category order) impact_counts |}
          else Raise ValueError
      end
  end.
Proof.
  unfold set_impact_order, version_of, place_other.
  assert (Cat : forall order,
             (impacts <- Categorical (map Impact impact_counts) order ;;
              Ok {| categories := order;
                    ordered_rows := combine impacts impact_counts |})
             = if all_distinct order
               then Ok {| categories := order;
                          ordered_rows :=
                            map (as_category order) impact_counts |}
               else Raise ValueError).
  { intro order. unfold Categorical.
    destruct (all_distinct order); [ | reflexivity]. simpl.
    rewrite map_map, combine_map_self. reflexivity. }
  assert (Ver : forall v,
             (impact_order <-
                (if String.eqb other_position "end" then
                   if contains
                        (map Impact (sort_values_desc (of_version v impact_counts)))
                        "Other" then
                     removed <-
                       list_remove
                         (map Impact
                              (sort_values_desc (of_version v impact_counts)))
                         "Other" ;;
                     Ok (removed ++ ["Other"%string])
                   else Ok (map Impact
                                (sort_values_desc (of_version v impact_counts)))
                 else if negb (String.eqb other_position "natural")
                      then Raise ValueError
                      else Ok (map Impact
                                   (sort_values_desc
                                      (of_version v impact_counts)))) ;;
              impacts <- Categorical (map Impact impact_counts) impact_order ;;
              Ok {| categories := impact_order;
                    ordered_rows := combine impacts impact_counts |})
             = match (if String.eqb other_position "end" then
                        Some (if contains
                                   (map Impact
                                        (sort_values_desc
                                           (of_version v impact_counts)))
                                   "Other"
                              then remove_first "Other"
                                     (map Impact
                                          (sort_values_desc
                                             (of_version v impact_counts)))
                                   ++ ["Other"%string]
                              else map Impact
                                     (sort_values_desc
                                        (of_version v impact_counts)))
                      else if String.eqb other_position "natural"
                           then Some (map Impact
                                          (sort_values_desc
                                             (of_version v impact_counts)))
                           else None)
               with
               | None => Raise ValueError
               | Some order =>
                   if all_distinct order
                   then Ok {| categories := order;
                              ordered_rows :=
                                map (as_category order) impact_counts |}
                   else Raise ValueError
               end).
  { intro v. destruct (String.eqb other_position "end").
    - unfold list_remove.
      destruct (contains _ "Other"); simpl; apply Cat.
    - destruct (String.eqb other_position "natural"); simpl;
        [apply Cat | reflexivity]. }
  destruct (String.eqb sort_version "v1"); [apply Ver | ].
  destruct (String.eqb sort_version "v2"); [apply Ver | reflexivity].
Qed.

Lemma place_other_perm (other_position : string) (names order : list string) :
  place_other other_position names = Some order -> Permutation order names.
Proof.
  unfold place_other. destruct (String.eqb other_position "end").
  - intro H. injection H as <-. destruct (contains names "Other") eqn:E.
    + apply remove_first_perm, contains_In, E.
    + reflexivity.
  - destruct (String.eqb other_position "natural"); [ | discriminate].
    intro H. injection H as <-. reflexivity.
Qed.

Lemma of_version_names_perm (v : string) (impact_counts : list impact_row) :
  Permutation (map Impact (sort_values_desc (of_version v impact_counts)))
              (map Impact (of_version v impact_counts)).
Proof. apply Permutation_map, sort_values_desc_perm. Qed.

(** X13: what [set_impact_order] returns.  The categories are the impacts
    of the rows of the sorting version, each once, in the order of
    descending percentage (NaN last), with "Other" moved to the end when
    that is asked for; every row is kept, and its impact becomes missing
    exactly when no row of the sorting version has it. *)
Theorem impact_order_result (impact_counts : list impact_row)
  (sort_version other_position : string) (oc : ordered_counts) :
  set_impact_order impact_counts sort_version other_position = Ok oc ->
  exists v sorted,
    (sort_version = "v1"%string /\ v = "v1.0"%string \/
     sort_version = "v2"%string /\ v = "v2.0"%string) /\
    Permutation sorted (of_version v impact_counts) /\
    Sorted before sorted /\
    NoDup (map Impact sorted) /\
    categories oc =
      (if String.eqb other_position "end"
          && contains (map Impact sorted) "Other"
       then filter (fun i => negb (String.eqb i "Other")) (map Impact sorted)
            ++ ["Other"%string]
       else map Impact sorted) /\
    ordered_rows oc =
      map (as_category (map Impact (of_version v impact_counts)))
          impact_counts.
Proof.
  rewrite set_impact_order_eq.
  destruct (version_of sort_version) as [v | ] eqn:Ev; [ | discriminate].
  set (sorted := sort_values_desc (of_version v impact_counts)).
  destruct (place_other other_position (map Impact sorted)) as [order | ]
    eqn:Eo; [ | discriminate].
  destruct (all_distinct order) eqn:Ed; [ | discriminate].
  intro H. injection H as <-. simpl.
  apply all_distinct_NoDup in Ed.
  pose proof (place_other_perm _ _ _ Eo) as Hp.
  assert (Hn : NoDup (map Impact sorted)).
  { apply (Permutation_NoDup Hp), Ed. }
  exists v, sorted.
  split; [ | split; [apply sort_values_desc_perm | split;
    [apply sort_values_desc_Sorted | split; [exact Hn | split]]]].
  - unfold version_of in Ev.
    destruct (String.eqb_spec sort_version "v1") as [-> | _].
    + left. split; [reflexivity | congruence].
    + destruct (String.eqb_spec sort_version "v2") as [-> | _];
        [ | discriminate].
      right. split; [reflexivity | congruence].
  - unfold place_other in Eo.
    destruct (String.eqb other_position "end"); simpl.
    + injection Eo as <-.
      destruct (contains (map Impact sorted) "Other"); [ | reflexivity].
      rewrite (remove_first_filter _ _ Hn). reflexivity.
    + destruct (String.eqb other_position "natural"); [ | discriminate].
      congruence.
  - apply map_ext. intro r. unfold as_category. f_equal.
    rewrite (contains_ext order (map Impact (of_version v impact_counts)));
      [reflexivity | ].
    pose proof (of_version_names_perm v impact_counts) as Hq.
    fold sorted in Hq. split; intro Hi.
    + apply (Permutation_in _ Hq), (Permutation_in _ Hp), Hi.
    + apply (Permutation_in _ (Permutation_sym Hp)),
        (Permutation_in _ (Permutation_sym Hq)), Hi.
Qed.

Lemma impact_order_result_witness :
  exists oc,
    set_impact_order sample_counts "v1" "end" = Ok oc /\
    categories oc
    = ["No real impact"; "Typo/small error"; "Other"]%string /\
    map fst (ordered_rows oc)
    = [Some "No real impact"; Some "Other"; Some "Typo/small error";
       Some "No real impact"; None]%string.
Proof.
  destruct (set_impact_order sample_counts "v1" "end") as [oc | e] eqn:E;
    [ | vm_compute in E; discriminate].
  exists oc. split; [reflexivity | ].
  destruct (impact_order_result _ _ _ _ E)
    as (v & sorted & Hv & _ & _ & _ & _ & Hr).
  assert (v = "v1.0"%string) as ->.
  { destruct Hv as [[_ Hv] | [Hv _]]; [exact Hv | discriminate]. }
  rewrite Hr. vm_compute in E. injection E as <-. split; reflexivity.
Defined.

(** X14: [set_impact_order] fails exactly when the sorting version or the
    position of "Other" is not one of the two it knows, or when two rows
    of the sorting version have the same impact; the fault is then a
    [ValueError]. *)
Theorem impact_order_raises (impact_counts : list impact_row)
  (sort_version other_position : string) :
  (set_impact_order impact_counts sort_version other_position
   = Raise ValueError
   <->
   version_of sort_version = None \/
   (other_position <> "end" /\ other_position <> "natural")%string \/
   exists v, version_of sort_version = Some v /\
             ~ NoDup (map Impact (of_version v impact_counts))) /\
  (forall e,
      set_impact_order impact_counts sort_version other_position = Raise e ->
      e = ValueError).
Proof.
  rewrite set_impact_order_eq. split.
  - destruct (version_of sort_version) as [v | ] eqn:Ev.
    2:{ split; [intros _; left; reflexivity | reflexivity]. }
    destruct (place_other other_position
                (map Impact (sort_values_desc (of_version v impact_counts))))
      as [order | ] eqn:Eo.
    + pose proof (place_other_perm _ _ _ Eo) as Hp.
      pose proof (of_version_names_perm v impact_counts) as Hq.
      assert (Hpos : ~ (other_position <> "end" /\
                        other_position <> "natural")%string).
      { unfold place_other in Eo. intros [H1 H2].
        destruct (String.eqb_spec other_position "end"); [contradiction | ].
        destruct (String.eqb_spec other_position "natural");
          [contradiction | discriminate]. }
      destruct (all_distinct order) eqn:Ed.
      * split; [discriminate | ].
        intros [H | [H | (v' & Hv' & H)]];
          [discriminate | contradiction | ].
        injection Hv' as <-. exfalso. apply H.
        apply all_distinct_NoDup in Ed.
        apply (Permutation_NoDup Hq), (Permutation_NoDup Hp), Ed.
      * split; [ | reflexivity]. intros _. right. right.
        exists v. split; [reflexivity | ]. intro Hn.
        apply Bool.not_true_iff_false in Ed. apply Ed.
        apply all_distinct_NoDup.
        apply (Permutation_NoDup (Permutation_sym Hp)),
          (Permutation_NoDup (Permutation_sym Hq)), Hn.
    + split; [ | reflexivity]. intros _. right. left.
      unfold place_other in Eo.
      destruct (String.eqb_spec other_position "end"); [discriminate | ].
      destruct (String.eqb_spec other_position "natural");
        [discriminate | ].
      split; assumption.
  - intro e.
    destruct (version_of sort_version) as [v | ]; [ | congruence].
    destruct (place_other _ _) as [order | ]; [ | congruence].
    destruct (all_distinct order); congruence.
Qed.

End CommentImpactsFacts.

(** * calculate_basic_pub_stats.py: the frequencies of the service requests *)

Module ServiceTypesFacts.

Import ServiceTypes.

(** ** The counter *)

Lemma get_increment (s t : string) (counter : Counter) :
  get (increment s counter) t
  = (get counter t + if String.eqb s t then 1 else 0)%Z.
Proof.
  induction counter as [ | [u c] rest IH]; simpl.
  - destruct (String.eqb s t); reflexivity.
  - destruct (String.eqb_spec u s) as [-> | Hus]; simpl.
    + destruct (String.eqb s t); lia.
    + destruct (String.eqb_spec u t) as [-> | Hut].
      * destruct (String.eqb_spec s t) as [-> | _]; [congruence | lia].
      * exact IH.
Qed.

Lemma well_formed_get_nonneg (counter : Counter) (s : string) :
  well_formed counter -> (0 <= get counter s)%Z.
Proof.
  induction 1 as [ | t c rest Hc Hz Hw IH]; simpl; [lia | ].
  destruct (String.eqb t s); lia.
Qed.

Lemma well_formed_increment (s : string) (counter : Counter) :
  well_formed counter -> well_formed (increment s counter).
Proof.
  induction 1 as [ | t c rest Hc Hz Hw IH]; simpl.
  - constructor; [lia | reflexivity | constructor].
  - destruct (String.eqb_spec t s) as [-> | Hts].
    + constructor; [lia | exact Hz | exact Hw].
    + constructor; [exact Hc | | exact IH].
      rewrite get_increment, Hz.
      destruct (String.eqb_spec s t) as [-> | _]; [congruence | reflexivity].
Qed.

Lemma well_formed_In (counter : Counter) (s : string) (c : Z) :
  well_formed counter ->
  (In (s, c) counter <-> get counter s = c /\ (0 < c)%Z).
Proof.
  induction 1 as [ | t d rest Hd Hz Hw IH]; simpl.
  - split; [contradiction | lia].
  - destruct (String.eqb_spec t s) as [-> | Hts].
    + split.
      * intros [H | H]; [injection H as <-; split; [reflexivity | exact Hd] | ].
        apply IH in H. lia.
      * intros [-> _]. left. reflexivity.
    + rewrite <- IH. split; [ | intro H; right; exact H].
      intros [H | H]; [congruence | exact H].
Qed.

Lemma well_formed_NoDup (counter : Counter) :
  well_formed counter -> NoDup (map fst counter).
Proof.
  induction 1 as [ | t d rest Hd Hz Hw IH]; simpl; constructor.
  - intro Hin. apply in_map_iff in Hin. destruct Hin as ([u c] & Hu & Hin).
    simpl in Hu. subst u. apply (well_formed_In rest t c Hw) in Hin. lia.
  - exact IH.
Qed.

Lemma get_update (counter : Counter) (elems : list string) (t : string) :
  get (update counter elems) t
  = (get counter t + Z.of_nat (count_occ string_dec elems t))%Z.
Proof.
  unfold update. revert counter.
  induction elems as [ | s elems IH]; intro counter; simpl; [lia | ].
  rewrite IH, get_increment.
  destruct (string_dec s t) as [-> | Hn].
  - rewrite String.eqb_refl. lia.
  - destruct (String.eqb_spec s t); [contradiction | lia].
Qed.

Lemma well_formed_update (counter : Counter) (elems : list string) :
  well_formed counter -> well_formed (update counter elems).
Proof.
  unfold update. revert counter.
  induction elems as [ | s elems IH]; intros counter Hw; simpl; [exact Hw | ].
  apply IH, well_formed_increment, Hw.
Qed.

(** ** What is counted *)

Section WithStrip.

Variable strip : string -> string.

Lemma count_occ_unique (services : string) (s : string) :
  Z.of_nat (count_occ string_dec (unique_services strip services) s)
  = if existsb (String.eqb s) (map strip (split_semicolon services))
    then 1%Z else 0%Z.
Proof.
  unfold unique_services.
  set (pieces := map strip (split_semicolon services)).
  pose proof (NoDup_nodup string_dec pieces) as Hn.
  destruct (existsb (String.eqb s) pieces) eqn:E.
  - apply existsb_exists in E. destruct E as (y & Hy & E).
    apply String.eqb_eq in E. subst y.
    apply (nodup_In string_dec) in Hy.
    pose proof (proj1 (NoDup_count_occ string_dec _) Hn s) as Hle.
    apply (count_occ_In string_dec) in Hy. lia.
  - assert (Hnot : ~ In s (nodup string_dec pieces)).
    { intro Hin. apply nodup_In in Hin.
      apply Bool.not_true_iff_false in E. apply E.
      apply existsb_exists. exists s. split; [exact Hin | ].
      apply String.eqb_refl. }
    apply (count_occ_not_In string_dec) in Hnot. rewrite Hnot. reflexivity.
Qed.

Lemma get_step (counter : Counter) (c : request_cell) (s : string) :
  get (step strip counter c) s
  = (get counter s + if mentions strip s c then 1 else 0)%Z.
Proof.
  destruct c as [services | | ]; simpl; try lia.
  destruct (truthy (strip services)); simpl; [ | lia].
  rewrite get_update, count_occ_unique. reflexivity.
Qed.

Lemma well_formed_step (counter : Counter) (c : request_cell) :
  well_formed counter -> well_formed (step strip counter c).
Proof.
  intro Hw. destruct c as [services | | ]; simpl; try exact Hw.
  destruct (truthy (strip services)); [ | exact Hw].
  apply well_formed_update, Hw.
Qed.

Lemma fold_step (column : list request_cell) (counter : Counter) :
  well_formed counter ->
  well_formed (fold_left (step strip) column counter) /\
  forall s, get (fold_left (step strip) column counter) s
            = (get counter s + pubs_mentioning strip s column)%Z.
Proof.
  revert counter. unfold pubs_mentioning.
  induction column as [ | c column IH]; intros counter Hw; simpl.
  - split; [exact Hw | intro s; lia].
  - destruct (IH (step strip counter c) (well_formed_step _ c Hw)) as [Hw' Hg].
    split; [exact Hw' | ]. intro s. rewrite Hg, get_step.
    destruct (mentions strip s c); cbn [List.length];
      rewrite ?Nat2Z.inj_succ; lia.
Qed.

Lemma service_counts_fold (column : list request_cell) :
  service_counts strip column = fold_left (step strip) column [].
Proof. reflexivity. Qed.

Lemma service_counts_well_formed (column : list request_cell) :
  well_formed (service_counts strip column).
Proof. rewrite service_counts_fold. apply fold_step. constructor. Qed.

Lemma service_counts_In (column : list request_cell) (s : string) (c : Z) :
  In (s, c) (service_counts strip column)
  <-> c = pubs_mentioning strip s column /\ (0 < c)%Z.
Proof.
  rewrite (well_formed_In _ s c (service_counts_well_formed column)).
  rewrite service_counts_fold.
  rewrite (proj2 (fold_step column [] wf_nil) s). simpl.
  split; intros [H1 H2]; split; lia.
Qed.

(** ** The order of the lines *)

Lemma insert_sorted_perm (x : string * Z) (l : list (string * Z)) :
  Permutation (insert_sorted x l) (x :: l).
Proof.
  induction l as [ | y l IH]; simpl; [reflexivity | ].
  destruct (key_lt y x); [ | reflexivity].
  rewrite IH. apply perm_swap.
Qed.

Lemma sorted_perm (l : list (string * Z)) : Permutation (sorted l) l.
Proof.
  induction l as [ | x l IH]; simpl; [reflexivity | ].
  rewrite insert_sorted_perm, IH. reflexivity.
Qed.

Lemma key_lt_comes_before (x y : string * Z) :
  key_lt x y = true <-> comes_before x y.
Proof.
  unfold key_lt, comes_before, key, String.ltb. simpl.
  rewrite Bool.orb_true_iff, Bool.andb_true_iff, Z.ltb_lt, Z.eqb_eq.
  destruct (String.compare (fst x) (fst y)); split;
    intros [H | [H1 H2]]; try (left; lia); try discriminate;
    right; split; try reflexivity; lia.
Qed.

Lemma compare_refl (s : string) : String.compare s s = Eq.
Proof.
  pose proof (String.compare_antisym s s) as H.
  destruct (String.compare s s); try reflexivity; discriminate.
Qed.

Lemma compare_Lt_trans (s t u : string) :
  String.compare s t = Lt -> String.compare t u = Lt ->
  String.compare s u = Lt.
Proof.
  intros H1 H2.
  apply OrderedTypeEx.String_as_OT.cmp_lt in H1, H2.
  apply OrderedTypeEx.String_as_OT.cmp_lt.
  exact (OrderedTypeEx.String_as_OT.lt_trans _ _ _ H1 H2).
Qed.

Lemma comes_before_irrefl (x : string * Z) : ~ comes_before x x.
Proof.
  intros [H | [_ H]]; [lia | ]. rewrite compare_refl in H. discriminate.
Qed.

Lemma comes_before_trans (x y z : string * Z) :
  comes_before x y -> comes_before y z -> comes_before x z.
Proof.
  intros [H1 | [E1 H1]] [H2 | [E2 H2]].
  - left. lia.
  - left. lia.
  - left. lia.
  - right. split; [congruence | ]. eapply compare_Lt_trans; eassumption.
Qed.

(** Of two lines with different names one comes before the other. *)
Lemma comes_before_total (x y : string * Z) :
  fst x <> fst y -> comes_before x y \/ comes_before y x.
Proof.
  intro Hn. unfold comes_before.
  destruct (Z.lt_trichotomy (snd x) (snd y)) as [H | [H | H]].
  - right. left. exact H.
  - destruct (String.compare (fst x) (fst y)) eqn:E.
    + apply String.compare_eq_iff in E. contradiction.
    + left. right. split; [exact H | reflexivity].
    + right. right. split; [symmetry; exact H | ].
      rewrite String.compare_antisym, E. reflexivity.
  - left. left. exact H.
Qed.

Lemma insert_sorted_HdRel (y x : string * Z) (l : list (string * Z)) :
  not_after y x -> HdRel not_after y l ->
  HdRel not_after y (insert_sorted x l).
Proof.
  intros Hx Hl. destruct l as [ | z l]; simpl.
  - constructor. exact Hx.
  - destruct (key_lt z x); constructor; [ | exact Hx].
    inversion Hl; assumption.
Qed.

Lemma key_lt_asym (x y : string * Z) :
  key_lt x y = true -> key_lt y x = false.
Proof.
  intro H. apply Bool.not_true_iff_false. intro H'.
  apply key_lt_comes_before in H, H'.
  exact (comes_before_irrefl x (comes_before_trans _ _ _ H H')).
Qed.

Lemma insert_sorted_Sorted (x : string * Z) (l : list (string * Z)) :
  Sorted not_after l -> Sorted not_after (insert_sorted x l).
Proof.
  induction l as [ | y l IH]; intro Hs; simpl.
  - repeat constructor.
  - destruct (key_lt y x) eqn:E.
    + inversion Hs as [ | ? ? Hs' Hd]; subst.
      constructor; [apply IH, Hs' | ].
      apply insert_sorted_HdRel; [ | exact Hd].
      apply key_lt_asym, E.
    + constructor; [exact Hs | constructor; exact E].
Qed.

Lemma sorted_Sorted (l : list (string * Z)) : Sorted not_after (sorted l).
Proof.
  induction l as [ | x l IH]; simpl; [constructor | ].
  apply insert_sorted_Sorted, IH.
Qed.

Lemma Sorted_strict (l : list (string * Z)) :
  NoDup (map fst l) -> Sorted not_after l -> Sorted comes_before l.
Proof.
  induction l as [ | x l IH]; intros Hn Hs; [constructor | ].
  inversion Hn as [ | ? ? Hx Hn']; subst.
  inversion Hs as [ | ? ? Hs' Hd]; subst.
  constructor; [apply IH; assumption | ].
  destruct l as [ | y l]; constructor.
  inversion Hd as [ | ? ? Hxy]; subst.
  destruct (comes_before_total x y) as [H | H].
  - intro E. apply Hx. left. symmetry. exact E.
  - exact H.
  - apply key_lt_comes_before in H. unfold not_after in Hxy. congruence.
Qed.

(** Two lists in strict order with the same members are the same
    list. *)
Lemma sorted_unique (l l' : list (string * Z)) :
  StronglySorted comes_before l -> StronglySorted comes_before l' ->
  (forall x, In x l <-> In x l') -> l = l'.
Proof.
  revert l'. induction l as [ | a l IH]; intros l' Hs Hs' Heq.
  - destruct l' as [ | b l']; [reflexivity | ].
    exfalso. apply (proj2 (Heq b)). left. reflexivity.
  - destruct l' as [ | b l'].
    + exfalso. apply (proj1 (Heq a)). left. reflexivity.
    + inversion Hs as [ | ? ? Hs1 Ha]; subst.
      inversion Hs' as [ | ? ? Hs1' Hb]; subst.
      rewrite Forall_forall in Ha, Hb.
      assert (E : a = b).
      { destruct (proj1 (Heq a) (or_introl eq_refl)) as [E | Hin];
          [symmetry; exact E | ].
        destruct (proj2 (Heq b) (or_introl eq_refl)) as [E | Hin'];
          [exact E | ].
        exfalso. apply (comes_before_irrefl a).
        apply (comes_before_trans a b a); [apply Ha, Hin' | apply Hb, Hin]. }
      subst b. f_equal. apply IH; try assumption.
      intro x. split; intro Hin.
      * destruct (proj1 (Heq x) (or_intror Hin)) as [E | H]; [ | exact H].
        subst x. exfalso. exact (comes_before_irrefl a (Ha a Hin)).
      * destruct (proj2 (Heq x) (or_intror Hin)) as [E | H]; [ | exact H].
        subst x. exfalso. exact (comes_before_irrefl a (Hb a Hin)).
Qed.

Lemma analyze_strongly_sorted (column : list request_cell) :
  StronglySorted comes_before (analyze_service_types strip column).
Proof.
  apply Sorted_StronglySorted.
  - intros x y z. apply comes_before_trans.
  - apply Sorted_strict; [ | apply sorted_Sorted].
    apply (Permutation_NoDup
             (l := map fst (service_counts strip column))).
    + symmetry. apply Permutation_map, sorted_perm.
    + apply well_formed_NoDup, service_counts_well_formed.
Qed.

Lemma analyze_In (column : list request_cell) (s : string) (c : Z) :
  In (s, c) (analyze_service_types strip column)
  <-> c = pubs_mentioning strip s column /\ (0 < c)%Z.
Proof.
  rewrite <- service_counts_In. unfold analyze_service_types. split.
  - apply Permutation_in, sorted_perm.
  - apply Permutation_in. symmetry. apply sorted_perm.
Qed.

(** X15: the lines of [analyze_service_types] are the services that at
    least one pub mentions, each with the number of pubs that mention it:
    a service listed twice in one entry counts once for that pub, and an
    entry that is missing, not a string or blank counts for nothing. *)
Theorem service_lines_count_pubs (column : list request_cell)
  (s : string) (c : Z) :
  In (s, c) (analyze_service_types strip column)
  <-> c = pubs_mentioning strip s column /\ (0 < c)%Z.
Proof. apply analyze_In. Qed.

(** X16: the lines are in strict order: the larger count first, equal
    counts by name; every line comes before all the lines after it, so no
    service has two lines. *)
Theorem service_lines_sorted (column : list request_cell) :
  StronglySorted comes_before (analyze_service_types strip column) /\
  NoDup (map fst (analyze_service_types strip column)).
Proof.
  split; [apply analyze_strongly_sorted | ].
  apply (Permutation_NoDup (l := map fst (service_counts strip column))).
  - symmetry. apply Permutation_map, sorted_perm.
  - apply well_formed_NoDup, service_counts_well_formed.
Qed.

Lemma pubs_mentioning_perm (s : string) (column column' : list request_cell) :
  Permutation column column' ->
  pubs_mentioning strip s column = pubs_mentioning strip s column'.
Proof.
  intro Hp. unfold pubs_mentioning. f_equal.
  apply Permutation_length.
  induction Hp as [ | x l l' Hp IH | x y l | l l' l'' Hp1 IH1 Hp2 IH2]; simpl.
  - constructor.
  - destruct (mentions strip s x); [constructor | ]; exact IH.
  - destruct (mentions strip s x), (mentions strip s y);
      try reflexivity. apply perm_swap.
  - etransitivity; eassumption.
Qed.

(** X17: the lines do not depend on the order of the pubs. *)
Theorem service_lines_row_order (column column' : list request_cell) :
  Permutation column column' ->
  analyze_service_types strip column = analyze_service_types strip column'.
Proof.
  intro Hp. apply sorted_unique; try apply analyze_strongly_sorted.
  intros [s c]. rewrite !analyze_In.
  rewrite (pubs_mentioning_perm s _ _ Hp). reflexivity.
Qed.

Lemma split_semicolon_trailing (services : string) :
  In EmptyString (tl (split_semicolon (services ++ ";"))).
Proof.
  induction services as [ | a services IH]; simpl.
  - left. reflexivity.
  - destruct (Ascii.eqb a ";"); simpl.
    + destruct (split_semicolon (services ++ ";")) as [ | piece rest];
        [contradiction | right; exact IH].
    + destruct (split_semicolon (services ++ ";")) as [ | piece rest];
        [contradiction | exact IH].
Qed.

(** X18: a semicolon at the end of an entry makes a service of the empty
    name: it gets a line of its own, counted like any other. *)
Theorem trailing_semicolon_counted (column : list request_cell)
  (services : string) :
  strip EmptyString = EmptyString ->
  truthy (strip (services ++ ";")) = true ->
  In (Str (services ++ ";")) column ->
  exists c : Z,
    (0 < c)%Z /\ In (EmptyString, c) (analyze_service_types strip column).
Proof.
  intros Hstrip Ht Hin.
  exists (pubs_mentioning strip EmptyString column).
  assert (Hpos : (0 < pubs_mentioning strip EmptyString column)%Z).
  { unfold pubs_mentioning.
    assert (Hf : In (Str (services ++ ";"))
                    (filter (mentions strip EmptyString) column)).
    { apply filter_In. split; [exact Hin | ]. simpl. rewrite Ht. simpl.
      apply existsb_exists. exists EmptyString. split; [ | reflexivity].
      rewrite <- Hstrip at 1. apply in_map.
      pose proof (split_semicolon_trailing services) as H.
      destruct (split_semicolon (services ++ ";")); [contradiction | ].
      right. exact H. }
    destruct (filter (mentions strip EmptyString) column);
      [contradiction | simpl; lia]. }
  split; [exact Hpos | ].
  apply analyze_In. split; [reflexivity | exact Hpos].
Qed.

End WithStrip.

Lemma service_lines_row_order_witness :
  Permutation [Str "Editing; Figures"; NA; Str "Figures"]
              [Str "Figures"; Str "Editing; Figures"; NA] /\
  analyze_service_types strip_blanks
    [Str "Editing; Figures"; NA; Str "Figures"]
  = [("Figures", 2%Z); ("Editing", 1%Z)]%string /\
  analyze_service_types strip_blanks
    [Str "Figures"; Str "Editing; Figures"; NA]
  = [("Figures", 2%Z); ("Editing", 1%Z)]%string.
Proof.
  assert (Hp : Permutation [Str "Editing; Figures"; NA; Str "Figures"]
                           [Str "Figures"; Str "Editing; Figures"; NA]).
  { apply Permutation_sym.
    apply (Permutation_cons_app [Str "Editing; Figures"; NA] []).
    reflexivity. }
  split; [exact Hp | ].
  rewrite <- (service_lines_row_order strip_blanks _ _ Hp).
  split; reflexivity.
Defined.

Lemma trailing_semicolon_counted_witness :
  strip_blanks EmptyString = EmptyString /\
  truthy (strip_blanks ("Editing" ++ ";")) = true /\
  exists c : Z,
    (0 < c)%Z /\
    In (EmptyString, c)
       (analyze_service_types strip_blanks [Str ("Editing" ++ ";")]).
Proof.
  split; [reflexivity | split; [reflexivity | ]].
  apply (trailing_semicolon_counted strip_blanks
           [Str ("Editing" ++ ";")] "Editing");
    [reflexivity | reflexivity | left; reflexivity].
Defined.

End ServiceTypesFacts.

(** * calculate_basic_pub_stats.py: the counts of the pubs *)

Module PublicationsFacts.

Import PubReport Publications.

Lemma filter_length_implies {A : Type} (p q : A -> bool) (l : list A) :
  (forall x, p x = true -> q x = true) ->
  (List.length (filter p l) <= List.length (filter q l))%nat.
Proof.
  intro H. induction l as [ | x l IH]; simpl; [lia | ].
  destruct (p x) eqn:E.
  - rewrite (H x E). simpl. lia.
  - destruct (q x); simpl; lia.
Qed.

Lemma filter_length_split {A : Type} (p : A -> bool) (l : list A) :
  (List.length (filter p l)
   + List.length (filter (fun x => negb (p x)) l))%nat = List.length l.
Proof.
  induction l as [ | x l IH]; simpl; [reflexivity | ].
  destruct (p x); simpl; lia.
Qed.

Lemma filter_length_disjoint {A : Type} (p q : A -> bool) (l : list A) :
  (forall x, p x = true -> q x = false) ->
  (List.length (filter p l) + List.length (filter q l)
   <= List.length l)%nat.
Proof.
  intro H. induction l as [ | x l IH]; simpl; [lia | ].
  destruct (p x) eqn:E.
  - rewrite (H x E). simpl. lia.
  - destruct (q x); simpl; lia.
Qed.

Lemma published_is_completed (r : pub_row) :
  is_published r = true -> is_completed r = true.
Proof.
  unfold is_published, is_completed, eq_text.
  destruct (Status r) as [s | ]; [ | discriminate].
  intro H. unfold completed_statuses. cbn [existsb]. rewrite H. reflexivity.
Qed.

(** X19: the counts [analyze_publications] prints fit together.  A pub
    released publicly is counted as completed; every v2.0 pub is either
    completed or in progress (one without a status is in progress); and
    no pub is counted for both versions. *)
Theorem publication_counts_consistent (df : list pub_row) :
  let c := publication_counts df in
  (v1_published c <= v1_completed c)%nat /\
  (v2_published c <= v2_completed c)%nat /\
  (v2_completed c + v2_in_progress c)%nat
  = List.length
      (filter (fun r => eq_text (Publishing_version r) "v2.0") df) /\
  (v1_completed c + v2_completed c + v2_in_progress c
   <= List.length df)%nat.
Proof.
  cbn zeta. unfold publication_counts. cbn [v1_completed v1_published
    v2_completed v2_published v2_in_progress].
  set (v1_df := filter (fun r => eq_text (Publishing_version r) "v1.0") df).
  set (v2_df := filter (fun r => eq_text (Publishing_version r) "v2.0") df).
  split; [apply filter_length_implies, published_is_completed | ].
  split; [apply filter_length_implies, published_is_completed | ].
  split; [apply filter_length_split | ].
  pose proof (filter_length_split is_completed v2_df) as H2.
  pose proof (filter_length_implies is_completed (fun _ => true) v1_df
                (fun _ _ => eq_refl)) as H1.
  assert (Hall : filter (fun _ : pub_row => true) v1_df = v1_df).
  { clear. induction v1_df as [ | x l IH]; simpl; [ | rewrite IH];
      reflexivity. }
  rewrite Hall in H1.
  assert (Hd : (List.length v1_df + List.length v2_df
                <= List.length df)%nat).
  { apply filter_length_disjoint. intros r H.
    unfold eq_text in *. destruct (Publishing_version r) as [v | ];
      [ | reflexivity].
    apply String.eqb_eq in H. subst v. reflexivity. }
  lia.
Qed.

End PublicationsFacts.

(** * pub_readability_stats.py: the text of a page *)

Module ReadabilityFacts.

Import Py Readability.

(** X20: a page that starts with a byte order mark loses, with the mark,
    the two characters after it before it is parsed: the mark is one
    character of the decoded page, and [clean_text] cuts as many
    characters as the mark has bytes. *)
Theorem bom_takes_two_characters
  (prune : str -> result str) (justext : str -> result (list paragraph))
  (c1 c2 : Z) (rest : str) :
  startswith rest BOM_UTF8_decoded = false ->
  clean_text prune justext (BOM_UTF8_decoded ++ c1 :: c2 :: rest)
  = clean_text prune justext rest.
Proof.
  intro H. unfold clean_text. rewrite H.
  cbn [BOM_UTF8_decoded BOM_UTF8 app startswith List.length skipn].
  rewrite Z.eqb_refl. reflexivity.
Qed.

Lemma bom_takes_two_characters_witness :
  startswith (of_string ">Hello</p>") BOM_UTF8_decoded = false /\
  clean_text (fun html => Ok html)
    (fun html => Ok [ {| is_boilerplate := false; text := html |} ])
    (BOM_UTF8_decoded ++ of_string "<p>Hello</p>")
  = of_string ">Hello</p>".
Proof.
  split; [reflexivity | ].
  exact (eq_trans
           (bom_takes_two_characters (fun html => Ok html)
              (fun html => Ok [ {| is_boilerplate := false; text := html |} ])
              60%Z 112%Z (of_string ">Hello</p>") eq_refl)
           eq_refl).
Defined.

End ReadabilityFacts.
